(** * Team former: allocation, redistribution and balancing

    A shallow embedding of the three scripts of the repository
    ([3.py], [team-former.py], [team-former1.py]) and the properties of
    their team construction, leftover redistribution and swap balancing.

    Conventions of the embedding.
    - A participant is the record pandas reads from one spreadsheet row.
      Python compares two such dicts field by field, so [list.remove]
      is modelled with that equality ([person_eqb]), not object identity.
    - Scores and experience are exact rationals ([Q]); Python's [/] is
      modelled by [Qdiv].  Rounding and overflow of binary floating
      point are not modelled.  Where a script compares averages it has
      computed (the acceptance test of the balancers, the choice of a
      team for a leftover person), the embedding compares their exact
      values, and the script may decide otherwise when the two values
      are within rounding of each other.  No statement of this file
      rests on the outcome of such a comparison, except where it
      evaluates one on given scores whose averages binary floating
      point represents exactly.  Scores are compared as they are read
      only by the sort, which involves no arithmetic.
    - Role strings are ASCII; [str.lower] and [str.title] are modelled on
      the letters [A-Z] and [a-z].
    - Bounds in a template ([min], [max], [min_members], [max_members])
      are natural numbers.
    - A Python [dict] whose iteration order matters (the templates, the
      roles of a template) is an association list in insertion order.
    - Teams are values: two teams never share one list of members, as
      is the case for the teams [form_teams] builds.
    - A loop without a bound of its own ([while True]) takes fuel, one
      unit per pass; [OutOfFuel] stands for a run that has not ended
      within the fuel given.
    - The order in which Python goes through a [set] of strings is not
      fixed by the language; it is a parameter of the functions that
      iterate over one. *)

From Stdlib Require Import List String Ascii Bool Arith Lia.
From Stdlib Require Import QArith Qabs.
From Stdlib Require Import Permutation Sorted.
Import ListNotations.

Local Open Scope string_scope.
Local Open Scope list_scope.
Local Open Scope nat_scope.

(** ** Python string methods on ASCII text *)

Module PyStr.

Definition is_upper (c : ascii) : bool :=
  let n := nat_of_ascii c in (65 <=? n) && (n <=? 90).

Definition is_lower (c : ascii) : bool :=
  let n := nat_of_ascii c in (97 <=? n) && (n <=? 122).

Definition is_cased (c : ascii) : bool := is_upper c || is_lower c.

Definition to_lower (c : ascii) : ascii :=
  if is_upper c then ascii_of_nat (nat_of_ascii c + 32) else c.

Definition to_upper (c : ascii) : ascii :=
  if is_lower c then ascii_of_nat (nat_of_ascii c - 32) else c.

(** [s.lower()] *)
Fixpoint lower (s : string) : string :=
  match s with
  | EmptyString => EmptyString
  | String c s' => String (to_lower c) (lower s')
  end.

(** [s.title()]: a cased character is upper-cased when the character
    before it is not cased, and lower-cased otherwise. *)
Fixpoint title_from (previous_is_cased : bool) (s : string) : string :=
  match s with
  | EmptyString => EmptyString
  | String c s' =>
      String (if previous_is_cased then to_lower c else to_upper c)
           (title_from (is_cased c) s')
  end.

Definition title (s : string) : string := title_from false s.

End PyStr.

(** ** Data model *)

(** One row of the spreadsheet, [self.df.to_dict('records')]. *)
Record Person : Type := mkPerson {
  name : string;
  email : string;
  phone : string;
  role : string;
  experience : Q;
  score : Q   (* the column 'evaluation score' *)
}.

(** [p == q] on two row dicts. *)
Definition person_eqb (p q : Person) : bool :=
  String.eqb (name p) (name q) && String.eqb (email p) (email q) &&
  String.eqb (phone p) (phone q) && String.eqb (role p) (role q) &&
  Qeq_bool (experience p) (experience q) && Qeq_bool (score p) (score q).

(** [{'min': .., 'max': ..}] *)
Record RoleReq : Type := mkRoleReq { rmin : nat; rmax : nat }.

(** One entry of [team_types]. *)
Record TypeConfig : Type := mkTypeConfig {
  min_members : nat;
  max_members : nat;
  roles : list (string * RoleReq)
}.

(** [{'type': .., 'members': [..]}] *)
Record Team : Type := mkTeam { type : string; members : list Person }.

(** What a call can do besides returning. *)
Inductive exn : Type :=
| ZeroDivisionError | NameError | KeyError | IndexError | ValueError.

Inductive outcome (A : Type) : Type :=
| Ret (a : A)
| Raise (e : exn)
| OutOfFuel.
Arguments Ret {A} a.
Arguments Raise {A} e.
Arguments OutOfFuel {A}.

Definition bind {A B} (m : outcome A) (k : A -> outcome B) : outcome B :=
  match m with
  | Ret a => k a
  | Raise e => Raise e
  | OutOfFuel => OutOfFuel
  end.

Notation "x <- m ;; k" := (bind m (fun x => k))
  (at level 61, m at next level, right associativity).

(** ** List operations of Python *)

(** [l.remove(p)]: drops the first element equal to [p].  Python
    raises [ValueError] when there is none; every call in the scripts
    removes an element it has just read from the same list. *)
Fixpoint remove (p : Person) (l : list Person) : list Person :=
  match l with
  | [] => []
  | q :: l' => if person_eqb q p then l' else q :: remove p l'
  end.

(** [for p in selected: l.remove(p)] *)
Definition remove_all (selected l : list Person) : list Person :=
  fold_left (fun acc p => remove p acc) selected l.

Definition Qltb (x y : Q) : bool := negb (Qle_bool y x).

(** Insertion into a list that is descending by score: the new
    element goes before the first element whose score is not
    strictly greater. *)
Fixpoint insert_desc (p : Person) (l : list Person) : list Person :=
  match l with
  | [] => [p]
  | q :: l' =>
      if Qltb (score p) (score q) then q :: insert_desc p l'
      else p :: q :: l'
  end.

(** [l.sort(key=lambda x: x['evaluation score'], reverse=True)] and
    [sorted(l, key=.., reverse=True)].  Python's sort is stable, also
    with [reverse=True]: equal scores keep their order. *)
Fixpoint sort_by_score (l : list Person) : list Person :=
  match l with
  | [] => []
  | p :: l' => insert_desc p (sort_by_score l')
  end.

(** [sum(m['evaluation score'] for m in ms)] *)
Definition sum_score (ms : list Person) : Q :=
  fold_left (fun acc m => acc + score m)%Q ms 0%Q.

Definition sum_exp (ms : list Person) : Q :=
  fold_left (fun acc m => acc + experience m)%Q ms 0%Q.

Definition Qlen (ms : list Person) : Q := inject_Z (Z.of_nat (List.length ms)).

(** [p['role'].lower() == r] *)
Definition has_role (r : string) (p : Person) : bool :=
  String.eqb (PyStr.lower (role p)) r.

(** [d.get(k)] / [d[k]] on a dict kept in insertion order. *)
Fixpoint lookup {V : Type} (k : string) (d : list (string * V)) : option V :=
  match d with
  | [] => None
  | (k', v) :: d' => if String.eqb k' k then Some v else lookup k d'
  end.

(** [teams[i]['members'].append(p)]; the scripts only use indices of
    existing teams. *)
Fixpoint append_member (i : nat) (p : Person) (ts : list Team) {struct ts}
    : list Team :=
  match ts, i with
  | [], _ => []
  | t :: ts', 0 => mkTeam (type t) (members t ++ [p]) :: ts'
  | t :: ts', S i' => t :: append_member i' p ts'
  end.

(** [teams[i]['members'].remove(p)] *)
Fixpoint remove_member (i : nat) (p : Person) (ts : list Team) {struct ts}
    : list Team :=
  match ts, i with
  | [], _ => []
  | t :: ts', 0 => mkTeam (type t) (remove p (members t)) :: ts'
  | t :: ts', S i' => t :: remove_member i' p ts'
  end.

(** ** [__init__]: the participants grouped by role *)

(** [d[k].append(p)] on a [defaultdict(list)]: a key seen for the first
    time is added after the keys already there. *)
Fixpoint by_role_append (k : string) (p : Person)
    (d : list (string * list Person)) : list (string * list Person) :=
  match d with
  | [] => [(k, [p])]
  | (k', l) :: d' =>
      if String.eqb k' k then (k', l ++ [p]) :: d'
      else (k', l) :: by_role_append k p d'
  end.

(** Lines 11-13 of [3.py] (17-19 of [team-former.py], 22-24 of
    [team-former1.py]): [self.by_role]. *)
Definition by_role (participants : list Person)
    : list (string * list Person) :=
  fold_left (fun d p => by_role_append (PyStr.lower (role p)) p d)
            participants [].

(** ** [3.py]: templates with minimum and maximum bounds *)

Module Py3.

(** The local variables of [form_teams] that outlive one pass of its
    [while True] loop.  [role_binding] is the binding of the Python
    variable [role]: the loop variable of the two [for role, req in ...]
    loops, which stays bound to the last key it was given after those
    loops end, and is unbound ([None]) until one of them runs its body. *)
Record Locals : Type := mkLocals {
  teams : list Team;
  remaining_participants : list Person;
  team_idx : nat;
  role_binding : option string
}.

(** What one attempt to build a team leaves behind. *)
Record Attempt : Type := mkAttempt {
  formed : bool;
  team_members : list Person;
  pool : list Person;
  role_after : option string
}.

(** Lines 69-82: the minimum of every role, in the declared order. *)
Fixpoint fill_minimums (rs : list (string * RoleReq)) (a : Attempt) : Attempt :=
  match rs with
  | [] => a
  | (role, req) :: rs' =>
      let role_lower := PyStr.lower role in
      let available := filter (has_role role_lower) (pool a) in
      let needed := rmin req in
      if List.length available <? needed
      then mkAttempt false (team_members a) (pool a) (Some role)
      else
        let selected := firstn needed available in
        fill_minimums rs'
          (mkAttempt (formed a) (team_members a ++ selected)
                     (remove_all selected (pool a)) (Some role))
  end.

(** Lines 88-101: more members of every role, up to its maximum. *)
Fixpoint extend_to_max (rs : list (string * RoleReq)) (a : Attempt) : Attempt :=
  match rs with
  | [] => a
  | (role, req) :: rs' =>
      let role_lower := PyStr.lower role in
      let current := List.length (filter (has_role role_lower) (team_members a)) in
      if current <? rmax req then
        let can_add := rmax req - current in
        let available := filter (has_role role_lower) (pool a) in
        let to_add := Nat.min can_add (List.length available) in
        if 0 <? to_add then
          let selected := firstn to_add available in
          extend_to_max rs'
            (mkAttempt (formed a) (team_members a ++ selected)
                       (remove_all selected (pool a)) (Some role))
        else
          extend_to_max rs'
            (mkAttempt (formed a) (team_members a) (pool a) (Some role))
      else
        extend_to_max rs'
          (mkAttempt (formed a) (team_members a) (pool a) (Some role))
  end.

(** Lines 104-114: anyone left, until the team has [min_members]. *)
Definition fill_to_min_members (type_config : TypeConfig) (a : Attempt) : Attempt :=
  let current_size := List.length (team_members a) in
  if current_size <? min_members type_config then
    let needed := min_members type_config - current_size in
    let to_add := Nat.min needed (List.length (pool a)) in
    if 0 <? to_add then
      let selected := firstn to_add (pool a) in
      mkAttempt (formed a) (team_members a ++ selected)
                (remove_all selected (pool a)) (role_after a)
    else a
  else a.

(** How one pass of a loop ends: at the end of its body, or at a
    [break]. *)
Inductive LoopStep : Type :=
| Continue (st : Locals)
| Break (st : Locals).

(** Lines 63-123: the body of the [while True] loop. *)
Definition one_pass (team_types : list (string * TypeConfig)) (st : Locals)
    : outcome LoopStep :=
  let team_type_order := map fst team_types in
  if List.length team_type_order =? 0 then Raise ZeroDivisionError
  else
    let team_type :=
      nth (team_idx st mod List.length team_type_order) team_type_order "" in
    match lookup team_type team_types with
    | None => Raise KeyError
    | Some type_config =>
        let a0 := mkAttempt true [] (remaining_participants st)
                            (role_binding st) in
        let a1 := fill_minimums (roles type_config) a0 in
        if negb (formed a1) then
          Ret (Break (mkLocals (teams st) (pool a1) (team_idx st)
                               (role_after a1)))
        else
          let a2 := extend_to_max (roles type_config) a1 in
          let a3 := fill_to_min_members type_config a2 in
          if min_members type_config <=? List.length (team_members a3) then
            Ret (Continue
                   (mkLocals (teams st ++ [mkTeam team_type (team_members a3)])
                             (pool a3) (team_idx st + 1) (role_after a3)))
          else
            Ret (Break (mkLocals (teams st) (pool a3 ++ team_members a3)
                                 (team_idx st) (role_after a3)))
    end.

(** Line 62: [while True].  One unit of fuel is one pass. *)
Fixpoint allocate (fuel : nat) (team_types : list (string * TypeConfig))
    (st : Locals) : outcome Locals :=
  match fuel with
  | 0 => OutOfFuel
  | S fuel' =>
      r <- one_pass team_types st ;;
      match r with
      | Continue st' => allocate fuel' team_types st'
      | Break st' => Ret st'
      end
  end.

(** [score_diff > best_score_diff], where [best_score_diff] starts at
    [float('-inf')], here [None].  The script compares two floating
    point numbers it has computed; here their exact values are
    compared. *)
Definition beats (score_diff : Q) (best_score_diff : option Q) : bool :=
  match best_score_diff with
  | None => true
  | Some b => Qltb b score_diff
  end.

(** Lines 136-158: the scan of the teams for one leftover person [p].
    [type_config['roles'].get(role.title(), {})] reads the variable
    [role] of the enclosing function, not the role of [p]. *)
Fixpoint best_team (team_types : list (string * TypeConfig))
    (role_binding : option string) (p : Person) (ts : list Team) (i : nat)
    (best_team_idx : option nat) (best_score_diff : option Q)
    : outcome (option nat) :=
  match ts with
  | [] => Ret best_team_idx
  | team :: ts' =>
      match lookup (type team) team_types with
      | None => Raise KeyError
      | Some type_config =>
          let p_role := PyStr.lower (role p) in
          let current_size := List.length (members team) in
          if max_members type_config <=? current_size then
            best_team team_types role_binding p ts' (S i)
                      best_team_idx best_score_diff
          else
            let role_count :=
              List.length (filter (has_role p_role) (members team)) in
            match role_binding with
            | None => Raise NameError
            | Some role =>
                let role_max :=
                  match lookup (PyStr.title role) (roles type_config) with
                  | Some req => rmax req
                  | None => 0
                  end in
                if (0 <? role_max) && (role_max <=? role_count) then
                  best_team team_types role_binding p ts' (S i)
                            best_team_idx best_score_diff
                else
                  let current_avg :=
                    if 0 <? current_size
                    then (sum_score (members team) / Qlen (members team))%Q
                    else 0%Q in
                  let new_avg :=
                    ((sum_score (members team) + score p)
                     / inject_Z (Z.of_nat (current_size + 1)))%Q in
                  let score_diff := (new_avg - current_avg)%Q in
                  if beats score_diff best_score_diff then
                    best_team team_types role_binding p ts' (S i)
                              (Some i) (Some score_diff)
                  else
                    best_team team_types role_binding p ts' (S i)
                              best_team_idx best_score_diff
            end
      end
  end.

(** Lines 130-162: [for p in remaining_participants], a loop over a
    list that its own body shortens.  Python's list iterator keeps an
    index [i]: each step yields [remaining_participants[i]] of the list
    as it is then, and stops when [i] is past its end. *)
Fixpoint distribute (fuel : nat) (team_types : list (string * TypeConfig))
    (role_binding : option string) (i : nat) (ts : list Team)
    (remaining : list Person) : outcome (list Team * list Person) :=
  match fuel with
  | 0 => OutOfFuel
  | S fuel' =>
      match nth_error remaining i with
      | None => Ret (ts, remaining)
      | Some p =>
          b <- best_team team_types role_binding p ts 0 None None ;;
          match b with
          | Some best_team_idx =>
              distribute fuel' team_types role_binding (S i)
                         (append_member best_team_idx p ts) (remove p remaining)
          | None =>
              distribute fuel' team_types role_binding (S i) ts remaining
          end
      end
  end.

(** Lines 126-164: the second pass and the return. *)
Definition second_pass (team_types : list (string * TypeConfig))
    (st : Locals) : outcome (list Team * list Person) :=
  match remaining_participants st with
  | [] => Ret (teams st, [])
  | _ :: _ =>
      let remaining := sort_by_score (remaining_participants st) in
      distribute (S (List.length remaining)) team_types (role_binding st)
                 0 (teams st) remaining
  end.

(** Lines 52-60: the locals when the loop is entered. *)
Definition initial (participants : list Person) : Locals :=
  mkLocals [] (sort_by_score participants) 0 None.

(** [form_teams(team_types)] on [self.participants]. *)
Definition form_teams (fuel : nat) (participants : list Person)
    (team_types : list (string * TypeConfig))
    : outcome (list Team * list Person) :=
  st <- allocate fuel team_types (initial participants) ;;
  second_pass team_types st.

(** *** The balancer of [3.py] *)

(** One entry of [team_metrics].  The entry of a team without members
    has no key ['size']. *)
Record Metrics : Type := mkMetrics {
  avg_score : Q;
  avg_exp : Q;
  size : option nat
}.

(** Lines 201-213. *)
Definition metrics_of (team : Team) : Metrics :=
  match members team with
  | [] => mkMetrics 0 0 None
  | _ :: _ =>
      mkMetrics (sum_score (members team) / Qlen (members team))
                (sum_exp (members team) / Qlen (members team))
                (Some (List.length (members team)))
  end.

(** [team_metrics[i]] is the entry of [teams[i]]; the teams do not
    change between the computation of the metrics and the first swap of
    a pass, which ends the pass. *)
Definition team_metrics (ts : list Team) : list Metrics := map metrics_of ts.

(** An accepted swap: [m1] of [teams[i]] against [m2] of [teams[j]]. *)
Record Swap : Type := mkSwap {
  swap_i : nat;
  swap_j : nat;
  swap_m1 : Person;
  swap_m2 : Person
}.

Definition Qsize (n : nat) : Q := inject_Z (Z.of_nat n).

(** Lines 232-233, for the team with metrics [m] that gives [out] and
    takes [inn]. *)
Definition new_avg_score (m : Metrics) (n : nat) (out inn : Person) : Q :=
  ((avg_score m * Qsize n - score out + score inn) / Qsize n)%Q.

(** Lines 236-239: the acceptance test of one candidate swap.  The
    script makes it on floating point numbers it has computed; here it
    is made on their exact values, so the two can disagree on a swap
    that changes the imbalance by less than the rounding. *)
Definition improves (mi mj : Metrics) (ni nj : nat) (m1 m2 : Person) : bool :=
  let new_avg_i_score := new_avg_score mi ni m1 m2 in
  let new_avg_j_score := new_avg_score mj nj m2 m1 in
  let current_imbalance := Qabs (avg_score mi - avg_score mj) in
  let new_imbalance := Qabs (new_avg_i_score - new_avg_j_score) in
  Qltb new_imbalance current_imbalance.

(** Lines 229-246: [for m2 in teams[j]['members']]. *)
Fixpoint scan_m2 (mi mj : Metrics) (m1 : Person) (l2 : list Person)
    : outcome (option Person) :=
  match l2 with
  | [] => Ret None
  | m2 :: l2' =>
      if String.eqb (role m1) (role m2) then
        match size mi, size mj with
        | Some ni, Some nj =>
            if improves mi mj ni nj m1 m2 then Ret (Some m2)
            else scan_m2 mi mj m1 l2'
        | _, _ => Raise KeyError
        end
      else scan_m2 mi mj m1 l2'
  end.

(** Lines 228-249: [for m1 in teams[i]['members']]. *)
Fixpoint scan_m1 (mi mj : Metrics) (l1 l2 : list Person)
    : outcome (option (Person * Person)) :=
  match l1 with
  | [] => Ret None
  | m1 :: l1' =>
      r <- scan_m2 mi mj m1 l2 ;;
      match r with
      | Some m2 => Ret (Some (m1, m2))
      | None => scan_m1 mi mj l1' l2
      end
  end.

(** Lines 217-251: [for j in range(i+1, len(teams))]; [tjs] are the
    teams from index [j] on. *)
Fixpoint scan_j (team_types : list (string * TypeConfig)) (i : nat)
    (ti : Team) (j : nat) (tjs : list Team) : outcome (option Swap) :=
  match tjs with
  | [] => Ret None
  | tj :: tjs' =>
      if negb (String.eqb (type ti) (type tj)) then
        scan_j team_types i ti (S j) tjs'
      else
        match lookup (type ti) team_types with
        | None => Raise KeyError
        | Some type_config =>
            r <- scan_m1 (metrics_of ti) (metrics_of tj)
                         (members ti) (members tj) ;;
            match r with
            | Some (m1, m2) => Ret (Some (mkSwap i j m1 m2))
            | None => scan_j team_types i ti (S j) tjs'
            end
        end
  end.

(** Lines 216-253: [for i in range(len(teams))]; [tis] are the teams
    from index [i] on. *)
Fixpoint scan_i (team_types : list (string * TypeConfig)) (i : nat)
    (tis : list Team) : outcome (option Swap) :=
  match tis with
  | [] => Ret None
  | ti :: tis' =>
      r <- scan_j team_types i ti (S i) tis' ;;
      match r with
      | Some sw => Ret (Some sw)
      | None => scan_i team_types (S i) tis'
      end
  end.

(** One pass of the [while] body up to the first accepted swap. *)
Definition find_swap (team_types : list (string * TypeConfig))
    (ts : list Team) : outcome (option Swap) :=
  scan_i team_types 0 ts.

(** Lines 241-244. *)
Definition perform_swap (sw : Swap) (ts : list Team) : list Team :=
  let ts1 := remove_member (swap_i sw) (swap_m1 sw) ts in
  let ts2 := remove_member (swap_j sw) (swap_m2 sw) ts1 in
  let ts3 := append_member (swap_i sw) (swap_m2 sw) ts2 in
  append_member (swap_j sw) (swap_m1 sw) ts3.

(** The result of the loop, with the final value of [iterations] and a
    ghost log of the swaps performed, oldest first. *)
Record Run : Type := mkRun {
  final_teams : list Team;
  iterations : nat;
  swaps : list Swap
}.

(** Lines 195-253: [while improved and iterations < 100].  [budget] is
    the number of passes still allowed, [100 - iterations]. *)
Fixpoint balance_loop (budget : nat) (team_types : list (string * TypeConfig))
    (r : Run) : outcome Run :=
  match budget with
  | 0 => Ret r
  | S budget' =>
      f <- find_swap team_types (final_teams r) ;;
      match f with
      | None => Ret (mkRun (final_teams r) (S (iterations r)) (swaps r))
      | Some sw =>
          balance_loop budget' team_types
            (mkRun (perform_swap sw (final_teams r)) (S (iterations r))
                   (swaps r ++ [sw]))
      end
  end.

Definition balance_run (ts : list Team)
    (team_types : list (string * TypeConfig)) : outcome Run :=
  balance_loop 100 team_types (mkRun ts 0 []).

(** [balance_teams(teams, team_types)] *)
Definition balance_teams (ts : list Team)
    (team_types : list (string * TypeConfig)) : outcome (list Team) :=
  r <- balance_run ts team_types ;; Ret (final_teams r).

End Py3.

(** ** Teams as plain lists, for [team-former.py] and [team-former1.py] *)

(** [teams[i].append(p)] *)
Fixpoint append_to (i : nat) (p : Person) (ts : list (list Person))
    {struct ts} : list (list Person) :=
  match ts, i with
  | [], _ => []
  | t :: ts', 0 => (t ++ [p]) :: ts'
  | t :: ts', S i' => t :: append_to i' p ts'
  end.

(** [teams[i].remove(p)] *)
Fixpoint remove_from (i : nat) (p : Person) (ts : list (list Person))
    {struct ts} : list (list Person) :=
  match ts, i with
  | [], _ => []
  | t :: ts', 0 => remove p t :: ts'
  | t :: ts', S i' => t :: remove_from i' p ts'
  end.

(** Lines 47-61 of [team-former.py] and 61-74 of [team-former1.py]:
    the exact count of every role of one composition, best scores
    first.  The first component tells whether every role was filled. *)
Fixpoint fill_composition (comp : list (string * nat))
    (team remaining_participants : list Person)
    : bool * list Person * list Person :=
  match comp with
  | [] => (true, team, remaining_participants)
  | (role, count) :: comp' =>
      let role_lower := PyStr.lower role in
      let available := filter (has_role role_lower) remaining_participants in
      if List.length available <? count
      then (false, team, remaining_participants)
      else
        let selected := firstn count (sort_by_score available) in
        fill_composition comp' (team ++ selected)
                         (remove_all selected remaining_participants)
  end.

(** ** [team-former.py]: one team per composition *)

Module TeamFormer.

(** Lines 42-66: [for comp in team_compositions]. *)
Fixpoint form_loop (team_compositions : list (list (string * nat)))
    (teams : list (list Person)) (remaining_participants : list Person)
    : list (list Person) * list Person :=
  match team_compositions with
  | [] => (teams, remaining_participants)
  | comp :: rest =>
      let '(possible, team, remaining) :=
        fill_composition comp [] remaining_participants in
      if possible then form_loop rest (teams ++ [team]) remaining
      else form_loop rest teams remaining
  end.

(** [form_teams(team_compositions)] *)
Definition form_teams (participants : list Person)
    (team_compositions : list (list (string * nat)))
    : list (list Person) * list Person :=
  form_loop team_compositions [] participants.

End TeamFormer.

(** ** [team-former1.py]: ideal compositions with a fallback *)

Module TeamFormer1.

(** Lines 57-80: the first pass stops at the first composition that
    cannot be filled. *)
Fixpoint ideal_pass (team_compositions : list (list (string * nat)))
    (teams : list (list Person)) (remaining_participants : list Person)
    : bool * list (list Person) * list Person :=
  match team_compositions with
  | [] => (true, teams, remaining_participants)
  | comp :: rest =>
      let '(possible, team, remaining) :=
        fill_composition comp [] remaining_participants in
      if possible then ideal_pass rest (teams ++ [team]) remaining
      else (false, teams, remaining)
  end.

(** Lines 92-102 and 105-119: up to [count] more members of every role
    of [reqs], where [count] is the bound itself ([absolute = true],
    the minimum requirements) or what the team still lacks of it. *)
Fixpoint take_up_to (absolute : bool) (reqs : list (string * nat))
    (team remaining_participants : list Person)
    : list Person * list Person :=
  match reqs with
  | [] => (team, remaining_participants)
  | (role, bound) :: reqs' =>
      let role_lower := PyStr.lower role in
      let needed :=
        if absolute then bound
        else bound - List.length (filter (has_role role_lower) team) in
      let available := filter (has_role role_lower) remaining_participants in
      let count := Nat.min needed (List.length available) in
      if (0 <? needed) && (0 <? count) then
        let selected := firstn count (sort_by_score available) in
        take_up_to absolute reqs' (team ++ selected)
                   (remove_all selected remaining_participants)
      else take_up_to absolute reqs' team remaining_participants
  end.

(** Lines 88-121: the pass with minimum requirements. *)
Fixpoint minimum_pass (min_requirements : list (string * nat))
    (team_compositions : list (list (string * nat)))
    (teams : list (list Person)) (remaining_participants : list Person)
    : list (list Person) * list Person :=
  match team_compositions with
  | [] => (teams, remaining_participants)
  | comp :: rest =>
      let '(team1, remaining1) :=
        take_up_to true min_requirements [] remaining_participants in
      let '(team2, remaining2) := take_up_to false comp team1 remaining1 in
      minimum_pass min_requirements rest (teams ++ [team2]) remaining2
  end.

(** [any(m['role'].lower() == p_role for m in team)] *)
Definition has_same_role (p_role : string) (team : list Person) : bool :=
  existsb (has_role p_role) team.

(** [avg_score < lowest_avg], where [lowest_avg] starts at
    [float('inf')], here [None].  The script compares two floating
    point numbers it has computed; here their exact values are
    compared. *)
Definition below (avg_score : Q) (lowest_avg : option Q) : bool :=
  match lowest_avg with
  | None => true
  | Some l => Qltb avg_score l
  end.

(** Lines 134-145. *)
Fixpoint best_team (p : Person) (ts : list (list Person)) (i : nat)
    (best_team_idx : option nat) (lowest_avg : option Q) : option nat :=
  match ts with
  | [] => best_team_idx
  | team :: ts' =>
      match team with
      | [] => best_team p ts' (S i) best_team_idx lowest_avg
      | _ :: _ =>
          let avg_score := (sum_score team / Qlen team)%Q in
          if has_same_role (PyStr.lower (role p)) team
             && below avg_score lowest_avg
          then best_team p ts' (S i) (Some i) (Some avg_score)
          else best_team p ts' (S i) best_team_idx lowest_avg
      end
  end.

(** [min(range(len(teams)), key=lambda i: len(teams[i]))]: the first
    index of a shortest team; [ValueError] on no team at all. *)
Fixpoint smallest_from (ts : list (list Person)) (i : nat)
    (best : nat) (best_len : nat) : nat :=
  match ts with
  | [] => best
  | t :: ts' =>
      if List.length t <? best_len
      then smallest_from ts' (S i) i (List.length t)
      else smallest_from ts' (S i) best best_len
  end.

Definition smallest_team_idx (ts : list (list Person)) : outcome nat :=
  match ts with
  | [] => Raise ValueError
  | t :: ts' => Ret (smallest_from ts' 1 0 (List.length t))
  end.

(** Lines 128-154: [for p in remaining_participants], whose body
    removes [p] from that list on both branches. *)
Fixpoint distribute (fuel : nat) (i : nat) (ts : list (list Person))
    (remaining : list Person) : outcome (list (list Person) * list Person) :=
  match fuel with
  | 0 => OutOfFuel
  | S fuel' =>
      match nth_error remaining i with
      | None => Ret (ts, remaining)
      | Some p =>
          match best_team p ts 0 None None with
          | Some best_team_idx =>
              distribute fuel' (S i) (append_to best_team_idx p ts)
                         (remove p remaining)
          | None =>
              k <- smallest_team_idx ts ;;
              distribute fuel' (S i) (append_to k p ts) (remove p remaining)
          end
      end
  end.

(** [form_teams(team_compositions, min_requirements=None)] *)
Definition form_teams (participants : list Person)
    (team_compositions : list (list (string * nat)))
    (min_requirements : option (list (string * nat)))
    : outcome (list (list Person) * list Person) :=
  reqs <- match min_requirements with
          | Some reqs => Ret reqs
          | None =>
              match team_compositions with
              | [] => Raise IndexError
              | comp :: _ => Ret (map (fun kv => (fst kv, 1)) comp)
              end
          end ;;
  let '(original_composition_success, teams1, remaining1) :=
    ideal_pass team_compositions [] participants in
  let '(teams, remaining_participants) :=
    if original_composition_success then (teams1, remaining1)
    else minimum_pass reqs team_compositions [] participants in
  match remaining_participants with
  | [] => Ret (teams, [])
  | _ :: _ =>
      let remaining := sort_by_score remaining_participants in
      distribute (S (List.length remaining)) 0 teams remaining
  end.

(** Lines 190-200: [team_metrics]. *)
Definition avg_score (team : list Person) : Q :=
  match team with
  | [] => 0
  | _ :: _ => (sum_score team / Qlen team)%Q
  end.

Definition avg_exp (team : list Person) : Q :=
  match team with
  | [] => 0
  | _ :: _ => (sum_exp team / Qlen team)%Q
  end.

(** Lines 213-223: the acceptance test of one candidate swap.  The
    script makes it on floating point numbers it has computed; here it
    is made on their exact values, so the two can disagree on a swap
    that changes the imbalance by less than the rounding. *)
Definition improves (ti tj : list Person) (m1 m2 : Person) : bool :=
  let new_avg_i_score :=
    ((avg_score ti * Qlen ti - score m1 + score m2) / Qlen ti)%Q in
  let new_avg_j_score :=
    ((avg_score tj * Qlen tj - score m2 + score m1) / Qlen tj)%Q in
  let new_avg_i_exp :=
    ((avg_exp ti * Qlen ti - experience m1 + experience m2) / Qlen ti)%Q in
  let new_avg_j_exp :=
    ((avg_exp tj * Qlen tj - experience m2 + experience m1) / Qlen tj)%Q in
  let current_imbalance :=
    (Qabs (avg_score ti - avg_score tj) + Qabs (avg_exp ti - avg_exp tj))%Q in
  let new_imbalance :=
    (Qabs (new_avg_i_score - new_avg_j_score)
     + Qabs (new_avg_i_exp - new_avg_j_exp))%Q in
  Qltb new_imbalance current_imbalance.

(** Lines 210-230: [for m2 in teams[j]]. *)
Fixpoint scan_m2 (ti tj : list Person) (m1 : Person) (l2 : list Person)
    : option Person :=
  match l2 with
  | [] => None
  | m2 :: l2' =>
      if String.eqb (role m1) (role m2) && improves ti tj m1 m2
      then Some m2 else scan_m2 ti tj m1 l2'
  end.

(** Lines 209-233: [for m1 in teams[i]]. *)
Fixpoint scan_m1 (ti tj : list Person) (l1 : list Person)
    : option (Person * Person) :=
  match l1 with
  | [] => None
  | m1 :: l1' =>
      match scan_m2 ti tj m1 tj with
      | Some m2 => Some (m1, m2)
      | None => scan_m1 ti tj l1'
      end
  end.

(** Lines 204-235: [for j in range(i+1, len(teams))]. *)
Fixpoint scan_j (i : nat) (ti : list Person) (j : nat)
    (tjs : list (list Person)) : option (nat * nat * Person * Person) :=
  match tjs with
  | [] => None
  | tj :: tjs' =>
      match ti, tj with
      | _ :: _, _ :: _ =>
          match scan_m1 ti tj ti with
          | Some (m1, m2) => Some (i, j, m1, m2)
          | None => scan_j i ti (S j) tjs'
          end
      | _, _ => scan_j i ti (S j) tjs'
      end
  end.

(** Lines 203-237: [for i in range(len(teams))]. *)
Fixpoint scan_i (i : nat) (tis : list (list Person))
    : option (nat * nat * Person * Person) :=
  match tis with
  | [] => None
  | ti :: tis' =>
      match scan_j i ti (S i) tis' with
      | Some sw => Some sw
      | None => scan_i (S i) tis'
      end
  end.

Definition find_swap (ts : list (list Person))
    : option (nat * nat * Person * Person) :=
  scan_i 0 ts.

(** Lines 225-228. *)
Definition perform_swap (sw : nat * nat * Person * Person)
    (ts : list (list Person)) : list (list Person) :=
  let '(i, j, m1, m2) := sw in
  append_to j m1 (append_to i m2 (remove_from j m2 (remove_from i m1 ts))).

(** Lines 184-237: [while improved and iteration < max_iterations]. *)
Fixpoint balance_loop (budget : nat) (ts : list (list Person))
    : list (list Person) :=
  match budget with
  | 0 => ts
  | S budget' =>
      match find_swap ts with
      | None => ts
      | Some sw => balance_loop budget' (perform_swap sw ts)
      end
  end.

(** [balance_teams(teams)] *)
Definition balance_teams (ts : list (list Person)) : list (list Person) :=
  balance_loop 100 ts.

End TeamFormer1.

(** ** [team-former.py]: the balancer by experience *)

Module TeamFormerExperience.

(** [l.sort(key=lambda x: x['experience'])]: ascending and stable. *)
Fixpoint insert_asc (p : Person) (l : list Person) : list Person :=
  match l with
  | [] => [p]
  | q :: l' =>
      if Qltb (experience q) (experience p) then q :: insert_asc p l'
      else p :: q :: l'
  end.

Fixpoint sort_by_experience (l : list Person) : list Person :=
  match l with
  | [] => []
  | p :: l' => insert_asc p (sort_by_experience l')
  end.

(** [l[-1]] *)
Fixpoint last_of (l : list Person) : option Person :=
  match l with
  | [] => None
  | [x] => Some x
  | _ :: l' => last_of l'
  end.

(** Lines 90-103: the body of the loop over the roles, for role
    [role] and the teams at [i] and [j] as they are then. *)
Definition role_step (i j : nat) (teams : list (list Person))
    (role : string) : list (list Person) :=
  match nth_error teams i, nth_error teams j with
  | Some ti, Some tj =>
      let members_i := sort_by_experience (filter (has_role role) ti) in
      let members_j := sort_by_experience (filter (has_role role) tj) in
      match members_i, last_of members_j with
      | m1 :: _, Some m2 =>
          if Qltb 1 (Qabs (experience m1 - experience m2)) then
            append_to j m1
              (append_to i m2 (remove_from j m2 (remove_from i m1 teams)))
          else teams
      | _, _ => teams
      end
  | _, _ => teams
  end.

Section Order.

(** The order in which Python iterates over [set(l)] is not fixed by
    the language; [set_order l] stands for the order the interpreter
    happens to use for the set built from [l]. *)
Variable set_order : list string -> list string.

(** Lines 89-103: [for role in set([...])]; the set is built from the
    two teams as they are when the loop starts. *)
Definition pair_step (i j : nat) (teams : list (list Person))
    : list (list Person) :=
  match nth_error teams i, nth_error teams j with
  | Some ti, Some tj =>
      fold_left (role_step i j)
                (set_order (map (fun m => PyStr.lower (role m)) (ti ++ tj)))
                teams
  | _, _ => teams
  end.

(** Lines 87-103: [for j in range(i+1, len(teams))], with [count] the
    number of indices from [j] on. *)
Fixpoint loop_j (i j count : nat) (teams : list (list Person))
    : list (list Person) :=
  match count with
  | 0 => teams
  | S count' => loop_j i (S j) count' (pair_step i j teams)
  end.

(** Lines 86-103: [for i in range(len(teams))], with [count] the
    number of indices from [i] on. *)
Fixpoint loop_i (i count : nat) (teams : list (list Person))
    : list (list Person) :=
  match count with
  | 0 => teams
  | S count' => loop_i (S i) count' (loop_j i (S i) count' teams)
  end.

(** [balance_teams_by_experience(teams)] *)
Definition balance_teams_by_experience (teams : list (list Person))
    : list (list Person) :=
  loop_i 0 (List.length teams) teams.

End Order.

End TeamFormerExperience.

(** ** Pools, templates and teams of the examples *)

Module Scenario.

(** A spreadsheet row with the columns the scripts read. *)
Definition row (n r : string) (s : Z) : Person :=
  mkPerson n "" "" r 1 (inject_Z s).

Definition a90 : Person := row "a90" "A" 90.
Definition a80 : Person := row "a80" "A" 80.
Definition b70 : Person := row "b70" "B" 70.
Definition b60 : Person := row "b60" "B" 60.
Definition c50 : Person := row "c50" "C" 50.
Definition d40 : Person := row "d40" "D" 40.

(** Teams of one A and one B. *)
Definition pair_template : list (string * TypeConfig) :=
  [("t", mkTypeConfig 2 2 [("A", mkRoleReq 1 1); ("B", mkRoleReq 1 1)])].

Definition pair_composition : list (list (string * nat)) :=
  [[("A", 1); ("B", 1)]].

(** At most one A and at most two B in a team of two or three. *)
Definition one_a_template : list (string * TypeConfig) :=
  [("t", mkTypeConfig 2 3 [("B", mkRoleReq 1 2); ("A", mkRoleReq 1 1)])].

(** Teams of exactly two, with one or two of each role. *)
Definition two_template : list (string * TypeConfig) :=
  [("t", mkTypeConfig 2 2 [("A", mkRoleReq 1 2); ("B", mkRoleReq 1 2)])].

(** One A, and room for two more members of any role. *)
Definition roomy_template : list (string * TypeConfig) :=
  [("t", mkTypeConfig 1 3 [("A", mkRoleReq 1 1)])].

(** Three teams of one template for the balancer. *)
Definition x0 : Person := row "x0" "R" 0.
Definition y5 : Person := row "y5" "R" 5.
Definition y3 : Person := row "y3" "Q" 3.
Definition z0 : Person := row "z0" "Z" 0.

Definition r_template : list (string * TypeConfig) :=
  [("t", mkTypeConfig 1 3 [("R", mkRoleReq 1 1)])].

Definition three_teams : list Team :=
  [mkTeam "t" [x0]; mkTeam "t" [y5; y3]; mkTeam "t" [z0]].

Definition first_swap : Py3.Swap := Py3.mkSwap 0 1 x0 y5.

(** Two testers whose role tags differ in case only. *)
Definition t0 : Person := row "t0" "Tester" 0.
Definition t9 : Person := row "t9" "tester" 9.

Definition tester_teams : list Team := [mkTeam "t" [t0]; mkTeam "t" [t9]].

End Scenario.

(** ** Vocabulary of the statements *)

(** *** Pools *)

(** [l1] is [l2] with some elements left out, the others in place. *)
Inductive Subseq : list Person -> list Person -> Prop :=
| Subseq_nil : Subseq [] []
| Subseq_skip x l1 l2 : Subseq l1 l2 -> Subseq l1 (x :: l2)
| Subseq_keep x l1 l2 : Subseq l1 l2 -> Subseq (x :: l1) (x :: l2).

(** [l] without its first [n] elements that satisfy [f]. *)
Fixpoint drop_first (f : Person -> bool) (n : nat) (l : list Person)
    {struct l} : list Person :=
  match n, l with
  | 0, _ => l
  | _, [] => []
  | S n', x :: l' =>
      if f x then drop_first f n' l' else x :: drop_first f (S n') l'
  end.

(** [f] cannot tell apart two rows that Python finds equal. *)
Definition respects_eq (f : Person -> bool) : Prop :=
  forall p q, person_eqb q p = true -> f q = f p.

(** Counting the members whose role tag satisfies [f]; [f] may look at
    the tag as written or at its lower-case form. *)
Definition count_role (f : string -> bool) (l : list Person) : nat :=
  List.length (filter (fun p => f (role p)) l).

(** *** The sort *)

(** Best score first. *)
Definition descending (l : list Person) : Prop :=
  StronglySorted (fun p q => (score q <= score p)%Q) l.

Definition score_is (s : Q) (p : Person) : bool := Qeq_bool (score p) s.

(** The people of lower-case role [r] and score [s]. *)
Definition tied (s : Q) (r : string) (p : Person) : bool :=
  has_role r p && score_is s p.

(** [sorted] is [input] in descending order of score, people of equal
    score in the order they have in [input]. *)
Definition stable_descending_sort_of (input sorted : list Person) : Prop :=
  Permutation sorted input
  /\ descending sorted
  /\ forall s, filter (score_is s) sorted = filter (score_is s) input.

(** *** The construction loop of [3.py] *)

(** The states in which [form_teams] can enter a pass of its
    construction loop. *)
Inductive reachable (team_types : list (string * TypeConfig))
    (participants : list Person) : Py3.Locals -> Prop :=
| reach_initial : reachable team_types participants (Py3.initial participants)
| reach_next st st' :
    reachable team_types participants st ->
    Py3.one_pass team_types st = Ret (Py3.Continue st') ->
    reachable team_types participants st'.

(** The template the pass entered in [st] builds a team of. *)
Definition current_config (team_types : list (string * TypeConfig))
    (st : Py3.Locals) : option TypeConfig :=
  lookup (nth (Py3.team_idx st mod List.length (map fst team_types))
              (map fst team_types) "")
         team_types.

(** The attempt a pass entered in [st] starts from. *)
Definition fresh_attempt (st : Py3.Locals) : Py3.Attempt :=
  Py3.mkAttempt true [] (Py3.remaining_participants st) (Py3.role_binding st).

(** While the minimums of [rs] are filled from the pool of [a], some
    role finds fewer people in the pool than its minimum. *)
Definition shortage (rs : list (string * RoleReq)) (a : Py3.Attempt) : Prop :=
  exists before role req after,
    rs = before ++ (role, req) :: after
    /\ Py3.formed (Py3.fill_minimums before a) = true
    /\ List.length (filter (has_role (PyStr.lower role))
                      (Py3.pool (Py3.fill_minimums before a))) < rmin req.

(** Every team carries the name of a template. *)
Definition known_types (team_types : list (string * TypeConfig))
    (ts : list Team) : Prop :=
  Forall (fun t => lookup (type t) team_types <> None) ts.

(** [t'] is [t] with members added at the end. *)
Definition extends (t t' : Team) : Prop :=
  type t' = type t /\ exists added, members t' = members t ++ added.

(** *** The balancer of [3.py] *)

(** [sw] names two teams [ti], [tj] of [ts] and one member of each that
    the acceptance test of the balancer lets through. *)
Definition accepted (ts : list Team) (sw : Py3.Swap) (ti tj : Team) : Prop :=
  Py3.swap_i sw < Py3.swap_j sw
  /\ nth_error ts (Py3.swap_i sw) = Some ti
  /\ nth_error ts (Py3.swap_j sw) = Some tj
  /\ type ti = type tj
  /\ In (Py3.swap_m1 sw) (members ti)
  /\ In (Py3.swap_m2 sw) (members tj)
  /\ String.eqb (role (Py3.swap_m1 sw)) (role (Py3.swap_m2 sw)) = true
  /\ Py3.improves (Py3.metrics_of ti) (Py3.metrics_of tj)
       (List.length (members ti)) (List.length (members tj))
       (Py3.swap_m1 sw) (Py3.swap_m2 sw) = true.

(** No pair of teams of [ts] has a pair of members that the acceptance
    test of the balancer lets through. *)
Definition no_improving_swap (ts : list Team) : Prop :=
  forall sw ti tj, ~ accepted ts sw ti tj.

(** Team [t] after it gave [out] and took [inn]. *)
Definition exchanged (t : Team) (out inn : Person) : Team :=
  mkTeam (type t) (remove out (members t) ++ [inn]).





(** The call ends, and if it raises, it raises [KeyError]. *)
Definition ends_or_key_error {A : Type} (o : outcome A) : Prop :=
  match o with
  | Ret _ => True
  | Raise e => e = KeyError
  | OutOfFuel => False
  end.

(** The swaps of a log, applied in order. *)
Definition replay (log : list Py3.Swap) (ts : list Team) : list Team :=
  fold_left (fun acc sw => Py3.perform_swap sw acc) log ts.

(** The teams of a run are the teams it started from after the swaps
    of its log. *)
Definition final_teams_ok (ts : list Team) (r : Py3.Run) : Prop :=
  Py3.final_teams r = replay (Py3.swaps r) ts.

(** *** Whole runs *)

(** Everybody who is in a team. *)
Definition all_members (ts : list Team) : list Person :=
  List.concat (map members ts).

(** A template that can be satisfied by nobody at all: no minimum size
    and no minimum for any role. *)
Definition no_minimum (type_config : TypeConfig) : Prop :=
  min_members type_config = 0
  /\ Forall (fun kv => rmin (snd kv) = 0) (roles type_config).

(** Team [t] meets the minimum size of its template. *)
Definition meets_min_members (team_types : list (string * TypeConfig))
    (t : Team) : Prop :=
  exists type_config,
    lookup (type t) team_types = Some type_config
    /\ min_members type_config <= List.length (members t).

(** Team [t] has the minimum of every role of its template. *)
Definition meets_role_minimums (team_types : list (string * TypeConfig))
    (t : Team) : Prop :=
  exists type_config,
    lookup (type t) team_types = Some type_config
    /\ Forall (fun kv =>
                 rmin (snd kv)
                 <= List.length
                      (filter (has_role (PyStr.lower (fst kv))) (members t)))
              (roles type_config).

(** Team [t] has no room left. *)
Definition full (team_types : list (string * TypeConfig)) (t : Team) : Prop :=
  exists type_config,
    lookup (type t) team_types = Some type_config
    /\ max_members type_config <= List.length (members t).

(** Team [t'] is [t] with the same type, size and role counts. *)
Definition same_shape (t t' : Team) : Prop :=
  type t' = type t
  /\ List.length (members t') = List.length (members t)
  /\ forall f, count_role f (members t') = count_role f (members t).

(** *** The second pass of [3.py] *)

(** The test of lines 141-149 as the code makes it for person [p] and
    team [t], with [role_var] the value of the variable [role]. *)
Definition candidate (team_types : list (string * TypeConfig))
    (role_var : string) (p : Person) (t : Team) : Prop :=
  exists type_config,
    lookup (type t) team_types = Some type_config
    /\ List.length (members t) < max_members type_config
    /\ let role_max :=
         match lookup (PyStr.title role_var) (roles type_config) with
         | Some req => rmax req
         | None => 0
         end in
       role_max = 0
       \/ List.length (filter (has_role (PyStr.lower (role p)))
                         (members t)) < role_max.

(** Team [t'] has the type of [t] and is no larger than [t] or the
    [max_members] of its template, whichever is larger. *)
Definition within_max (team_types : list (string * TypeConfig))
    (t t' : Team) : Prop :=
  type t' = type t
  /\ forall type_config,
       lookup (type t) team_types = Some type_config ->
       List.length (members t')
       <= Nat.max (List.length (members t)) (max_members type_config).

(** *** Teams as plain lists *)

(** How many elements of [l] Python's [==] takes for [p]. *)
Definition occurrences (p : Person) (l : list Person) : nat :=
  List.length (filter (fun q => person_eqb q p) l).

(** The number of people in the teams. *)
Definition headcount (ts : list (list Person)) : nat :=
  List.length (List.concat ts).

(** Team [team] has the size composition [comp] asks for, and of every
    role of [comp] at least the number asked. *)
Definition made_to (comp : list (string * nat)) (team : list Person) : Prop :=
  List.length team = list_sum (map snd comp)
  /\ Forall (fun kv =>
               snd kv
               <= List.length (filter (has_role (PyStr.lower (fst kv))) team))
            comp.

(** Team [t'] is [t] with members added at the end. *)
Definition grown (t t' : list Person) : Prop :=
  exists added : list Person, t' = t ++ added.

(** Team [t'] has the size and the role counts of [t]. *)
Definition same_counts (t t' : list Person) : Prop :=
  List.length t' = List.length t
  /\ forall f, count_role f t' = count_role f t.

(** Team [t'] has the size of [t] and as many members of every role,
    whatever the case of the role tags. *)
Definition same_roles (t t' : list Person) : Prop :=
  List.length t' = List.length t
  /\ forall r,
       List.length (filter (has_role r) t')
       = List.length (filter (has_role r) t).

(** * Properties *)

(** ** Python strings *)

Example title_full_stack : PyStr.title "full stack" = "Full Stack".
Proof. reflexivity. Qed.

Example title_ai_engineer : PyStr.title "AI Engineer" = "Ai Engineer".
Proof. reflexivity. Qed.

Example lower_ai_engineer : PyStr.lower "AI Engineer" = "ai engineer".
Proof. reflexivity. Qed.

(** ** Equality of rows and [list.remove] *)

Lemma person_eqb_refl (p : Person) : person_eqb p p = true.
Proof.
  unfold person_eqb.
  rewrite !String.eqb_refl. simpl.
  assert (H : forall q : Q, Qeq_bool q q = true)
    by (intro q; apply Qeq_bool_iff; reflexivity).
  now rewrite !H.
Qed.

Lemma person_eqb_fields (p q : Person) :
  person_eqb p q = true ->
  name p = name q /\ role p = role q
  /\ (experience p == experience q)%Q /\ (score p == score q)%Q.
Proof.
  unfold person_eqb. intro H.
  repeat (apply andb_prop in H; destruct H as [H ?]).
  repeat match goal with
         | E : String.eqb _ _ = true |- _ => apply String.eqb_eq in E
         | E : Qeq_bool _ _ = true |- _ => apply Qeq_bool_iff in E
         end.
  auto.
Qed.

(** What [l.remove(p)] does when [p] is in [l]: it takes out the first
    element equal to [p], which agrees with [p] on every field. *)
Lemma remove_split (p : Person) (l : list Person) :
  In p l ->
  exists l1 q l2,
    l = l1 ++ q :: l2 /\ person_eqb q p = true /\ remove p l = l1 ++ l2.
Proof.
  induction l as [|x l IH]; simpl; [tauto|].
  intro Hin. destruct (person_eqb x p) eqn:E.
  - exists [], x, l. auto.
  - destruct Hin as [->|Hin]; [now rewrite person_eqb_refl in E|].
    destruct (IH Hin) as (l1 & q & l2 & -> & Hq & Hr).
    exists (x :: l1), q, l2. simpl. now rewrite Hr.
Qed.

Lemma remove_length (p : Person) (l : list Person) :
  In p l -> S (List.length (remove p l)) = List.length l.
Proof.
  intro Hin. destruct (remove_split p l Hin) as (l1 & q & l2 & -> & _ & ->).
  rewrite !length_app. simpl. lia.
Qed.

Lemma remove_length_le (p : Person) (l : list Person) :
  List.length (remove p l) <= List.length l.
Proof.
  induction l as [|x l IH]; simpl; [lia|].
  destruct (person_eqb x p); simpl; lia.
Qed.

Lemma has_role_respects_eq r : respects_eq (has_role r).
Proof.
  intros p q H. apply person_eqb_fields in H. destruct H as (_ & Hr & _).
  unfold has_role. now rewrite Hr.
Qed.

Lemma count_role_app f l1 l2 :
  count_role f (l1 ++ l2) = count_role f l1 + count_role f l2.
Proof. unfold count_role. now rewrite filter_app, length_app. Qed.

Lemma count_role_cons f x l :
  count_role f (x :: l) = (if f (role x) then 1 else 0) + count_role f l.
Proof. unfold count_role. simpl. now destruct (f (role x)). Qed.

(** Taking [m1] out and putting in [m2] of the same role tag changes
    neither the size nor any role count. *)
Lemma exchange_length (m1 m2 : Person) (l : list Person) :
  In m1 l -> List.length (remove m1 l ++ [m2]) = List.length l.
Proof.
  intro Hin. rewrite length_app. simpl.
  rewrite <- (remove_length m1 l Hin). lia.
Qed.

Lemma exchange_count_role f (m1 m2 : Person) (l : list Person) :
  In m1 l -> role m1 = role m2 ->
  count_role f (remove m1 l ++ [m2]) = count_role f l.
Proof.
  intros Hin Hrole.
  destruct (remove_split m1 l Hin) as (l1 & q & l2 & -> & Hq & ->).
  apply person_eqb_fields in Hq. destruct Hq as (_ & Hr & _).
  rewrite !count_role_app, !count_role_cons, Hr, Hrole.
  unfold count_role. simpl. lia.
Qed.

(** ** Scores and their sums *)

Lemma Qltb_lt (x y : Q) : Qltb x y = true -> (x < y)%Q.
Proof.
  unfold Qltb. intro H. apply negb_true_iff in H.
  apply Qnot_le_lt. intro Hle. apply Qle_bool_iff in Hle. congruence.
Qed.

Lemma Qltb_false_le (x y : Q) : Qltb x y = false -> (y <= x)%Q.
Proof.
  unfold Qltb. intro H. apply negb_false_iff in H. now apply Qle_bool_iff.
Qed.

Lemma Qlen_pos (l : list Person) : l <> [] -> (0 < Qlen l)%Q.
Proof.
  destruct l as [|x l]; [congruence|]. intros _.
  unfold Qlen, Qlt. simpl. lia.
Qed.

Lemma fold_score_acc (l : list Person) (a : Q) :
  (fold_left (fun acc m => acc + score m) l a
   == a + fold_left (fun acc m => acc + score m) l 0)%Q.
Proof.
  revert a. induction l as [|x l IH]; intro a; simpl.
  - ring.
  - rewrite (IH (a + score x)%Q), (IH (0 + score x)%Q). ring.
Qed.

Lemma sum_score_cons (x : Person) (l : list Person) :
  (sum_score (x :: l) == score x + sum_score l)%Q.
Proof.
  unfold sum_score. simpl. rewrite fold_score_acc. ring.
Qed.

Lemma sum_score_app (l1 l2 : list Person) :
  (sum_score (l1 ++ l2) == sum_score l1 + sum_score l2)%Q.
Proof.
  induction l1 as [|x l1 IH]; simpl.
  - unfold sum_score at 2. simpl. ring.
  - rewrite !sum_score_cons, IH. ring.
Qed.

Lemma sum_score_exchange (m1 m2 : Person) (l : list Person) :
  In m1 l ->
  (sum_score (remove m1 l ++ [m2]) == sum_score l - score m1 + score m2)%Q.
Proof.
  intro Hin.
  destruct (remove_split m1 l Hin) as (l1 & q & l2 & -> & Hq & ->).
  apply person_eqb_fields in Hq. destruct Hq as (_ & _ & _ & Hs).
  rewrite !sum_score_app, !sum_score_cons, Hs.
  unfold sum_score. simpl. ring.
Qed.

(** ** Subsequences *)

Lemma Subseq_refl l : Subseq l l.
Proof. induction l; constructor; assumption. Qed.

Lemma Subseq_nil_l l : Subseq [] l.
Proof. induction l; constructor; assumption. Qed.

Lemma Subseq_trans l1 l2 l3 : Subseq l1 l2 -> Subseq l2 l3 -> Subseq l1 l3.
Proof.
  intros H12 H23. revert l1 H12.
  induction H23 as [|x l2 l3 H IH|x l2 l3 H IH]; intros l1 H12.
  - assumption.
  - constructor. now apply IH.
  - inversion H12; subst.
    + constructor. now apply IH.
    + apply Subseq_keep. now apply IH.
Qed.

Lemma Subseq_filter g l1 l2 :
  Subseq l1 l2 -> Subseq (filter g l1) (filter g l2).
Proof.
  induction 1 as [|x l1 l2 H IH|x l1 l2 H IH]; simpl.
  - constructor.
  - destruct (g x); [now constructor|assumption].
  - destruct (g x); [now apply Subseq_keep|assumption].
Qed.

Lemma Subseq_filter_self g l : Subseq (filter g l) l.
Proof.
  induction l as [|x l IH]; simpl; [constructor|].
  destruct (g x); now constructor.
Qed.

Lemma Subseq_firstn n l : Subseq (firstn n l) l.
Proof.
  revert n. induction l as [|x l IH]; intros [|n]; simpl;
    try apply Subseq_nil_l.
  apply Subseq_keep, IH.
Qed.

Lemma Subseq_remove p l : Subseq (remove p l) l.
Proof.
  induction l as [|x l IH]; simpl; [constructor|].
  destruct (person_eqb x p).
  - constructor. apply Subseq_refl.
  - now apply Subseq_keep.
Qed.

Lemma Subseq_remove_all selected l : Subseq (remove_all selected l) l.
Proof.
  unfold remove_all. revert l.
  induction selected as [|p selected IH]; intro l; simpl.
  - apply Subseq_refl.
  - eapply Subseq_trans; [apply IH|apply Subseq_remove].
Qed.

Create HintDb subseq.
#[local] Hint Resolve Subseq_refl Subseq_nil_l Subseq_filter Subseq_filter_self
  Subseq_firstn Subseq_remove Subseq_remove_all : subseq.

Lemma Subseq_Forall (P : Person -> Prop) l1 l2 :
  Subseq l1 l2 -> Forall P l2 -> Forall P l1.
Proof.
  induction 1 as [|x l1 l2 H IH|x l1 l2 H IH]; intro HF.
  - constructor.
  - inversion HF; subst. now apply IH.
  - inversion HF; subst. constructor; [assumption|now apply IH].
Qed.

Lemma Subseq_descending l1 l2 :
  Subseq l1 l2 -> descending l2 -> descending l1.
Proof.
  unfold descending.
  induction 1 as [|x l1 l2 H IH|x l1 l2 H IH]; intro HS.
  - constructor.
  - inversion HS; subst. now apply IH.
  - inversion HS; subst. constructor; [now apply IH|].
    eapply Subseq_Forall; eassumption.
Qed.

(** The elements that satisfy [g] among the first [n] of a list are the
    first few of all that satisfy [g]. *)
Lemma filter_firstn_prefix (g : Person -> bool) n l :
  exists k, filter g (firstn n l) = firstn k (filter g l).
Proof.
  revert n. induction l as [|x l IH]; intros [|n]; simpl.
  - now exists 0.
  - now exists 0.
  - now exists 0.
  - destruct (IH n) as (k & Hk). destruct (g x).
    + exists (S k). simpl. now rewrite Hk.
    + now exists k.
Qed.

Lemma filter_filter_tied s r l :
  filter (score_is s) (filter (has_role r) l) = filter (tied s r) l.
Proof.
  induction l as [|x l IH]; simpl; [reflexivity|].
  unfold tied at 1. destruct (has_role r x); simpl; [|exact IH].
  destruct (score_is s x); now rewrite IH.
Qed.

Lemma selected_satisfy (f : Person -> bool) n l :
  Forall (fun p => f p = true) (firstn n (filter f l)).
Proof.
  apply (Subseq_Forall _ _ _ (Subseq_firstn n (filter f l))).
  apply Forall_forall. intros q Hq. now apply filter_In in Hq.
Qed.

Lemma filter_all (l : list Person) : filter (fun _ => true) l = l.
Proof. induction l as [|x l IH]; simpl; [reflexivity|now rewrite IH]. Qed.

(** ** The sort by score *)

Lemma insert_desc_perm p l : Permutation (insert_desc p l) (p :: l).
Proof.
  induction l as [|q l IH]; simpl; [reflexivity|].
  destruct (Qltb (score p) (score q)); [|reflexivity].
  rewrite IH. apply perm_swap.
Qed.

Lemma sort_by_score_perm l : Permutation (sort_by_score l) l.
Proof.
  induction l as [|p l IH]; simpl; [reflexivity|].
  rewrite insert_desc_perm. now apply perm_skip.
Qed.

Lemma insert_desc_descending p l :
  descending l -> descending (insert_desc p l).
Proof.
  unfold descending. induction l as [|q l IH]; intro H; simpl.
  - repeat constructor.
  - inversion H as [|? ? Hl Hq]; subst.
    destruct (Qltb (score p) (score q)) eqn:E.
    + constructor; [now apply IH|].
      apply (Permutation_Forall (x := p :: l)).
      * symmetry. apply insert_desc_perm.
      * constructor; [|assumption]. apply Qlt_le_weak. now apply Qltb_lt.
    + apply Qltb_false_le in E. constructor; [assumption|].
      constructor; [assumption|].
      eapply Forall_impl; [|exact Hq]. simpl. intros r Hr.
      now apply Qle_trans with (score q).
Qed.

Lemma sort_by_score_descending l : descending (sort_by_score l).
Proof.
  induction l as [|p l IH]; simpl.
  - constructor.
  - now apply insert_desc_descending.
Qed.

(** Insertion leaves the people of one score in the order they had. *)
Lemma insert_desc_stable (g : Person -> bool) (s : Q) p l :
  (forall q, g q = true -> (score q == s)%Q) ->
  filter g (insert_desc p l) = filter g (p :: l).
Proof.
  intro Hg. induction l as [|q l IH]; [reflexivity|].
  simpl insert_desc. destruct (Qltb (score p) (score q)) eqn:E; [|reflexivity].
  apply Qltb_lt in E.
  change (filter g (q :: insert_desc p l))
    with (if g q then q :: filter g (insert_desc p l)
          else filter g (insert_desc p l)).
  rewrite IH. simpl.
  destruct (g p) eqn:Ep, (g q) eqn:Eq; try reflexivity.
  exfalso. apply Hg in Ep, Eq. rewrite Ep, Eq in E.
  now apply Qlt_irrefl in E.
Qed.

Lemma sort_by_score_stable (g : Person -> bool) (s : Q) l :
  (forall q, g q = true -> (score q == s)%Q) ->
  filter g (sort_by_score l) = filter g l.
Proof.
  intro Hg. induction l as [|p l IH]; [reflexivity|].
  simpl sort_by_score. rewrite (insert_desc_stable g s) by assumption.
  simpl. now rewrite IH.
Qed.

Lemma score_is_eq s q : score_is s q = true -> (score q == s)%Q.
Proof. unfold score_is. apply Qeq_bool_iff. Qed.

Lemma tied_score s r q : tied s r q = true -> (score q == s)%Q.
Proof.
  unfold tied. intro H. apply andb_prop in H. now apply score_is_eq.
Qed.

(** People of equal score keep the order of the input. *)
Example sort_by_score_ties :
  map name
    (sort_by_score
       [Scenario.row "p1" "A" 80; Scenario.row "p2" "B" 90;
        Scenario.row "p3" "A" 80; Scenario.row "p4" "A" 90])
  = ["p2"; "p4"; "p1"; "p3"].
Proof. reflexivity. Qed.

(** [sort_by_score] is the stable descending sort. *)
Lemma sort_by_score_spec l : stable_descending_sort_of l (sort_by_score l).
Proof.
  split; [apply sort_by_score_perm|].
  split; [apply sort_by_score_descending|].
  intro s. apply (sort_by_score_stable _ s). apply score_is_eq.
Qed.

(** ** Calls that return *)

Lemma bind_ret {A B} (m : outcome A) (k : A -> outcome B) (b : B) :
  bind m k = Ret b -> exists a, m = Ret a /\ k a = Ret b.
Proof.
  destruct m; simpl; intro H; try discriminate. eauto.
Qed.

Lemma bind_ends {A B} (m : outcome A) (k : A -> outcome B) :
  ends_or_key_error m -> (forall a, ends_or_key_error (k a)) ->
  ends_or_key_error (bind m k).
Proof.
  destruct m; simpl; auto.
Qed.

Lemma lookup_fst_in {V : Type} (k : string) (d : list (string * V)) :
  In k (map fst d) -> lookup k d <> None.
Proof.
  induction d as [|[k' v] d IH]; simpl; [tauto|].
  intro H. destruct (String.eqb k' k) eqn:E; [discriminate|].
  destruct H as [->|H]; [now rewrite String.eqb_refl in E|now apply IH].
Qed.

Lemma lookup_some_in {V : Type} (k : string) (d : list (string * V)) (v : V) :
  lookup k d = Some v -> In (k, v) d.
Proof.
  induction d as [|[k' v'] d IH]; simpl; [discriminate|].
  destruct (String.eqb k' k) eqn:E.
  - apply String.eqb_eq in E. intro H. injection H as <-. left. now subst.
  - intro H. right. now apply IH.
Qed.

(** * Construction of the teams in [3.py] *)

(** ** What a pass does to the pool *)

Lemma remove_all_skip f x selected l :
  respects_eq f -> Forall (fun p => f p = true) selected -> f x = false ->
  remove_all selected (x :: l) = x :: remove_all selected l.
Proof.
  intros Hf Hsel Hx. revert l.
  induction Hsel as [|p selected Hp Hsel IH]; intro l; [reflexivity|].
  unfold remove_all in *. simpl.
  destruct (person_eqb x p) eqn:E.
  - apply Hf in E. congruence.
  - apply IH.
Qed.

(** Removing, one by one, the first [n] people that satisfy [f] takes
    out exactly those: every [remove] finds the element it was given. *)
Lemma remove_all_selected f n l :
  respects_eq f ->
  remove_all (firstn n (filter f l)) l = drop_first f n l.
Proof.
  intro Hf. revert n. induction l as [|x l IH]; intro n.
  - destruct n; reflexivity.
  - destruct n as [|n]; [reflexivity|].
    cbn [filter drop_first]. destruct (f x) eqn:Ex.
    + cbn [firstn]. unfold remove_all. cbn [fold_left remove].
      rewrite person_eqb_refl. apply IH.
    + rewrite (remove_all_skip f x _ l Hf (selected_satisfy f (S n) l) Ex).
      now rewrite IH.
Qed.

Lemma drop_first_perm f n l :
  Permutation l (firstn n (filter f l) ++ drop_first f n l).
Proof.
  revert n. induction l as [|x l IH]; intro n.
  - destruct n; reflexivity.
  - destruct n as [|n]; [reflexivity|]. simpl.
    destruct (f x); simpl.
    + apply perm_skip, IH.
    + etransitivity; [apply perm_skip, (IH (S n))|].
      apply Permutation_middle.
Qed.

(** The people selected for a role and the pool they leave make up the
    pool they were selected from. *)
Lemma selection_conserves r n pool :
  Permutation pool
    (firstn n (filter (has_role r) pool)
     ++ remove_all (firstn n (filter (has_role r) pool)) pool).
Proof.
  rewrite remove_all_selected by apply has_role_respects_eq.
  apply drop_first_perm.
Qed.

Lemma prefix_conserves n pool :
  Permutation pool (firstn n pool ++ remove_all (firstn n pool) pool).
Proof.
  rewrite <- (filter_all pool) at 2 3.
  rewrite remove_all_selected by (intros p q _; reflexivity).
  apply drop_first_perm.
Qed.

Lemma claim_conserves (team selected pool pool' : list Person) :
  Permutation pool (selected ++ pool') ->
  Permutation (team ++ pool) ((team ++ selected) ++ pool').
Proof.
  intro H. rewrite <- app_assoc. now apply Permutation_app_head.
Qed.

Lemma fill_minimums_conserves rs a :
  Permutation (Py3.team_members a ++ Py3.pool a)
    (Py3.team_members (Py3.fill_minimums rs a)
     ++ Py3.pool (Py3.fill_minimums rs a)).
Proof.
  revert a. induction rs as [|[r q] rs IH]; intro a; simpl; [reflexivity|].
  destruct (_ <? _); [reflexivity|].
  etransitivity; [|apply IH]. simpl.
  apply claim_conserves, selection_conserves.
Qed.

Lemma extend_to_max_conserves rs a :
  Permutation (Py3.team_members a ++ Py3.pool a)
    (Py3.team_members (Py3.extend_to_max rs a)
     ++ Py3.pool (Py3.extend_to_max rs a)).
Proof.
  revert a. induction rs as [|[r q] rs IH]; intro a; simpl; [reflexivity|].
  destruct (_ <? rmax q); [|apply (IH (Py3.mkAttempt _ _ _ _))].
  destruct (0 <? _); [|apply (IH (Py3.mkAttempt _ _ _ _))].
  etransitivity; [|apply IH]. simpl.
  apply claim_conserves, selection_conserves.
Qed.

Lemma fill_to_min_members_conserves type_config a :
  Permutation (Py3.team_members a ++ Py3.pool a)
    (Py3.team_members (Py3.fill_to_min_members type_config a)
     ++ Py3.pool (Py3.fill_to_min_members type_config a)).
Proof.
  unfold Py3.fill_to_min_members.
  destruct (_ <? min_members type_config); [|reflexivity].
  destruct (0 <? _); [|reflexivity]. simpl.
  apply claim_conserves, prefix_conserves.
Qed.

(** A pass that commits a team takes its members out of the pool and
    nobody else. *)
Lemma committing_pass_conserves team_types st st' :
  Py3.one_pass team_types st = Ret (Py3.Continue st') ->
  exists team,
    Py3.teams st' = Py3.teams st ++ [team]
    /\ Permutation (Py3.remaining_participants st)
         (members team ++ Py3.remaining_participants st').
Proof.
  unfold Py3.one_pass.
  destruct (List.length (map fst team_types) =? 0); [discriminate|].
  destruct (lookup _ team_types) as [type_config|]; [|discriminate].
  destruct (negb _); [discriminate|].
  destruct (min_members type_config <=? _); [|discriminate].
  intro H. injection H as <-. simpl. eexists. split; [reflexivity|]. simpl.
  etransitivity; [|apply fill_to_min_members_conserves].
  etransitivity; [|apply extend_to_max_conserves].
  apply (fill_minimums_conserves (roles type_config)
           (Py3.mkAttempt true [] (Py3.remaining_participants st)
                          (Py3.role_binding st))).
Qed.

(** A pass that ends the loop commits nothing.  The people it had
    claimed go back to the pool when the team stayed below
    [min_members]; they are in neither the teams nor the pool when a
    role minimum was missed. *)
Lemma last_pass_conserves_or_loses team_types st st' type_config :
  Py3.one_pass team_types st = Ret (Py3.Break st') ->
  current_config team_types st = Some type_config ->
  Py3.teams st' = Py3.teams st
  /\ exists lost,
       Permutation (Py3.remaining_participants st)
                   (lost ++ Py3.remaining_participants st')
       /\ lost
          = if Py3.formed (Py3.fill_minimums (roles type_config)
                                             (fresh_attempt st))
            then []
            else Py3.team_members (Py3.fill_minimums (roles type_config)
                                                     (fresh_attempt st)).
Proof.
  unfold Py3.one_pass, current_config.
  destruct (List.length (map fst team_types) =? 0); [discriminate|].
  intros H Hcfg. rewrite Hcfg in H. fold (fresh_attempt st) in H.
  pose proof (fill_minimums_conserves (roles type_config) (fresh_attempt st))
    as Hmin.
  destruct (Py3.formed (Py3.fill_minimums (roles type_config) (fresh_attempt st)));
    simpl in H.
  - destruct (min_members type_config <=? _); [discriminate|].
    injection H as <-. simpl. split; [reflexivity|].
    exists []. split; [|reflexivity]. simpl.
    etransitivity; [exact Hmin|].
    etransitivity; [apply extend_to_max_conserves|].
    etransitivity; [apply (fill_to_min_members_conserves type_config)|].
    apply Permutation_app_comm.
  - injection H as <-. simpl. split; [reflexivity|].
    eexists. split; [exact Hmin|reflexivity].
Qed.

(** ** Conservation (C1) *)

(** C1, on the code: a person claimed for a team whose later role
    cannot be filled is lost.  With one person of role A and a template
    that needs one A and one B, [form_teams] of [3.py] takes the A,
    fails on B and leaves the loop without returning the A to the pool:
    it returns no team and no leftover.  [form_teams] of
    [team-former.py] does the same. *)
Theorem form_teams_loses_claimed_person :
  (forall fuel,
     Py3.form_teams (S fuel) [Scenario.a90] Scenario.pair_template
     = Ret ([], []))
  /\ TeamFormer.form_teams [Scenario.a90] Scenario.pair_composition = ([], []).
Proof.
  split; [intro fuel|]; reflexivity.
Qed.

(** ** Team size at commitment (C3) *)

(** Every team [3.py] commits has at least [min_members] members. *)
Lemma committed_team_reaches_min_members team_types st st' type_config :
  Py3.one_pass team_types st = Ret (Py3.Continue st') ->
  current_config team_types st = Some type_config ->
  exists team,
    Py3.teams st' = Py3.teams st ++ [team]
    /\ min_members type_config <= List.length (members team).
Proof.
  unfold Py3.one_pass, current_config.
  destruct (List.length (map fst team_types) =? 0); [discriminate|].
  intros H Hcfg. rewrite Hcfg in H.
  destruct (negb _); [discriminate|].
  destruct (min_members type_config <=? _) eqn:E; [|discriminate].
  injection H as <-. simpl. eexists. split; [reflexivity|].
  simpl. now apply Nat.leb_le.
Qed.

(** C3, on the code: the extension towards the role maxima never looks
    at [max_members].  A template of exactly two members whose two
    roles allow two each commits a team of four, which [form_teams]
    returns. *)
Theorem committed_team_exceeds_max_members :
  forall fuel,
    Py3.allocate (S (S fuel)) Scenario.two_template
      (Py3.initial [Scenario.a90; Scenario.a80; Scenario.b70; Scenario.b60])
    = Ret (Py3.mkLocals
             [mkTeam "t" [Scenario.a90; Scenario.b70; Scenario.a80; Scenario.b60]]
             [] 1 (Some "A"))
    /\ Py3.form_teams (S (S fuel))
         [Scenario.a90; Scenario.a80; Scenario.b70; Scenario.b60]
         Scenario.two_template
       = Ret ([mkTeam "t" [Scenario.a90; Scenario.b70; Scenario.a80; Scenario.b60]],
              [])
    /\ option_map max_members (lookup "t" Scenario.two_template) = Some 2.
Proof.
  intro fuel. repeat split; reflexivity.
Qed.

(** ** The end of the construction loop *)

(** With a template that asks for nothing ([min_members] 0 and no
    role), every pass of the [while True] loop commits an empty team
    and none reaches a [break]. *)
Lemma allocate_never_returns max fuel st :
  Py3.allocate fuel [("t", mkTypeConfig 0 max [])] st = OutOfFuel.
Proof.
  revert st. induction fuel as [|fuel IH]; intro st; [reflexivity|].
  cbn [Py3.allocate]. unfold Py3.one_pass.
  cbn [map fst List.length Nat.eqb].
  rewrite Nat.mod_1_r. cbn. apply IH.
Qed.

(** When every template asks for at least one member, the loop ends
    within one pass more than there are people in the pool: every
    pass but the last takes at least one person out of the pool. *)
Lemma allocate_ends team_types :
  Forall (fun kv => 1 <= min_members (snd kv)) team_types ->
  forall fuel st,
    List.length (Py3.remaining_participants st) < fuel ->
    Py3.allocate fuel team_types st <> OutOfFuel.
Proof.
  intro Hmin. induction fuel as [|fuel IH]; intros st Hfuel; [lia|].
  cbn [Py3.allocate].
  destruct (Py3.one_pass team_types st) as [[st'|st']|e|] eqn:Epass;
    simpl; try discriminate.
  - apply IH.
    destruct (current_config team_types st) as [type_config|] eqn:Ecfg.
    + destruct (committed_team_reaches_min_members _ _ _ _ Epass Ecfg)
        as (team & Hteams & Hsize).
      destruct (committing_pass_conserves _ _ _ Epass)
        as (team' & Hteams' & Hperm).
      rewrite Hteams in Hteams'. apply app_inj_tail in Hteams'.
      destruct Hteams' as (_ & <-).
      apply Permutation_length in Hperm. rewrite length_app in Hperm.
      apply lookup_some_in in Ecfg.
      rewrite Forall_forall in Hmin. specialize (Hmin _ Ecfg). simpl in Hmin.
      lia.
    + exfalso. unfold Py3.one_pass in Epass. unfold current_config in Ecfg.
      destruct (List.length (map fst team_types) =? 0); [discriminate|].
      rewrite Ecfg in Epass. discriminate.
  - exfalso. unfold Py3.one_pass in Epass.
    destruct (List.length (map fst team_types) =? 0); [discriminate|].
    destruct (lookup _ team_types); [|discriminate].
    destruct (negb _); [discriminate|].
    destruct (_ <=? _); discriminate.
Qed.

(** * Redistribution of the leftover in [3.py] *)

(** ** Teams only grow *)

Lemma extends_refl t : extends t t.
Proof. split; [reflexivity|]. exists []. now rewrite app_nil_r. Qed.

Lemma extends_trans t1 t2 t3 : extends t1 t2 -> extends t2 t3 -> extends t1 t3.
Proof.
  intros (Ht1 & a1 & Hm1) (Ht2 & a2 & Hm2). split; [congruence|].
  exists (a1 ++ a2). now rewrite Hm2, Hm1, app_assoc.
Qed.

Lemma Forall2_extends_refl ts : Forall2 extends ts ts.
Proof. induction ts; constructor; [apply extends_refl|assumption]. Qed.

Lemma Forall2_extends_trans ts1 ts2 ts3 :
  Forall2 extends ts1 ts2 -> Forall2 extends ts2 ts3 -> Forall2 extends ts1 ts3.
Proof.
  intro H. revert ts3. induction H as [|t1 t2 ts1 ts2 Ht H IH]; intros ts3 H23;
    inversion H23; subst; constructor.
  - eapply extends_trans; eassumption.
  - now apply IH.
Qed.

Lemma append_member_extends i p ts : Forall2 extends ts (append_member i p ts).
Proof.
  revert i. induction ts as [|t ts IH]; intro i; simpl; [constructor|].
  destruct i.
  - constructor; [|apply Forall2_extends_refl]. split; simpl; eauto.
  - constructor; [apply extends_refl|apply IH].
Qed.

Lemma known_types_extends team_types ts ts' :
  Forall2 extends ts ts' -> known_types team_types ts ->
  known_types team_types ts'.
Proof.
  unfold known_types. induction 1 as [|t t' ts ts' (Ht & _) H IH]; intro Hk.
  - constructor.
  - inversion Hk; subst. constructor; [now rewrite Ht|now apply IH].
Qed.

(** The scan of the teams raises nothing once [role] is bound and
    every team carries the name of a template. *)
Lemma best_team_returns team_types role p ts :
  known_types team_types ts ->
  forall i best_team_idx best_score_diff,
  exists b,
    Py3.best_team team_types (Some role) p ts i best_team_idx best_score_diff
    = Ret b.
Proof.
  induction 1 as [|t ts Ht Hts IH]; intros i bi bd; simpl; [eauto|].
  destruct (lookup (type t) team_types) as [type_config|]; [|congruence].
  destruct (max_members type_config <=? _); [apply IH|].
  destruct (_ && _); [apply IH|].
  destruct (Py3.beats _ _); apply IH.
Qed.

Lemma distribute_returns team_types role :
  forall fuel i ts remaining,
    known_types team_types ts ->
    List.length remaining - i < fuel ->
    exists ts' leftover,
      Py3.distribute fuel team_types (Some role) i ts remaining
      = Ret (ts', leftover)
      /\ Forall2 extends ts ts'.
Proof.
  induction fuel as [|fuel IH]; intros i ts remaining Hk Hfuel; [lia|].
  simpl. destruct (nth_error remaining i) as [p|] eqn:Ep.
  - assert (Hi : i < List.length remaining)
      by (apply nth_error_Some; congruence).
    destruct (best_team_returns team_types role p ts Hk 0 None None) as (b & ->).
    simpl. destruct b as [k|].
    + destruct (IH (S i) (append_member k p ts) (remove p remaining))
        as (ts' & leftover & -> & Hext).
      * eapply known_types_extends; [apply append_member_extends|assumption].
      * pose proof (remove_length_le p remaining). lia.
      * exists ts', leftover. split; [reflexivity|].
        apply Forall2_extends_trans with (append_member k p ts);
          [apply append_member_extends|exact Hext].
    + apply IH; [assumption|lia].
  - exists ts, remaining. split; [reflexivity|apply Forall2_extends_refl].
Qed.

Lemma second_pass_returns team_types ts pool idx role :
  known_types team_types ts ->
  exists ts' leftover,
    Py3.second_pass team_types (Py3.mkLocals ts pool idx (Some role))
    = Ret (ts', leftover)
    /\ Forall2 extends ts ts'.
Proof.
  intro Hk. unfold Py3.second_pass.
  cbn [Py3.remaining_participants Py3.teams Py3.role_binding].
  destruct pool as [|x pool].
  - exists ts, []. split; [reflexivity|apply Forall2_extends_refl].
  - apply distribute_returns; [assumption|lia].
Qed.

(** The scan of the teams takes no fuel, and the loop over the
    leftover list never needs more passes than the list is long: the
    fuel [second_pass] gives is enough on every input. *)
Lemma best_team_ends team_types role_binding p ts :
  forall i best_team_idx best_score_diff,
    Py3.best_team team_types role_binding p ts i best_team_idx best_score_diff
    <> OutOfFuel.
Proof.
  induction ts as [|t ts IH]; intros i bi bd; simpl; [discriminate|].
  destruct (lookup (type t) team_types) as [type_config|]; [|discriminate].
  destruct (max_members type_config <=? _); [apply IH|].
  destruct role_binding as [role|]; [|discriminate].
  destruct (_ && _); [apply IH|].
  destruct (Py3.beats _ _); apply IH.
Qed.

Lemma distribute_ends team_types role_binding :
  forall fuel i ts remaining,
    List.length remaining - i < fuel ->
    Py3.distribute fuel team_types role_binding i ts remaining <> OutOfFuel.
Proof.
  induction fuel as [|fuel IH]; intros i ts remaining Hfuel; [lia|].
  simpl. destruct (nth_error remaining i) as [p|] eqn:Ep; [|discriminate].
  assert (Hi : i < List.length remaining)
    by (apply nth_error_Some; congruence).
  pose proof (best_team_ends team_types role_binding p ts 0 None None) as Hb.
  destruct (Py3.best_team team_types role_binding p ts 0 None None)
    as [[k|]|e|]; simpl; try discriminate; try congruence.
  - apply IH. pose proof (remove_length_le p remaining). lia.
  - apply IH. lia.
Qed.

Lemma second_pass_ends team_types st :
  Py3.second_pass team_types st <> OutOfFuel.
Proof.
  unfold Py3.second_pass.
  destruct (Py3.remaining_participants st); [discriminate|].
  apply distribute_ends. lia.
Qed.

(** ** Role maximum (C2) *)

(** C2, on the code: the redistribution reads the maximum of the role
    the construction loop looked at last (here B, maximum 2), not of
    the role of the person.  The leftover a80 joins the committed team,
    which then has two members of role A against a maximum of 1. *)
Theorem redistribution_exceeds_role_max :
  forall fuel,
    Py3.form_teams (S (S fuel)) [Scenario.a90; Scenario.a80; Scenario.b70]
                   Scenario.one_a_template
    = Ret ([mkTeam "t" [Scenario.b70; Scenario.a90; Scenario.a80]], [])
    /\ count_role (fun r => String.eqb (PyStr.lower r) "a")
         [Scenario.b70; Scenario.a90; Scenario.a80] = 2
    /\ exists type_config,
         lookup "t" Scenario.one_a_template = Some type_config
         /\ option_map rmax (lookup "A" (roles type_config)) = Some 1.
Proof.
  intro fuel. split; [reflexivity|]. split; [reflexivity|].
  eexists. split; reflexivity.
Qed.

(** ** Every leftover person is visited (C4) *)

(** C4, on the code: the loop removes from the list it iterates over,
    so the person after each placed person is never visited.  c50 is
    placed; d40 is skipped and returned as leftover, although the scan
    of the teams would have accepted d40 into the team.  The loop of
    [team-former1.py], which places every person it visits, skips d40
    in the same way. *)
Theorem redistribution_skips_leftover_person :
  forall fuel,
    Py3.form_teams (S (S fuel)) [Scenario.a90; Scenario.c50; Scenario.d40]
                   Scenario.roomy_template
    = Ret ([mkTeam "t" [Scenario.a90; Scenario.c50]], [Scenario.d40])
    /\ Py3.best_team Scenario.roomy_template (Some "A") Scenario.d40
         [mkTeam "t" [Scenario.a90; Scenario.c50]] 0 None None
       = Ret (Some 0)
    /\ TeamFormer1.form_teams [Scenario.a90; Scenario.c50; Scenario.d40]
                              [[("A", 1)]] None
       = Ret ([[Scenario.a90; Scenario.c50]], [Scenario.d40]).
Proof.
  intro fuel. repeat split; reflexivity.
Qed.

(** * [form_teams] of [3.py] as a whole *)

(** ** A role in short supply (C6) *)

Lemma shortage_fails rs a :
  Py3.formed a = true -> shortage rs a ->
  Py3.formed (Py3.fill_minimums rs a) = false
  /\ exists role, Py3.role_after (Py3.fill_minimums rs a) = Some role.
Proof.
  intros Hf (before & role & req & after & -> & Hok & Hlt).
  revert a Hf Hok Hlt.
  induction before as [|[r q] before IH]; intros a Hf Hok Hlt; simpl in *.
  - apply Nat.ltb_lt in Hlt. rewrite Hlt. simpl. eauto.
  - destruct (List.length (filter (has_role (PyStr.lower r)) (Py3.pool a))
              <? rmin q); [discriminate|].
    now apply IH.
Qed.

(** The loop entered in a reachable state does what [form_teams] does
    after the passes that led there. *)
Lemma reachable_allocate team_types participants st :
  reachable team_types participants st ->
  exists k, forall fuel,
    Py3.allocate (k + fuel) team_types (Py3.initial participants)
    = Py3.allocate fuel team_types st.
Proof.
  induction 1 as [|st st' Hr (k & IH) Hstep].
  - now exists 0.
  - exists (S k). intro fuel.
    replace (S k + fuel) with (k + S fuel) by lia.
    rewrite IH. simpl. now rewrite Hstep.
Qed.

Lemma one_pass_known_types team_types st st' :
  Py3.one_pass team_types st = Ret (Py3.Continue st') ->
  known_types team_types (Py3.teams st) ->
  known_types team_types (Py3.teams st').
Proof.
  unfold Py3.one_pass.
  destruct (List.length (map fst team_types) =? 0); [discriminate|].
  set (team_type := nth _ _ _).
  destruct (lookup team_type team_types) as [type_config|] eqn:El;
    [|discriminate].
  destruct (negb _); [discriminate|].
  destruct (min_members type_config <=? _); [|discriminate].
  intros H Hk. injection H as <-. simpl.
  apply Forall_app. split; [assumption|].
  constructor; [|constructor]. simpl. congruence.
Qed.

Lemma reachable_known_types team_types participants st :
  reachable team_types participants st ->
  known_types team_types (Py3.teams st).
Proof.
  induction 1 as [|st st' Hr IH Hstep].
  - constructor.
  - eapply one_pass_known_types; eassumption.
Qed.

(** C6: when a pass of the construction loop of [3.py] finds, for some
    role of the current template, fewer people in the pool than the
    minimum of that role, the loop ends there with exactly the teams
    committed before that pass: the team under construction is not
    kept and no later template is tried.  Nothing is raised, and
    [form_teams] returns those teams, each possibly with leftover
    people added at its end by the second pass, and a leftover list. *)
Theorem insufficient_supply_ends_allocation team_types participants st
    type_config :
  reachable team_types participants st ->
  current_config team_types st = Some type_config ->
  shortage (roles type_config) (fresh_attempt st) ->
  exists pool role k ts leftover,
    Py3.one_pass team_types st
    = Ret (Py3.Break (Py3.mkLocals (Py3.teams st) pool (Py3.team_idx st)
                                   (Some role)))
    /\ (forall fuel,
          Py3.form_teams (k + S fuel) participants team_types
          = Ret (ts, leftover))
    /\ Forall2 extends (Py3.teams st) ts.
Proof.
  intros Hreach Hcfg Hshort.
  destruct (shortage_fails (roles type_config) (fresh_attempt st) eq_refl Hshort)
    as (Hf & role & Hrole).
  assert (Hpass :
    Py3.one_pass team_types st
    = Ret (Py3.Break
             (Py3.mkLocals (Py3.teams st)
                (Py3.pool (Py3.fill_minimums (roles type_config)
                                             (fresh_attempt st)))
                (Py3.team_idx st) (Some role)))).
  { unfold Py3.one_pass. unfold current_config in Hcfg.
    destruct (List.length (map fst team_types) =? 0) eqn:E0.
    - apply Nat.eqb_eq in E0. apply length_zero_iff_nil in E0.
      destruct team_types; [discriminate Hcfg|discriminate E0].
    - rewrite Hcfg. fold (fresh_attempt st). now rewrite Hf, Hrole. }
  destruct (second_pass_returns team_types (Py3.teams st)
              (Py3.pool (Py3.fill_minimums (roles type_config)
                                           (fresh_attempt st)))
              (Py3.team_idx st) role
              (reachable_known_types _ _ _ Hreach))
    as (ts & leftover & Hsecond & Hext).
  destruct (reachable_allocate _ _ _ Hreach) as (k & Hk).
  eexists _, role, k, ts, leftover.
  split; [exact Hpass|]. split; [|exact Hext].
  intro fuel. unfold Py3.form_teams. rewrite Hk. simpl.
  rewrite Hpass. simpl. exact Hsecond.
Qed.

Lemma insufficient_supply_ends_allocation_witness :
  exists pool role k ts leftover,
    Py3.one_pass Scenario.pair_template (Py3.initial [Scenario.a90])
    = Ret (Py3.Break (Py3.mkLocals [] pool 0 (Some role)))
    /\ (forall fuel,
          Py3.form_teams (k + S fuel) [Scenario.a90] Scenario.pair_template
          = Ret (ts, leftover))
    /\ Forall2 extends [] ts.
Proof.
  apply (insufficient_supply_ends_allocation Scenario.pair_template
           [Scenario.a90] (Py3.initial [Scenario.a90])
           (mkTypeConfig 2 2 [("A", mkRoleReq 1 1); ("B", mkRoleReq 1 1)])).
  - apply reach_initial.
  - reflexivity.
  - exists [("A", mkRoleReq 1 1)], "B", (mkRoleReq 1 1), [].
    split; [reflexivity|]. split; [reflexivity|]. vm_compute. lia.
Defined.

(** C6, as the claim states it for [team-former.py], fails: there a
    composition that cannot be filled does not end the loop.  With
    nobody of role C in the pool the first composition gives no team,
    and the second composition is tried and gives one. *)
Lemma team_former_tries_next_composition :
  List.length (filter (has_role (PyStr.lower "C"))
                 [Scenario.a90; Scenario.b70]) < 1
  /\ fill_composition [("C", 1)] [] [Scenario.a90; Scenario.b70]
     = (false, [], [Scenario.a90; Scenario.b70])
  /\ TeamFormer.form_teams [Scenario.a90; Scenario.b70]
                           [[("C", 1)]; [("B", 1)]]
     = ([[Scenario.b70]], [Scenario.a90]).
Proof.
  split; [vm_compute; lia|]. split; reflexivity.
Qed.

(** * The balancer of [3.py] *)

(** ** What the scan returns *)

Lemma metrics_size (t : Team) (n : nat) :
  Py3.size (Py3.metrics_of t) = Some n -> n = List.length (members t).
Proof.
  unfold Py3.metrics_of. destruct (members t); simpl; congruence.
Qed.

Lemma metrics_size_nonempty (t : Team) :
  members t <> [] ->
  Py3.size (Py3.metrics_of t) = Some (List.length (members t)).
Proof.
  unfold Py3.metrics_of. destruct (members t); [congruence|reflexivity].
Qed.

Lemma scan_m2_sound mi mj m1 l2 m2 :
  Py3.scan_m2 mi mj m1 l2 = Ret (Some m2) ->
  In m2 l2
  /\ String.eqb (role m1) (role m2) = true
  /\ exists ni nj,
       Py3.size mi = Some ni /\ Py3.size mj = Some nj
       /\ Py3.improves mi mj ni nj m1 m2 = true.
Proof.
  induction l2 as [|x l2 IH]; simpl; [discriminate|].
  destruct (String.eqb (role m1) (role x)) eqn:Er.
  - destruct (Py3.size mi) as [ni|] eqn:Ei; [|discriminate].
    destruct (Py3.size mj) as [nj|] eqn:Ej; [|discriminate].
    destruct (Py3.improves mi mj ni nj m1 x) eqn:Ea.
    + intro H. injection H as <-. split; [now left|]. split; [assumption|].
      exists ni, nj. auto.
    + intro H. destruct (IH H) as (? & ? & ?). auto.
  - intro H. destruct (IH H) as (? & ? & ?). auto.
Qed.

Lemma scan_m1_sound mi mj l1 l2 m1 m2 :
  Py3.scan_m1 mi mj l1 l2 = Ret (Some (m1, m2)) ->
  In m1 l1 /\ Py3.scan_m2 mi mj m1 l2 = Ret (Some m2).
Proof.
  induction l1 as [|x l1 IH]; simpl; [discriminate|].
  intro H. apply bind_ret in H. destruct H as ([y|] & Hx & H).
  - injection H as <- <-. auto.
  - destruct (IH H). auto.
Qed.

Section Scan.

Variable team_types : list (string * TypeConfig).

Lemma scan_j_sound i ti j tjs sw :
  Py3.scan_j team_types i ti j tjs = Ret (Some sw) ->
  Py3.swap_i sw = i
  /\ exists k tj,
       Py3.swap_j sw = j + k /\ nth_error tjs k = Some tj
       /\ type ti = type tj
       /\ Py3.scan_m1 (Py3.metrics_of ti) (Py3.metrics_of tj)
            (members ti) (members tj)
          = Ret (Some (Py3.swap_m1 sw, Py3.swap_m2 sw)).
Proof.
  revert j. induction tjs as [|tj tjs IH]; intro j; simpl; [discriminate|].
  assert (Hnext :
    Py3.scan_j team_types i ti (S j) tjs = Ret (Some sw) ->
    Py3.swap_i sw = i
    /\ exists k tj0,
         Py3.swap_j sw = j + k /\ nth_error (tj :: tjs) k = Some tj0
         /\ type ti = type tj0
         /\ Py3.scan_m1 (Py3.metrics_of ti) (Py3.metrics_of tj0)
              (members ti) (members tj0)
            = Ret (Some (Py3.swap_m1 sw, Py3.swap_m2 sw))).
  { intro H. destruct (IH _ H) as (Hi & k & tj0 & Hj & Hn & Ht & Hs).
    split; [assumption|]. exists (S k), tj0. simpl.
    repeat split; try assumption. lia. }
  destruct (String.eqb (type ti) (type tj)) eqn:Et; simpl; [|exact Hnext].
  destruct (lookup (type ti) team_types); [|discriminate].
  intro H. apply bind_ret in H. destruct H as ([[m1 m2]|] & Hs & H).
  - injection H as <-. simpl. split; [reflexivity|].
    exists 0, tj. simpl. apply String.eqb_eq in Et.
    repeat split; try assumption. lia.
  - exact (Hnext H).
Qed.

Lemma scan_i_sound i tis sw :
  Py3.scan_i team_types i tis = Ret (Some sw) ->
  exists a k ti tj,
    Py3.swap_i sw = i + a /\ Py3.swap_j sw = i + a + S k
    /\ nth_error tis a = Some ti /\ nth_error tis (a + S k) = Some tj
    /\ type ti = type tj
    /\ Py3.scan_m1 (Py3.metrics_of ti) (Py3.metrics_of tj)
         (members ti) (members tj)
       = Ret (Some (Py3.swap_m1 sw, Py3.swap_m2 sw)).
Proof.
  revert i. induction tis as [|ti tis IH]; intro i; simpl; [discriminate|].
  intro H. apply bind_ret in H. destruct H as ([sw'|] & Hj & H).
  - injection H as ->.
    destruct (scan_j_sound _ _ _ _ _ Hj) as (Hi & k & tj & Hk & Hn & Ht & Hs).
    exists 0, k, ti, tj. simpl. repeat split; try assumption; lia.
  - destruct (IH _ H) as (a & k & ti' & tj & Hi & Hk & Ha & Hb & Ht & Hs).
    exists (S a), k, ti', tj. simpl. repeat split; try assumption; lia.
Qed.

(** Whatever [find_swap] returns has passed every test of the scan. *)
Lemma find_swap_accepted ts sw :
  Py3.find_swap team_types ts = Ret (Some sw) ->
  exists ti tj, accepted ts sw ti tj.
Proof.
  intro H. apply scan_i_sound in H.
  destruct H as (a & k & ti & tj & Hi & Hj & Ha & Hb & Ht & Hs).
  apply scan_m1_sound in Hs. destruct Hs as (Hin1 & Hs).
  apply scan_m2_sound in Hs.
  destruct Hs as (Hin2 & Hr & ni & nj & Hni & Hnj & Himp).
  apply metrics_size in Hni, Hnj. subst ni nj.
  exists ti, tj. unfold accepted. simpl in Hi, Hj.
  rewrite Hi, Hj. repeat split; try assumption; lia.
Qed.

Lemma scan_m2_none mi mj m1 l2 :
  Py3.scan_m2 mi mj m1 l2 = Ret None ->
  forall m2 ni nj,
    In m2 l2 -> String.eqb (role m1) (role m2) = true ->
    Py3.size mi = Some ni -> Py3.size mj = Some nj ->
    Py3.improves mi mj ni nj m1 m2 = false.
Proof.
  induction l2 as [|x l2 IH]; simpl; intros H m2 ni nj Hin Hr Hi Hj;
    [destruct Hin|].
  rewrite Hi, Hj in H.
  destruct Hin as [->|Hin].
  - rewrite Hr in H. destruct (Py3.improves mi mj ni nj m1 m2);
      [discriminate|reflexivity].
  - apply IH; try assumption.
    destruct (String.eqb (role m1) (role x)); [|assumption].
    destruct (Py3.improves mi mj ni nj m1 x); [discriminate|assumption].
Qed.

Lemma scan_m1_none mi mj l1 l2 :
  Py3.scan_m1 mi mj l1 l2 = Ret None ->
  forall m1, In m1 l1 -> Py3.scan_m2 mi mj m1 l2 = Ret None.
Proof.
  induction l1 as [|x l1 IH]; simpl; intros H m1 Hin; [destruct Hin|].
  apply bind_ret in H. destruct H as ([m2|] & Hx & H); [discriminate|].
  destruct Hin as [->|Hin]; [assumption|now apply IH].
Qed.

Lemma scan_j_none i ti j tjs :
  Py3.scan_j team_types i ti j tjs = Ret None ->
  forall k tj,
    nth_error tjs k = Some tj -> type ti = type tj ->
    Py3.scan_m1 (Py3.metrics_of ti) (Py3.metrics_of tj)
                (members ti) (members tj) = Ret None.
Proof.
  revert j. induction tjs as [|t tjs IH]; intros j H k tj Hk Ht;
    [destruct k; discriminate|].
  simpl in H. destruct k as [|k]; simpl in Hk.
  - injection Hk as ->. rewrite Ht, String.eqb_refl in H. simpl in H.
    destruct (lookup (type tj) team_types); [|discriminate].
    apply bind_ret in H. destruct H as ([[m1 m2]|] & Hs & H);
      [discriminate|]. assumption.
  - destruct (negb (String.eqb (type ti) (type t))); [now apply (IH _ H k)|].
    destruct (lookup (type ti) team_types); [|discriminate].
    apply bind_ret in H. destruct H as ([[m1 m2]|] & Hs & H);
      [discriminate|]. now apply (IH _ H k).
Qed.

Lemma scan_i_none i tis :
  Py3.scan_i team_types i tis = Ret None ->
  forall a k ti tj,
    nth_error tis a = Some ti -> nth_error tis (a + S k) = Some tj ->
    type ti = type tj ->
    Py3.scan_m1 (Py3.metrics_of ti) (Py3.metrics_of tj)
                (members ti) (members tj) = Ret None.
Proof.
  revert i. induction tis as [|t tis IH]; intros i H a k ti tj Ha Hb Ht;
    [destruct a; discriminate|].
  simpl in H. apply bind_ret in H. destruct H as ([sw|] & Hj & H);
    [discriminate|].
  destruct a as [|a]; simpl in Ha, Hb.
  - injection Ha as ->. now apply (scan_j_none _ _ _ _ Hj k).
  - now apply (IH _ H a k).
Qed.

(** A pass that finds nothing has looked at every candidate. *)
Lemma find_swap_none ts :
  Py3.find_swap team_types ts = Ret None -> no_improving_swap ts.
Proof.
  intros H sw ti tj (Hlt & Hi & Hj & Ht & Hin1 & Hin2 & Hr & Himp).
  assert (Hs := scan_i_none _ _ H (Py3.swap_i sw)
                  (Py3.swap_j sw - Py3.swap_i sw - 1) ti tj Hi).
  replace (Py3.swap_i sw + S (Py3.swap_j sw - Py3.swap_i sw - 1))
    with (Py3.swap_j sw) in Hs by lia.
  specialize (Hs Hj Ht).
  assert (Hs2 := scan_m1_none _ _ _ _ Hs _ Hin1).
  assert (Hn1 : members ti <> []) by (destruct (members ti); [destruct Hin1|congruence]).
  assert (Hn2 : members tj <> []) by (destruct (members tj); [destruct Hin2|congruence]).
  rewrite (scan_m2_none _ _ _ _ Hs2 _ _ _ Hin2 Hr
             (metrics_size_nonempty _ Hn1) (metrics_size_nonempty _ Hn2)) in Himp.
  discriminate.
Qed.

Lemma scan_m2_ends mi mj m1 l2 : ends_or_key_error (Py3.scan_m2 mi mj m1 l2).
Proof.
  induction l2 as [|x l2 IH]; simpl; [exact I|].
  destruct (String.eqb _ _); [|exact IH].
  destruct (Py3.size mi); [|reflexivity].
  destruct (Py3.size mj); [|reflexivity].
  destruct (Py3.improves _ _ _ _ _ _); [exact I|exact IH].
Qed.

Lemma scan_m1_ends mi mj l1 l2 : ends_or_key_error (Py3.scan_m1 mi mj l1 l2).
Proof.
  induction l1 as [|x l1 IH]; simpl; [exact I|].
  apply bind_ends; [apply scan_m2_ends|].
  intros [m2|]; [exact I|exact IH].
Qed.

Lemma scan_j_ends i ti j tjs :
  ends_or_key_error (Py3.scan_j team_types i ti j tjs).
Proof.
  revert j. induction tjs as [|tj tjs IH]; intro j; simpl; [exact I|].
  destruct (negb _); [apply IH|].
  destruct (lookup _ _); [|reflexivity].
  apply bind_ends; [apply scan_m1_ends|].
  intros [[m1 m2]|]; [exact I|apply IH].
Qed.

Lemma find_swap_ends ts :
  ends_or_key_error (Py3.find_swap team_types ts).
Proof.
  unfold Py3.find_swap. generalize 0.
  induction ts as [|t ts IH]; intro i; simpl; [exact I|].
  apply bind_ends; [apply scan_j_ends|].
  intros [sw|]; [exact I|apply IH].
Qed.

(** When every team carries the name of a template, nothing is raised. *)
Lemma scan_m2_returns mi mj m1 l2 :
  Py3.size mi <> None -> (l2 = [] \/ Py3.size mj <> None) ->
  exists r, Py3.scan_m2 mi mj m1 l2 = Ret r.
Proof.
  intros Hi. induction l2 as [|x l2 IH]; intro Hj; simpl; [eauto|].
  destruct Hj as [Hj|Hj]; [discriminate|].
  destruct (String.eqb _ _); [|now apply IH; right].
  destruct (Py3.size mi); [|congruence].
  destruct (Py3.size mj); [|congruence].
  destruct (Py3.improves _ _ _ _ _ _); [eauto|]. apply IH. right. discriminate.
Qed.

Lemma scan_m1_returns ti tj l1 :
  (l1 = [] \/ members ti <> []) ->
  exists r,
    Py3.scan_m1 (Py3.metrics_of ti) (Py3.metrics_of tj) l1 (members tj) = Ret r.
Proof.
  induction l1 as [|x l1 IH]; intro H; simpl; [eauto|].
  destruct H as [H|H]; [discriminate|].
  destruct (scan_m2_returns (Py3.metrics_of ti) (Py3.metrics_of tj) x (members tj))
    as (r & ->).
  - now rewrite metrics_size_nonempty.
  - destruct (members tj) eqn:E; [now left|right].
    rewrite metrics_size_nonempty; congruence.
  - simpl. destruct r; [eauto|]. apply IH. now right.
Qed.

Lemma scan_j_returns i ti j tjs :
  lookup (type ti) team_types <> None ->
  exists r, Py3.scan_j team_types i ti j tjs = Ret r.
Proof.
  intro Hl. revert j. induction tjs as [|tj tjs IH]; intro j; simpl; [eauto|].
  destruct (negb _); [apply IH|].
  destruct (lookup (type ti) team_types); [|congruence].
  destruct (scan_m1_returns ti tj (members ti)) as (r & ->).
  - destruct (members ti); [now left|right; discriminate].
  - simpl. destruct r as [[m1 m2]|]; [eauto|apply IH].
Qed.

Lemma find_swap_returns ts :
  known_types team_types ts ->
  exists r, Py3.find_swap team_types ts = Ret r.
Proof.
  unfold Py3.find_swap. generalize 0.
  induction ts as [|t ts IH]; intros i H; simpl; [eauto|].
  inversion H as [|? ? Ht Hts]; subst.
  destruct (scan_j_returns i t (S i) ts Ht) as (r & ->).
  simpl. destruct r; [eauto|]. now apply IH.
Qed.

End Scan.

(** ** The effect of a swap on the list of teams *)

Lemma append_member_nth i p ts k :
  nth_error (append_member i p ts) k
  = if k =? i
    then option_map (fun t => mkTeam (type t) (members t ++ [p]))
                    (nth_error ts k)
    else nth_error ts k.
Proof.
  revert i k. induction ts as [|t ts IH]; intros i k; simpl.
  - destruct (k =? i); destruct k; reflexivity.
  - destruct i, k; simpl; try reflexivity. apply IH.
Qed.

Lemma remove_member_nth i p ts k :
  nth_error (remove_member i p ts) k
  = if k =? i
    then option_map (fun t => mkTeam (type t) (remove p (members t)))
                    (nth_error ts k)
    else nth_error ts k.
Proof.
  revert i k. induction ts as [|t ts IH]; intros i k; simpl.
  - destruct (k =? i); destruct k; reflexivity.
  - destruct i, k; simpl; try reflexivity. apply IH.
Qed.

Lemma append_member_length i p ts :
  List.length (append_member i p ts) = List.length ts.
Proof.
  revert i. induction ts as [|t ts IH]; intro i; simpl; [reflexivity|].
  destruct i; simpl; [reflexivity|]. now rewrite IH.
Qed.

Lemma remove_member_length i p ts :
  List.length (remove_member i p ts) = List.length ts.
Proof.
  revert i. induction ts as [|t ts IH]; intro i; simpl; [reflexivity|].
  destruct i; simpl; [reflexivity|]. now rewrite IH.
Qed.

Lemma perform_swap_length sw ts :
  List.length (Py3.perform_swap sw ts) = List.length ts.
Proof.
  unfold Py3.perform_swap.
  now rewrite !append_member_length, !remove_member_length.
Qed.

Lemma perform_swap_nth sw ts k :
  Py3.swap_i sw <> Py3.swap_j sw ->
  nth_error (Py3.perform_swap sw ts) k
  = if k =? Py3.swap_i sw then
      option_map (fun t => mkTeam (type t)
                             (remove (Py3.swap_m1 sw) (members t)
                              ++ [Py3.swap_m2 sw]))
                 (nth_error ts k)
    else if k =? Py3.swap_j sw then
      option_map (fun t => mkTeam (type t)
                             (remove (Py3.swap_m2 sw) (members t)
                              ++ [Py3.swap_m1 sw]))
                 (nth_error ts k)
    else nth_error ts k.
Proof.
  intro Hne. unfold Py3.perform_swap.
  rewrite !append_member_nth, !remove_member_nth.
  destruct (k =? Py3.swap_i sw) eqn:Ei, (k =? Py3.swap_j sw) eqn:Ej;
    try reflexivity.
  - apply Nat.eqb_eq in Ei, Ej. congruence.
  - now destruct (nth_error ts k).
  - now destruct (nth_error ts k).
Qed.

(** The two teams of an accepted swap after the swap, and the others. *)
Lemma accepted_swap_teams ts sw ti tj :
  accepted ts sw ti tj ->
  nth_error (Py3.perform_swap sw ts) (Py3.swap_i sw)
  = Some (exchanged ti (Py3.swap_m1 sw) (Py3.swap_m2 sw))
  /\ nth_error (Py3.perform_swap sw ts) (Py3.swap_j sw)
     = Some (exchanged tj (Py3.swap_m2 sw) (Py3.swap_m1 sw))
  /\ (forall k, k <> Py3.swap_i sw -> k <> Py3.swap_j sw ->
        nth_error (Py3.perform_swap sw ts) k = nth_error ts k).
Proof.
  intros (Hlt & Hi & Hj & _).
  assert (Hne : Py3.swap_i sw <> Py3.swap_j sw) by lia.
  split; [|split].
  - rewrite perform_swap_nth by assumption. now rewrite Nat.eqb_refl, Hi.
  - rewrite perform_swap_nth by assumption.
    replace (Py3.swap_j sw =? Py3.swap_i sw) with false
      by (symmetry; apply Nat.eqb_neq; lia).
    now rewrite Nat.eqb_refl, Hj.
  - intros k Hki Hkj. rewrite perform_swap_nth by assumption.
    apply Nat.eqb_neq in Hki, Hkj. now rewrite Hki, Hkj.
Qed.

Lemma perform_swap_extends_types team_types sw ts :
  known_types team_types ts ->
  known_types team_types (Py3.perform_swap sw ts).
Proof.
  unfold known_types. rewrite !Forall_forall.
  intros Hk t' Hin. apply In_nth_error in Hin. destruct Hin as (k & Hk').
  unfold Py3.perform_swap in Hk'.
  rewrite !append_member_nth, !remove_member_nth in Hk'.
  destruct (nth_error ts k) as [t|] eqn:Et.
  - assert (Ht : lookup (type t) team_types <> None)
      by (apply Hk; eapply nth_error_In; eassumption).
    destruct (k =? Py3.swap_j sw), (k =? Py3.swap_i sw);
      simpl in Hk'; injection Hk' as <-; exact Ht.
  - destruct (k =? Py3.swap_j sw), (k =? Py3.swap_i sw); discriminate.
Qed.

(** ** Swap neutrality (C7) *)

(** C7: a swap accepted by the balancer of [3.py] takes one member
    [m1] out of team [i] and one member [m2] with the same role tag out
    of a later team [j], and appends each to the other team.  The list
    of teams keeps its length, every other team is untouched, and in
    every team the type, the number of members and the number of
    members per role, counted on the tag as written or on any function
    of it such as its lower-case form, are what they were. *)
Theorem swap_neutrality team_types ts sw :
  Py3.find_swap team_types ts = Ret (Some sw) ->
  exists ti tj,
    Py3.swap_i sw < Py3.swap_j sw
    /\ nth_error ts (Py3.swap_i sw) = Some ti
    /\ nth_error ts (Py3.swap_j sw) = Some tj
    /\ In (Py3.swap_m1 sw) (members ti)
    /\ In (Py3.swap_m2 sw) (members tj)
    /\ role (Py3.swap_m1 sw) = role (Py3.swap_m2 sw)
    /\ nth_error (Py3.perform_swap sw ts) (Py3.swap_i sw)
       = Some (exchanged ti (Py3.swap_m1 sw) (Py3.swap_m2 sw))
    /\ nth_error (Py3.perform_swap sw ts) (Py3.swap_j sw)
       = Some (exchanged tj (Py3.swap_m2 sw) (Py3.swap_m1 sw))
    /\ (forall k, k <> Py3.swap_i sw -> k <> Py3.swap_j sw ->
          nth_error (Py3.perform_swap sw ts) k = nth_error ts k)
    /\ List.length (Py3.perform_swap sw ts) = List.length ts
    /\ (forall k t t',
          nth_error ts k = Some t ->
          nth_error (Py3.perform_swap sw ts) k = Some t' ->
          type t' = type t
          /\ List.length (members t') = List.length (members t)
          /\ forall f, count_role f (members t') = count_role f (members t)).
Proof.
  intro H. destruct (find_swap_accepted _ _ _ H) as (ti & tj & Hacc).
  destruct (accepted_swap_teams _ _ _ _ Hacc) as (Hi' & Hj' & Hother).
  destruct Hacc as (Hlt & Hi & Hj & _ & Hin1 & Hin2 & Hr & _).
  apply String.eqb_eq in Hr.
  exists ti, tj.
  do 6 (split; [assumption|]).
  do 3 (split; [assumption|]).
  split; [apply perform_swap_length|].
  intros k t t' Hk Hk'.
  destruct (Nat.eq_dec k (Py3.swap_i sw)) as [->|Hki];
    [|destruct (Nat.eq_dec k (Py3.swap_j sw)) as [->|Hkj]].
  - rewrite Hi in Hk. rewrite Hi' in Hk'.
    injection Hk as <-. injection Hk' as <-. simpl.
    split; [reflexivity|]. split; [now apply exchange_length|].
    intro f. now apply exchange_count_role.
  - rewrite Hj in Hk. rewrite Hj' in Hk'.
    injection Hk as <-. injection Hk' as <-. simpl.
    split; [reflexivity|]. split; [now apply exchange_length|].
    intro f. apply exchange_count_role; [assumption|now symmetry].
  - rewrite (Hother k Hki Hkj), Hk in Hk'. injection Hk' as <-.
    repeat split.
Qed.

Lemma swap_neutrality_witness :
  Py3.find_swap Scenario.r_template Scenario.three_teams
  = Ret (Some Scenario.first_swap)
  /\ List.length (Py3.perform_swap Scenario.first_swap Scenario.three_teams)
     = List.length Scenario.three_teams.
Proof.
  split; [reflexivity|].
  destruct (swap_neutrality Scenario.r_template Scenario.three_teams
              Scenario.first_swap eq_refl)
    as (ti & tj & _ & _ & _ & _ & _ & _ & _ & _ & _ & Hlen & _).
  exact Hlen.
Defined.

(** ** Case of the role tag (C10) *)

(** C10: the balancer of [3.py] never swaps two members whose role
    tags are different strings, whatever their lower-case forms are. *)
Theorem balancer_role_match_is_case_sensitive team_types ts sw :
  String.eqb (role (Py3.swap_m1 sw)) (role (Py3.swap_m2 sw)) = false ->
  Py3.find_swap team_types ts <> Ret (Some sw).
Proof.
  intros Hne H. destruct (find_swap_accepted _ _ _ H) as (ti & tj & Hacc).
  destruct Hacc as (_ & _ & _ & _ & _ & _ & Hr & _). congruence.
Qed.

Lemma balancer_role_match_is_case_sensitive_witness :
  PyStr.lower (role Scenario.t0) = PyStr.lower (role Scenario.t9)
  /\ Py3.find_swap Scenario.r_template Scenario.tester_teams
     <> Ret (Some (Py3.mkSwap 0 1 Scenario.t0 Scenario.t9)).
Proof.
  split; [reflexivity|].
  apply (balancer_role_match_is_case_sensitive Scenario.r_template
           Scenario.tester_teams (Py3.mkSwap 0 1 Scenario.t0 Scenario.t9)).
  reflexivity.
Defined.

Lemma former1_scan_m2_sound ti tj m1 l2 m2 :
  TeamFormer1.scan_m2 ti tj m1 l2 = Some m2 -> role m1 = role m2.
Proof.
  induction l2 as [|x l2 IH]; simpl; [discriminate|].
  destruct (String.eqb (role m1) (role x)) eqn:Er; simpl; [|exact IH].
  destruct (TeamFormer1.improves ti tj m1 x); [|exact IH].
  intro H. injection H as <-. now apply String.eqb_eq.
Qed.

Lemma former1_scan_m1_sound ti tj l1 m1 m2 :
  TeamFormer1.scan_m1 ti tj l1 = Some (m1, m2) -> role m1 = role m2.
Proof.
  induction l1 as [|x l1 IH]; simpl; [discriminate|].
  destruct (TeamFormer1.scan_m2 ti tj x tj) as [y|] eqn:E; [|exact IH].
  intro H. injection H as <- <-. eapply former1_scan_m2_sound; eassumption.
Qed.

Lemma former1_scan_j_sound i ti j tjs a b m1 m2 :
  TeamFormer1.scan_j i ti j tjs = Some (a, b, m1, m2) -> role m1 = role m2.
Proof.
  revert j. induction tjs as [|tj tjs IH]; intro j; simpl; [discriminate|].
  destruct ti as [|x ti]; [apply IH|].
  destruct tj as [|y tj]; [apply IH|].
  destruct (TeamFormer1.scan_m1 (x :: ti) (y :: tj) (x :: ti))
    as [[n1 n2]|] eqn:E; [|apply IH].
  intro H. injection H as _ _ <- <-. eapply former1_scan_m1_sound; eassumption.
Qed.

(** The balancer of [team-former1.py] compares the role tags as
    written, too. *)
Lemma former1_balancer_role_match_is_case_sensitive ts i j m1 m2 :
  TeamFormer1.find_swap ts = Some (i, j, m1, m2) -> role m1 = role m2.
Proof.
  unfold TeamFormer1.find_swap. generalize 0.
  induction ts as [|t ts IH]; intro k; simpl; [discriminate|].
  destruct (TeamFormer1.scan_j k t (S k) ts) as [[[[a b] n1] n2]|] eqn:E;
    [|apply IH].
  intro H. injection H as _ _ <- <-. eapply former1_scan_j_sound; eassumption.
Qed.

(** ** The imbalance of all the pairs after an accepted swap (C5) *)


(** ** The passes of the loop (C9) *)

Lemma replay_snoc log sw ts :
  replay (log ++ [sw]) ts = Py3.perform_swap sw (replay log ts).
Proof. unfold replay. now rewrite fold_left_app. Qed.

(** The loop from any point: [budget] passes at most, one swap per
    pass but the last, which finds none unless the budget ran out. *)
Lemma balance_loop_spec team_types ts :
  forall budget r,
    final_teams_ok ts r ->
    match Py3.balance_loop budget team_types r with
    | Ret r' =>
        final_teams_ok ts r'
        /\ ((Py3.iterations r' = Py3.iterations r + budget
             /\ List.length (Py3.swaps r') = List.length (Py3.swaps r) + budget)
            \/ (exists n, n < budget
                /\ Py3.iterations r' = S (Py3.iterations r + n)
                /\ List.length (Py3.swaps r') = List.length (Py3.swaps r) + n
                /\ Py3.find_swap team_types (Py3.final_teams r') = Ret None))
    | Raise e => e = KeyError
    | OutOfFuel => False
    end.
Proof.
  induction budget as [|budget IH]; intros r Hr; simpl.
  - split; [assumption|]. left. lia.
  - pose proof (find_swap_ends team_types (Py3.final_teams r)) as He.
    destruct (Py3.find_swap team_types (Py3.final_teams r)) as [[sw|]|e|] eqn:Ef;
      simpl in *; try assumption.
    + set (r1 := Py3.mkRun _ _ _).
      assert (Hr1 : final_teams_ok ts r1).
      { unfold final_teams_ok, r1. simpl. rewrite replay_snoc.
        now rewrite <- Hr. }
      specialize (IH r1 Hr1).
      destruct (Py3.balance_loop budget team_types r1) as [r'| |]; try assumption.
      destruct IH as (Hok & [[Hi Hs]|(n & Hn & Hi & Hs & Hf)]);
        (split; [assumption|]); unfold r1 in *; simpl in *;
        rewrite length_app in Hs; simpl in Hs.
      * left. lia.
      * right. exists (S n). repeat split; try assumption; lia.
    + split; [assumption|]. right. exists 0. simpl.
      repeat split; try assumption; lia.
Qed.

(** C9: [balance_teams] of [3.py] ends on every input.  It makes at
    most 100 passes ([iterations]) and at most one swap per pass; the
    teams returned are the given teams after the swaps of the log.
    Either all 100 passes swapped, or every pass swapped except the
    last, which found no pair of same-type teams with a same-role pair
    of members whose exchange strictly lowers the imbalance of the
    pair.  The only exception the loop can raise is the [KeyError] of
    [team_types[type_i]]. *)
Theorem balancer_ends_within_cap ts team_types :
  match Py3.balance_run ts team_types with
  | Ret r =>
      Py3.balance_teams ts team_types = Ret (Py3.final_teams r)
      /\ Py3.final_teams r = replay (Py3.swaps r) ts
      /\ Py3.iterations r <= 100
      /\ List.length (Py3.swaps r) <= Py3.iterations r
      /\ ((Py3.iterations r = 100 /\ List.length (Py3.swaps r) = 100)
          \/ (Py3.iterations r = S (List.length (Py3.swaps r))
              /\ Py3.find_swap team_types (Py3.final_teams r) = Ret None
              /\ no_improving_swap (Py3.final_teams r)))
  | Raise e => Py3.balance_teams ts team_types = Raise KeyError
  | OutOfFuel => False
  end.
Proof.
  unfold Py3.balance_teams, Py3.balance_run.
  pose proof (balance_loop_spec team_types ts 100 (Py3.mkRun ts 0 []) eq_refl)
    as H.
  destruct (Py3.balance_loop 100 team_types (Py3.mkRun ts 0 [])) as [r|e|];
    [|now subst e|assumption].
  simpl in H. destruct H as (Hok & [[Hi Hs]|(n & Hn & Hi & Hs & Hf)]).
  - split; [reflexivity|]. split; [assumption|]. split; [lia|].
    split; [lia|]. left. lia.
  - split; [reflexivity|]. split; [assumption|]. split; [lia|].
    split; [lia|]. right.
    split; [lia|]. split; [assumption|].
    eapply find_swap_none; eassumption.
Qed.

Lemma balance_loop_returns team_types :
  forall budget r,
    known_types team_types (Py3.final_teams r) ->
    exists r', Py3.balance_loop budget team_types r = Ret r'.
Proof.
  induction budget as [|budget IH]; intros r Hk; simpl; [eauto|].
  destruct (find_swap_returns team_types (Py3.final_teams r) Hk) as (f & ->).
  simpl. destruct f as [sw|]; [|eauto].
  apply IH. simpl. now apply perform_swap_extends_types.
Qed.

(** [balance_teams] of [3.py] returns on the teams [form_teams] built
    from the same templates. *)
Lemma balance_teams_returns team_types ts :
  known_types team_types ts ->
  exists ts', Py3.balance_teams ts team_types = Ret ts'.
Proof.
  intro Hk. unfold Py3.balance_teams, Py3.balance_run.
  destruct (balance_loop_returns team_types 100 (Py3.mkRun ts 0 []) Hk)
    as (r & ->).
  simpl. eauto.
Qed.

(** * More of [form_teams] of [3.py] *)

(** ** What the construction loop can raise *)

Lemma current_key_found (team_types : list (string * TypeConfig)) idx :
  team_types <> [] ->
  lookup (nth (idx mod List.length (map fst team_types)) (map fst team_types) "")
         team_types <> None.
Proof.
  intro Hne. apply lookup_fst_in. apply nth_In.
  apply Nat.mod_upper_bound. rewrite length_map.
  destruct team_types; [congruence|discriminate].
Qed.

Lemma one_pass_raises team_types st e :
  Py3.one_pass team_types st = Raise e ->
  team_types = [] /\ e = ZeroDivisionError.
Proof.
  unfold Py3.one_pass.
  destruct (List.length (map fst team_types) =? 0) eqn:E0.
  - apply Nat.eqb_eq in E0. rewrite length_map in E0.
    apply length_zero_iff_nil in E0. intro H. injection H as <-. auto.
  - assert (Hne : team_types <> [])
      by (intros ->; discriminate E0).
    pose proof (current_key_found team_types (Py3.team_idx st) Hne) as Hk.
    destruct (lookup _ team_types); [|congruence].
    destruct (negb _); [discriminate|].
    destruct (_ <=? _); discriminate.
Qed.

Lemma allocate_raises team_types fuel st e :
  Py3.allocate fuel team_types st = Raise e ->
  team_types = [] /\ e = ZeroDivisionError.
Proof.
  revert st. induction fuel as [|fuel IH]; intro st; simpl; [discriminate|].
  destruct (Py3.one_pass team_types st) as [[st'|st']|e'|] eqn:Ep; simpl;
    try discriminate.
  - apply IH.
  - intro H. injection H as <-. eapply one_pass_raises; eassumption.
Qed.

Lemma best_team_raises team_types role_binding p ts e :
  forall i best_team_idx best_score_diff,
    Py3.best_team team_types role_binding p ts i best_team_idx best_score_diff
    = Raise e ->
    (e = KeyError /\ ~ known_types team_types ts)
    \/ (e = NameError /\ role_binding = None).
Proof.
  induction ts as [|t ts IH]; intros i bi bd; simpl; [discriminate|].
  assert (Hrest : forall i' bi' bd',
    Py3.best_team team_types role_binding p ts i' bi' bd' = Raise e ->
    (e = KeyError /\ ~ known_types team_types (t :: ts))
    \/ (e = NameError /\ role_binding = None)).
  { intros i' bi' bd' H. destruct (IH _ _ _ H) as [[-> Hk]|Hn]; [left|now right].
    split; [reflexivity|]. intro Hk'. apply Hk. now inversion Hk'. }
  destruct (lookup (type t) team_types) as [type_config|] eqn:El.
  - destruct (max_members type_config <=? _); [apply Hrest|].
    destruct role_binding as [role|].
    + destruct (_ && _); [apply Hrest|].
      destruct (Py3.beats _ _); apply Hrest.
    + intro H. injection H as <-. now right.
  - intro H. injection H as <-. left. split; [reflexivity|].
    intro Hk. inversion Hk; subst. congruence.
Qed.

Lemma allocate_known_types team_types fuel st st' :
  Py3.allocate fuel team_types st = Ret st' ->
  known_types team_types (Py3.teams st) ->
  known_types team_types (Py3.teams st').
Proof.
  revert st. induction fuel as [|fuel IH]; intro st; simpl; [discriminate|].
  destruct (Py3.one_pass team_types st) as [[st1|st1]|e'|] eqn:Ep; simpl;
    try discriminate.
  - intros H Hk. apply (IH _ H). eapply one_pass_known_types; eassumption.
  - intros H Hk. injection H as <-.
    unfold Py3.one_pass in Ep.
    destruct (List.length (map fst team_types) =? 0); [discriminate|].
    destruct (lookup _ team_types) as [type_config|]; [|discriminate].
    destruct (negb _); [now injection Ep as <-|].
    destruct (_ <=? _); [discriminate|]. now injection Ep as <-.
Qed.

Lemma distribute_raises team_types role_binding e :
  forall fuel i ts remaining,
    Py3.distribute fuel team_types role_binding i ts remaining = Raise e ->
    known_types team_types ts ->
    e = NameError /\ role_binding = None.
Proof.
  induction fuel as [|fuel IH]; intros i ts remaining; simpl; [discriminate|].
  destruct (nth_error remaining i) as [p|]; [|discriminate].
  destruct (Py3.best_team team_types role_binding p ts 0 None None)
    as [[k|]|e'|] eqn:Eb; simpl; try discriminate.
  - intros H Hk. apply (IH _ _ _ H).
    eapply known_types_extends; [apply append_member_extends|assumption].
  - apply IH.
  - intros H Hk. injection H as <-.
    destruct (best_team_raises _ _ _ _ _ _ _ _ Eb) as [[_ Hn]|Hn];
      [contradiction|assumption].
Qed.

(** Whatever [form_teams] raises: the division by zero of an empty
    [team_types], or the unbound [role] in the second pass. *)
Lemma form_teams_raises fuel participants team_types e :
  Py3.form_teams fuel participants team_types = Raise e ->
  (team_types = [] /\ e = ZeroDivisionError)
  \/ (e = NameError
      /\ exists st,
           Py3.allocate fuel team_types (Py3.initial participants) = Ret st
           /\ Py3.role_binding st = None).
Proof.
  unfold Py3.form_teams.
  destruct (Py3.allocate fuel team_types (Py3.initial participants))
    as [st|e'|] eqn:Ea; simpl; [| |discriminate].
  - intro H. right. unfold Py3.second_pass in H.
    destruct (Py3.remaining_participants st); [discriminate|].
    apply distribute_raises in H.
    + destruct H as (-> & Hn). eauto.
    + apply (allocate_known_types _ _ _ _ Ea). constructor.
  - intro H. injection H as <-. left. eapply allocate_raises; eassumption.
Qed.

(** X1: [form_teams] of [3.py] raises [ZeroDivisionError] exactly when
    [team_types] is empty (and the loop is entered); the only other
    exception it can raise is the [NameError] of the variable [role].
    No lookup of a template by the type of a team ever fails. *)
Theorem form_teams_exceptions fuel participants team_types :
  (Py3.form_teams fuel participants team_types = Raise ZeroDivisionError
   <-> team_types = [] /\ fuel <> 0)
  /\ (forall e,
        Py3.form_teams fuel participants team_types = Raise e ->
        e = ZeroDivisionError \/ e = NameError).
Proof.
  split; [split|].
  - intro H. destruct (form_teams_raises _ _ _ _ H) as [[-> _]|[? _]];
      [|discriminate].
    split; [reflexivity|]. intros ->. discriminate H.
  - intros [-> Hf]. destruct fuel; [congruence|reflexivity].
  - intros e H. destruct (form_teams_raises _ _ _ _ H) as [[_ ->]|[-> _]]; auto.
Qed.

(** ** The variable [role] *)

Lemma fill_minimums_role_kept rs a :
  Py3.role_after a <> None -> Py3.role_after (Py3.fill_minimums rs a) <> None.
Proof.
  revert a. induction rs as [|[r q] rs IH]; intros a Ha; simpl; [assumption|].
  destruct (_ <? _); simpl; [discriminate|]. apply IH. discriminate.
Qed.

Lemma fill_minimums_role_set rs a :
  rs <> [] -> Py3.role_after (Py3.fill_minimums rs a) <> None.
Proof.
  destruct rs as [|[r q] rs]; [congruence|]. intros _. simpl.
  destruct (_ <? _); simpl; [discriminate|].
  apply fill_minimums_role_kept. discriminate.
Qed.

Lemma extend_to_max_role_kept rs a :
  Py3.role_after a <> None -> Py3.role_after (Py3.extend_to_max rs a) <> None.
Proof.
  revert a. induction rs as [|[r q] rs IH]; intros a Ha; simpl; [assumption|].
  destruct (_ <? rmax q); [destruct (0 <? _)|]; apply IH; discriminate.
Qed.

Lemma fill_to_min_members_role type_config a :
  Py3.role_after (Py3.fill_to_min_members type_config a) = Py3.role_after a.
Proof.
  unfold Py3.fill_to_min_members.
  destruct (_ <? min_members type_config); [|reflexivity].
  destruct (0 <? _); reflexivity.
Qed.

(** The locals a pass leaves, however it ends. *)
Lemma one_pass_role_bound team_types st r type_config :
  Py3.one_pass team_types st = Ret r ->
  current_config team_types st = Some type_config ->
  Py3.role_binding st <> None \/ roles type_config <> [] ->
  Py3.role_binding (match r with Py3.Continue s | Py3.Break s => s end) <> None.
Proof.
  unfold Py3.one_pass, current_config.
  destruct (List.length (map fst team_types) =? 0); [discriminate|].
  intros H Hcfg Hb. rewrite Hcfg in H. fold (fresh_attempt st) in H.
  assert (H1 : Py3.role_after
                 (Py3.fill_minimums (roles type_config) (fresh_attempt st))
               <> None).
  { destruct Hb as [Hb|Hb];
      [now apply fill_minimums_role_kept|now apply fill_minimums_role_set]. }
  destruct (negb _); [now injection H as <-|].
  destruct (_ <=? _); injection H as <-; simpl;
    rewrite fill_to_min_members_role; now apply extend_to_max_role_kept.
Qed.

Lemma one_pass_config team_types st r :
  Py3.one_pass team_types st = Ret r ->
  exists type_config, current_config team_types st = Some type_config.
Proof.
  unfold Py3.one_pass, current_config.
  destruct (List.length (map fst team_types) =? 0); [discriminate|].
  destruct (lookup _ team_types); [eauto|discriminate].
Qed.

Lemma allocate_role_kept team_types fuel st st' :
  Py3.allocate fuel team_types st = Ret st' ->
  Py3.role_binding st <> None -> Py3.role_binding st' <> None.
Proof.
  revert st. induction fuel as [|fuel IH]; intro st; simpl; [discriminate|].
  destruct (Py3.one_pass team_types st) as [r|e'|] eqn:Ep; simpl;
    try discriminate.
  intros H Hb. destruct (one_pass_config _ _ _ Ep) as (type_config & Hcfg).
  pose proof (one_pass_role_bound _ _ _ _ Ep Hcfg (or_introl Hb)) as Hr.
  destruct r as [st1|st1]; [now apply (IH _ H)|now injection H as <-].
Qed.

(** X2: when the first template declares at least one role,
    [form_teams] of [3.py] raises nothing: the first pass of the
    construction loop binds [role] before the second pass can read it,
    and every lookup finds its key. *)
Theorem form_teams_raises_nothing fuel participants name type_config rest :
  roles type_config <> [] ->
  forall e,
    Py3.form_teams fuel participants ((name, type_config) :: rest) <> Raise e.
Proof.
  intros Hroles e H.
  destruct (form_teams_raises _ _ _ _ H) as [[? _]|(_ & st & Ea & Hn)];
    [discriminate|].
  destruct fuel as [|fuel]; [discriminate|]. simpl in Ea.
  destruct (Py3.one_pass ((name, type_config) :: rest)
              (Py3.initial participants)) as [r| |] eqn:Ep;
    simpl in Ea; try discriminate.
  assert (Hcfg : current_config ((name, type_config) :: rest)
                   (Py3.initial participants) = Some type_config).
  { unfold current_config. simpl. rewrite Nat.sub_diag. simpl.
    now rewrite String.eqb_refl. }
  pose proof (one_pass_role_bound _ _ _ _ Ep Hcfg (or_intror Hroles)) as Hr.
  destruct r as [st1|st1].
  - now apply (allocate_role_kept _ _ _ _ Ea).
  - injection Ea as <-. contradiction.
Qed.

Lemma form_teams_raises_nothing_witness :
  Py3.form_teams 3 [Scenario.a90; Scenario.c50] Scenario.roomy_template
  <> Raise NameError.
Proof.
  apply (form_teams_raises_nothing 3 [Scenario.a90; Scenario.c50] "t"
           (mkTypeConfig 1 3 [("A", mkRoleReq 1 1)]) []).
  discriminate.
Defined.

(** ** Templates without roles *)

Lemma one_pass_role_unbound team_types st r type_config :
  Py3.one_pass team_types st = Ret r ->
  current_config team_types st = Some type_config ->
  roles type_config = [] ->
  Py3.role_binding st = None ->
  Py3.role_binding (match r with Py3.Continue s | Py3.Break s => s end) = None.
Proof.
  unfold Py3.one_pass, current_config.
  destruct (List.length (map fst team_types) =? 0); [discriminate|].
  intros H Hcfg Hr Hb. rewrite Hcfg, Hr in H. simpl in H.
  destruct (_ <=? _); injection H as <-; simpl;
    now rewrite fill_to_min_members_role.
Qed.

Lemma allocate_role_unbound team_types fuel st st' :
  Forall (fun kv => roles (snd kv) = []) team_types ->
  Py3.allocate fuel team_types st = Ret st' ->
  Py3.role_binding st = None -> Py3.role_binding st' = None.
Proof.
  intro Hall. revert st. induction fuel as [|fuel IH]; intro st; simpl;
    [discriminate|].
  destruct (Py3.one_pass team_types st) as [r|e'|] eqn:Ep; simpl;
    try discriminate.
  intros H Hb. destruct (one_pass_config _ _ _ Ep) as (type_config & Hcfg).
  assert (Hr : roles type_config = []).
  { unfold current_config in Hcfg. apply lookup_some_in in Hcfg.
    rewrite Forall_forall in Hall. exact (Hall _ Hcfg). }
  pose proof (one_pass_role_unbound _ _ _ _ Ep Hcfg Hr Hb) as Hn.
  destruct r as [st1|st1]; [now apply (IH _ H)|now injection H as <-].
Qed.

(** With [role] unbound the scan gets past a team only when the team
    is full. *)
Lemma best_team_unbound team_types p ts :
  forall i best_team_idx best_score_diff b,
    Py3.best_team team_types None p ts i best_team_idx best_score_diff = Ret b ->
    b = best_team_idx /\ Forall (full team_types) ts.
Proof.
  induction ts as [|t ts IH]; intros i bi bd b; simpl.
  - intro H. injection H as <-. auto.
  - destruct (lookup (type t) team_types) as [type_config|] eqn:El;
      [|discriminate].
    destruct (max_members type_config <=? _) eqn:Em; [|discriminate].
    intro H. destruct (IH _ _ _ _ H) as (-> & Hf). split; [reflexivity|].
    constructor; [|assumption]. exists type_config.
    split; [assumption|now apply Nat.leb_le].
Qed.

Lemma distribute_unbound team_types :
  forall fuel i ts remaining ts' leftover,
    Py3.distribute fuel team_types None i ts remaining = Ret (ts', leftover) ->
    ts' = ts /\ leftover = remaining
    /\ (List.length remaining <= i \/ Forall (full team_types) ts).
Proof.
  induction fuel as [|fuel IH]; intros i ts remaining ts' leftover; simpl;
    [discriminate|].
  destruct (nth_error remaining i) as [p|] eqn:Ep.
  - destruct (Py3.best_team team_types None p ts 0 None None) as [b| |] eqn:Eb;
      simpl; try discriminate.
    destruct (best_team_unbound _ _ _ _ _ _ _ Eb) as (-> & Hf).
    intro H. destruct (IH _ _ _ _ _ H) as (-> & -> & _). auto.
  - intro H. injection H as <- <-. split; [reflexivity|]. split; [reflexivity|].
    left. now apply nth_error_None.
Qed.

(** X3: with templates that declare no role, the variable [role] is
    never bound, and [form_teams] of [3.py] returns only when nobody is
    left over or every team is full; the teams returned are then the
    committed teams, with nobody added. *)
Theorem roleless_templates_place_nobody fuel participants team_types ts
    leftover :
  Forall (fun kv => roles (snd kv) = []) team_types ->
  Py3.form_teams fuel participants team_types = Ret (ts, leftover) ->
  (leftover = [] \/ Forall (full team_types) ts)
  /\ exists st,
       Py3.allocate fuel team_types (Py3.initial participants) = Ret st
       /\ ts = Py3.teams st.
Proof.
  intros Hall. unfold Py3.form_teams.
  destruct (Py3.allocate fuel team_types (Py3.initial participants))
    as [st| |] eqn:Ea; simpl; try discriminate.
  pose proof (allocate_role_unbound _ _ _ _ Hall Ea eq_refl) as Hn.
  unfold Py3.second_pass. rewrite Hn.
  destruct (Py3.remaining_participants st) as [|x pool] eqn:Er.
  - intro H. injection H as <- <-. split; [now left|eauto].
  - intro H. apply distribute_unbound in H. destruct H as (-> & -> & Hf).
    split; [|eauto]. right. destruct Hf as [Hf|Hf]; [|assumption].
    exfalso.
    rewrite (Permutation_length (sort_by_score_perm (x :: pool))) in Hf.
    simpl in Hf. lia.
Qed.

Lemma roleless_templates_place_nobody_witness :
  ([Scenario.b70] = [] \/
   Forall (full [("t", mkTypeConfig 2 2 [])])
          [mkTeam "t" [Scenario.a90; Scenario.a80]])
  /\ exists st,
       Py3.allocate 3 [("t", mkTypeConfig 2 2 [])]
         (Py3.initial [Scenario.a90; Scenario.a80; Scenario.b70]) = Ret st
       /\ [mkTeam "t" [Scenario.a90; Scenario.a80]] = Py3.teams st.
Proof.
  apply (roleless_templates_place_nobody 3
           [Scenario.a90; Scenario.a80; Scenario.b70]
           [("t", mkTypeConfig 2 2 [])]
           [mkTeam "t" [Scenario.a90; Scenario.a80]] [Scenario.b70]).
  - repeat constructor.
  - reflexivity.
Defined.

(** ** Whether [form_teams] returns at all *)

Lemma fill_minimums_no_minimum rs a :
  Forall (fun kv => rmin (snd kv) = 0) rs ->
  Py3.formed (Py3.fill_minimums rs a) = Py3.formed a.
Proof.
  intro H. revert a. induction H as [|[r q] rs Hq Hrs IH]; intro a; simpl;
    [reflexivity|].
  simpl in Hq. rewrite Hq. simpl. now rewrite IH.
Qed.

Lemma one_pass_no_minimum team_types st :
  team_types <> [] ->
  Forall (fun kv => no_minimum (snd kv)) team_types ->
  exists st', Py3.one_pass team_types st = Ret (Py3.Continue st').
Proof.
  intros Hne Hall. unfold Py3.one_pass.
  destruct (List.length (map fst team_types) =? 0) eqn:E0.
  - apply Nat.eqb_eq in E0. rewrite length_map in E0.
    apply length_zero_iff_nil in E0. contradiction.
  - pose proof (current_key_found team_types (Py3.team_idx st) Hne) as Hk.
    destruct (lookup _ team_types) as [type_config|] eqn:El; [|congruence].
    apply lookup_some_in in El. rewrite Forall_forall in Hall.
    destruct (Hall _ El) as (Hmin & Hroles). simpl in Hmin, Hroles.
    rewrite (fill_minimums_no_minimum _ _ Hroles). simpl.
    rewrite Hmin. simpl. eauto.
Qed.

(** X4: when no template asks for anybody (no [min_members] and no
    role minimum), every pass of the [while True] loop of [3.py]
    commits a team and none reaches a [break]: [form_teams] does not
    return, whoever the participants are. *)
Theorem form_teams_never_returns team_types :
  team_types <> [] ->
  Forall (fun kv => no_minimum (snd kv)) team_types ->
  forall fuel participants,
    Py3.form_teams fuel participants team_types = OutOfFuel.
Proof.
  intros Hne Hall fuel participants. unfold Py3.form_teams.
  generalize (Py3.initial participants).
  induction fuel as [|fuel IH]; intro st; [reflexivity|].
  cbn [Py3.allocate].
  destruct (one_pass_no_minimum team_types st Hne Hall) as (st' & ->).
  cbn [bind]. apply IH.
Qed.

Lemma form_teams_never_returns_witness :
  Py3.form_teams 7 [Scenario.a90; Scenario.b70]
    [("t", mkTypeConfig 0 2 [("A", mkRoleReq 0 1)])] = OutOfFuel.
Proof.
  apply (form_teams_never_returns [("t", mkTypeConfig 0 2 [("A", mkRoleReq 0 1)])]).
  - discriminate.
  - repeat constructor.
Defined.

(** X5: when every template asks for at least one member, the
    construction loop of [3.py] makes at most one pass more than there
    are participants, and [form_teams] ends. *)
Theorem form_teams_ends team_types fuel participants :
  Forall (fun kv => 1 <= min_members (snd kv)) team_types ->
  List.length participants < fuel ->
  Py3.form_teams fuel participants team_types <> OutOfFuel.
Proof.
  intros Hmin Hfuel. unfold Py3.form_teams.
  pose proof (allocate_ends team_types Hmin fuel (Py3.initial participants)) as Ha.
  destruct (Py3.allocate fuel team_types (Py3.initial participants))
    as [st| |]; simpl.
  - apply second_pass_ends.
  - discriminate.
  - exfalso. apply Ha; [|reflexivity]. simpl.
    now rewrite (Permutation_length (sort_by_score_perm participants)).
Qed.

Lemma form_teams_ends_witness :
  Py3.form_teams 3 [Scenario.a90; Scenario.b70] Scenario.pair_template
  <> OutOfFuel.
Proof.
  apply (form_teams_ends Scenario.pair_template 3 [Scenario.a90; Scenario.b70]).
  - repeat constructor.
  - simpl. lia.
Defined.

(** ** What the teams returned by [form_teams] satisfy *)

(** A pass that commits a team, taken apart. *)
Lemma one_pass_commits team_types st st' :
  Py3.one_pass team_types st = Ret (Py3.Continue st') ->
  exists type_config team,
    current_config team_types st = Some type_config
    /\ lookup (type team) team_types = Some type_config
    /\ Py3.teams st' = Py3.teams st ++ [team]
    /\ Py3.formed (Py3.fill_minimums (roles type_config) (fresh_attempt st))
       = true
    /\ members team
       = Py3.team_members
           (Py3.fill_to_min_members type_config
              (Py3.extend_to_max (roles type_config)
                 (Py3.fill_minimums (roles type_config) (fresh_attempt st))))
    /\ min_members type_config <= List.length (members team).
Proof.
  unfold Py3.one_pass, current_config.
  destruct (List.length (map fst team_types) =? 0); [discriminate|].
  destruct (lookup _ team_types) as [type_config|] eqn:El; [|discriminate].
  fold (fresh_attempt st).
  destruct (Py3.formed (Py3.fill_minimums (roles type_config) (fresh_attempt st)))
    eqn:Ef; [|discriminate].
  simpl. destruct (min_members type_config <=? _) eqn:Em; [|discriminate].
  intro H. injection H as <-. simpl.
  eexists type_config, (mkTeam _ _). simpl.
  repeat split; try reflexivity; try assumption. now apply Nat.leb_le.
Qed.

Lemma one_pass_breaks team_types st st' :
  Py3.one_pass team_types st = Ret (Py3.Break st') ->
  Py3.teams st' = Py3.teams st.
Proof.
  unfold Py3.one_pass.
  destruct (List.length (map fst team_types) =? 0); [discriminate|].
  destruct (lookup _ team_types) as [type_config|]; [|discriminate].
  destruct (negb _); [now intro H; injection H as <-|].
  destruct (_ <=? _); [discriminate|]. now intro H; injection H as <-.
Qed.

(** What holds of every team when it is committed holds of the teams
    the loop ends with. *)
Lemma allocate_Forall team_types (P : Team -> Prop) :
  (forall st st' team,
     Py3.one_pass team_types st = Ret (Py3.Continue st') ->
     Py3.teams st' = Py3.teams st ++ [team] -> P team) ->
  forall fuel st st',
    Py3.allocate fuel team_types st = Ret st' ->
    Forall P (Py3.teams st) -> Forall P (Py3.teams st').
Proof.
  intros HP. induction fuel as [|fuel IH]; intros st st'; simpl;
    [discriminate|].
  destruct (Py3.one_pass team_types st) as [[st1|st1]|e'|] eqn:Ep; simpl;
    try discriminate.
  - intros H HF. apply (IH _ _ H).
    destruct (one_pass_commits _ _ _ Ep) as (c & team & _ & _ & Ht & _).
    rewrite Ht. apply Forall_app. split; [assumption|].
    constructor; [|constructor]. eapply HP; eassumption.
  - intros H HF. injection H as <-. now rewrite (one_pass_breaks _ _ _ Ep).
Qed.

(** The second pass, whatever [role] is bound to: teams only get
    members added at their end, and the leftover list only loses
    people. *)
Lemma distribute_extends team_types role_binding :
  forall fuel i ts remaining ts' leftover,
    Py3.distribute fuel team_types role_binding i ts remaining
    = Ret (ts', leftover) ->
    Forall2 extends ts ts' /\ Subseq leftover remaining.
Proof.
  induction fuel as [|fuel IH]; intros i ts remaining ts' leftover; simpl;
    [discriminate|].
  destruct (nth_error remaining i) as [p|].
  - destruct (Py3.best_team team_types role_binding p ts 0 None None)
      as [[k|]|e|]; simpl; try discriminate.
    + intro H. destruct (IH _ _ _ _ _ H) as (He & Hs). split.
      * eapply Forall2_extends_trans; [apply append_member_extends|exact He].
      * eapply Subseq_trans; [exact Hs|apply Subseq_remove].
    + apply IH.
  - intro H. injection H as <- <-.
    split; [apply Forall2_extends_refl|apply Subseq_refl].
Qed.

Lemma second_pass_extends team_types st ts leftover :
  Py3.second_pass team_types st = Ret (ts, leftover) ->
  Forall2 extends (Py3.teams st) ts
  /\ Subseq leftover (sort_by_score (Py3.remaining_participants st)).
Proof.
  unfold Py3.second_pass.
  destruct (Py3.remaining_participants st) as [|x pool].
  - intro H. injection H as <- <-.
    split; [apply Forall2_extends_refl|constructor].
  - apply distribute_extends.
Qed.

Lemma Forall_extends (P : Team -> Prop) ts ts' :
  (forall t t', extends t t' -> P t -> P t') ->
  Forall2 extends ts ts' -> Forall P ts -> Forall P ts'.
Proof.
  intros HP. induction 1 as [|t t' ts ts' Ht H IH]; intro HF; [constructor|].
  inversion HF; subst. constructor; [eapply HP; eassumption|now apply IH].
Qed.

Lemma form_teams_Forall team_types (P : Team -> Prop) :
  (forall st st' team,
     Py3.one_pass team_types st = Ret (Py3.Continue st') ->
     Py3.teams st' = Py3.teams st ++ [team] -> P team) ->
  (forall t t', extends t t' -> P t -> P t') ->
  forall fuel participants ts leftover,
    Py3.form_teams fuel participants team_types = Ret (ts, leftover) ->
    Forall P ts.
Proof.
  intros Hcommit Hext fuel participants ts leftover. unfold Py3.form_teams.
  destruct (Py3.allocate fuel team_types (Py3.initial participants))
    as [st| |] eqn:Ea; simpl; try discriminate.
  intro H. apply second_pass_extends in H. destruct H as (He & _).
  apply (Forall_extends P _ _ Hext He).
  apply (allocate_Forall team_types P Hcommit _ _ _ Ea). constructor.
Qed.

(** X6: every team [form_teams] of [3.py] returns has at least the
    [min_members] of its template: a team is committed only at that
    size, and the second pass never takes a member away. *)
Theorem returned_teams_meet_min_members fuel participants team_types ts
    leftover :
  Py3.form_teams fuel participants team_types = Ret (ts, leftover) ->
  Forall (meets_min_members team_types) ts.
Proof.
  apply form_teams_Forall.
  - intros st st' team Hp Ht.
    destruct (one_pass_commits _ _ _ Hp) as (c & team' & _ & Hl & Ht' & _ & _ & Hm).
    rewrite Ht in Ht'. apply app_inj_tail in Ht'. destruct Ht' as (_ & ->).
    exists c. auto.
  - intros t t' (Ht & added & Hm) (c & Hl & Hmin). exists c.
    rewrite Ht, Hm, length_app. split; [assumption|lia].
Qed.

Lemma returned_teams_meet_min_members_witness :
  Forall (meets_min_members Scenario.roomy_template)
         [mkTeam "t" [Scenario.a90; Scenario.c50]].
Proof.
  apply (returned_teams_meet_min_members 3
           [Scenario.a90; Scenario.c50; Scenario.d40] Scenario.roomy_template
           [mkTeam "t" [Scenario.a90; Scenario.c50]] [Scenario.d40]).
  reflexivity.
Defined.

(** *** Role minimums *)

Lemma fill_minimums_grows rs a :
  exists added,
    Py3.team_members (Py3.fill_minimums rs a) = Py3.team_members a ++ added.
Proof.
  revert a. induction rs as [|[r q] rs IH]; intro a; simpl.
  - exists []. now rewrite app_nil_r.
  - destruct (_ <? _); simpl; [exists []; now rewrite app_nil_r|].
    destruct (IH (Py3.mkAttempt (Py3.formed a)
                    (Py3.team_members a
                     ++ firstn (rmin q)
                          (filter (has_role (PyStr.lower r)) (Py3.pool a)))
                    (remove_all
                       (firstn (rmin q)
                          (filter (has_role (PyStr.lower r)) (Py3.pool a)))
                       (Py3.pool a))
                    (Some r))) as (added & ->).
    simpl. rewrite <- app_assoc. eauto.
Qed.

Lemma extend_to_max_grows rs a :
  exists added,
    Py3.team_members (Py3.extend_to_max rs a) = Py3.team_members a ++ added.
Proof.
  revert a. induction rs as [|[r q] rs IH]; intro a; simpl.
  - exists []. now rewrite app_nil_r.
  - destruct (_ <? rmax q); [destruct (0 <? _)|];
      match goal with
      | |- context [Py3.extend_to_max rs ?b] =>
          destruct (IH b) as (added & ->); simpl;
          rewrite <- ?app_assoc; eauto
      end.
Qed.

Lemma fill_to_min_members_grows type_config a :
  exists added,
    Py3.team_members (Py3.fill_to_min_members type_config a)
    = Py3.team_members a ++ added.
Proof.
  unfold Py3.fill_to_min_members.
  destruct (_ <? min_members type_config);
    [destruct (0 <? _)|]; simpl; eauto; exists []; now rewrite app_nil_r.
Qed.

Lemma count_has_role_app r (l1 l2 : list Person) :
  List.length (filter (has_role r) l1)
  <= List.length (filter (has_role r) (l1 ++ l2)).
Proof. rewrite filter_app, length_app. lia. Qed.

Lemma filter_selected (f : Person -> bool) n l :
  filter f (firstn n (filter f l)) = firstn n (filter f l).
Proof.
  apply forallb_filter_id. apply forallb_forall. intros x Hx.
  pose proof (selected_satisfy f n l) as H. rewrite Forall_forall in H. auto.
Qed.

Lemma fill_minimums_meets rs a :
  Py3.formed (Py3.fill_minimums rs a) = true ->
  Forall (fun kv =>
            rmin (snd kv)
            <= List.length
                 (filter (has_role (PyStr.lower (fst kv)))
                    (Py3.team_members (Py3.fill_minimums rs a))))
         rs.
Proof.
  revert a. induction rs as [|[r q] rs IH]; intro a; simpl; [constructor|].
  destruct (_ <? _) eqn:El; simpl; [discriminate|].
  apply Nat.ltb_ge in El.
  set (selected := firstn (rmin q) (filter (has_role (PyStr.lower r)) (Py3.pool a))).
  set (a1 := Py3.mkAttempt _ _ _ _).
  intro Hf. constructor; [|now apply IH].
  simpl. destruct (fill_minimums_grows rs a1) as (added & ->).
  unfold a1. simpl.
  etransitivity; [|apply count_has_role_app].
  rewrite filter_app, length_app. unfold selected at 1.
  rewrite filter_selected, length_firstn. lia.
Qed.

(** X7: every team [form_teams] of [3.py] returns has at least the
    declared minimum of every role of its template, counted on the
    lower-case role: the minimums are filled before anything else, and
    members are only ever added. *)
Theorem returned_teams_meet_role_minimums fuel participants team_types ts
    leftover :
  Py3.form_teams fuel participants team_types = Ret (ts, leftover) ->
  Forall (meets_role_minimums team_types) ts.
Proof.
  apply form_teams_Forall.
  - intros st st' team Hp Ht.
    destruct (one_pass_commits _ _ _ Hp)
      as (c & team' & _ & Hl & Ht' & Hf & Hm & _).
    rewrite Ht in Ht'. apply app_inj_tail in Ht'. destruct Ht' as (_ & ->).
    exists c. split; [assumption|].
    pose proof (fill_minimums_meets _ _ Hf) as Hmin.
    eapply Forall_impl; [|exact Hmin]. intros [r q] Hr. simpl in *.
    rewrite Hm.
    destruct (fill_to_min_members_grows c
                (Py3.extend_to_max (roles c)
                   (Py3.fill_minimums (roles c) (fresh_attempt st))))
      as (added2 & ->).
    destruct (extend_to_max_grows (roles c)
                (Py3.fill_minimums (roles c) (fresh_attempt st)))
      as (added1 & ->).
    etransitivity; [exact Hr|].
    etransitivity; [apply count_has_role_app|apply count_has_role_app].
  - intros t t' (Ht & added & Hm) (c & Hl & Hmin). exists c.
    rewrite Ht. split; [assumption|].
    eapply Forall_impl; [|exact Hmin]. intros [r q] Hr. simpl in *.
    rewrite Hm. etransitivity; [exact Hr|apply count_has_role_app].
Qed.

Lemma returned_teams_meet_role_minimums_witness :
  Forall (meets_role_minimums Scenario.one_a_template)
         [mkTeam "t" [Scenario.b70; Scenario.a90; Scenario.a80]].
Proof.
  apply (returned_teams_meet_role_minimums 3
           [Scenario.a90; Scenario.a80; Scenario.b70] Scenario.one_a_template
           [mkTeam "t" [Scenario.b70; Scenario.a90; Scenario.a80]] []).
  reflexivity.
Defined.

(** ** Nobody is invented or duplicated *)

Lemma all_members_snoc ts (t : Team) :
  all_members (ts ++ [t]) = all_members ts ++ members t.
Proof.
  unfold all_members. rewrite map_app, concat_app. simpl.
  now rewrite app_nil_r.
Qed.

(** The construction loop from any state: the teams and the pool it
    ends with, and the people the last pass lost, make up the teams and
    the pool it started with. *)
Lemma allocate_conserves team_types :
  forall fuel st st',
    Py3.allocate fuel team_types st = Ret st' ->
    exists lost,
      Permutation
        (all_members (Py3.teams st) ++ Py3.remaining_participants st)
        (all_members (Py3.teams st') ++ lost ++ Py3.remaining_participants st')
      /\ (lost = []
          \/ exists st0 type_config,
               Py3.one_pass team_types st0 = Ret (Py3.Break st')
               /\ current_config team_types st0 = Some type_config
               /\ Py3.formed (Py3.fill_minimums (roles type_config)
                                                (fresh_attempt st0)) = false
               /\ lost = Py3.team_members
                           (Py3.fill_minimums (roles type_config)
                                              (fresh_attempt st0))).
Proof.
  induction fuel as [|fuel IH]; intros st st'; simpl; [discriminate|].
  destruct (Py3.one_pass team_types st) as [[st1|st1]|e'|] eqn:Ep; simpl;
    try discriminate.
  - intro H. destruct (IH _ _ H) as (lost & Hperm & Hlost).
    exists lost. split; [|assumption].
    etransitivity; [|exact Hperm].
    destruct (committing_pass_conserves _ _ _ Ep) as (team & -> & Hp).
    rewrite all_members_snoc, <- app_assoc.
    now apply Permutation_app_head.
  - intro H. injection H as <-.
    destruct (one_pass_config _ _ _ Ep) as (type_config & Hcfg).
    destruct (last_pass_conserves_or_loses _ _ _ _ Ep Hcfg)
      as (-> & lost & Hp & Hl).
    exists lost. split; [now apply Permutation_app_head|].
    destruct (Py3.formed _) eqn:Ef; [now left|right].
    exists st, type_config. auto.
Qed.

(** X8: the construction loop of [3.py] neither invents nor duplicates
    a participant: the members of the teams it commits, the pool it
    leaves and the people lost by the last pass are a rearrangement of
    the participants.  People are lost only by a last pass that missed
    a role minimum, and they are the people that pass had claimed. *)
Theorem construction_conserves fuel participants team_types st :
  Py3.allocate fuel team_types (Py3.initial participants) = Ret st ->
  exists lost,
    Permutation participants
      (all_members (Py3.teams st) ++ lost ++ Py3.remaining_participants st)
    /\ (lost = []
        \/ exists st0 type_config,
             Py3.one_pass team_types st0 = Ret (Py3.Break st)
             /\ current_config team_types st0 = Some type_config
             /\ Py3.formed (Py3.fill_minimums (roles type_config)
                                              (fresh_attempt st0)) = false
             /\ lost = Py3.team_members
                         (Py3.fill_minimums (roles type_config)
                                            (fresh_attempt st0))).
Proof.
  intro H. destruct (allocate_conserves _ _ _ _ H) as (lost & Hp & Hl).
  exists lost. split; [|assumption].
  etransitivity; [|exact Hp]. simpl. symmetry. apply sort_by_score_perm.
Qed.

Lemma construction_conserves_witness :
  exists lost,
    Permutation [Scenario.a90; Scenario.b70; Scenario.a80]
      (all_members [mkTeam "t" [Scenario.a90; Scenario.b70]] ++ lost ++ [])
    /\ (lost = []
        \/ exists st0 type_config,
             Py3.one_pass Scenario.pair_template st0
             = Ret (Py3.Break
                      (Py3.mkLocals [mkTeam "t" [Scenario.a90; Scenario.b70]]
                                    [] 1 (Some "B")))
             /\ current_config Scenario.pair_template st0 = Some type_config
             /\ Py3.formed (Py3.fill_minimums (roles type_config)
                                              (fresh_attempt st0)) = false
             /\ lost = Py3.team_members
                         (Py3.fill_minimums (roles type_config)
                                            (fresh_attempt st0))).
Proof.
  apply (construction_conserves 3 [Scenario.a90; Scenario.b70; Scenario.a80]
           Scenario.pair_template
           (Py3.mkLocals [mkTeam "t" [Scenario.a90; Scenario.b70]]
                         [] 1 (Some "B"))).
  reflexivity.
Defined.

(** * The second pass of [3.py] *)

(** ** The team a leftover person is given to *)

(** The two tests of the scan, lines 141 and 148, against [candidate]. *)
Lemma candidate_tests team_types role_var p t type_config :
  lookup (type t) team_types = Some type_config ->
  let role_max :=
    match lookup (PyStr.title role_var) (roles type_config) with
    | Some req => rmax req
    | None => 0
    end in
  candidate team_types role_var p t
  <-> (max_members type_config <=? List.length (members t)) = false
      /\ ((0 <? role_max)
          && (role_max
              <=? List.length (filter (has_role (PyStr.lower (role p)))
                                 (members t)))) = false.
Proof.
  intros Hl role_max. unfold candidate. rewrite Hl. split.
  - intros (c & Hc & Hsize & Hrole). injection Hc as <-.
    fold role_max in Hrole. split; [now apply Nat.leb_gt|].
    apply andb_false_iff. destruct Hrole as [Hz|Hlt].
    + left. apply Nat.ltb_ge. lia.
    + right. now apply Nat.leb_gt.
  - intros (Hsize & Hrole). exists type_config. split; [reflexivity|].
    split; [now apply Nat.leb_gt|]. fold role_max.
    apply andb_false_iff in Hrole. destruct Hrole as [Hz|Hlt].
    + left. apply Nat.ltb_ge in Hz. lia.
    + right. now apply Nat.leb_gt.
Qed.

(** The scan from any point, whatever the comparison of the gains
    decides: it returns the team it came with, and when it came with
    none, no team of [ts] passes the two tests; or it returns a team of
    [ts] that passes them.  The first gain computed is compared with
    [float('-inf')], so the first team that passes the tests is always
    taken up. *)
Lemma best_team_candidate team_types role_var p ts :
  forall i best_team_idx best_score_diff b,
    (best_team_idx = None -> best_score_diff = None) ->
    Py3.best_team team_types (Some role_var) p ts i best_team_idx
                  best_score_diff = Ret b ->
    (b = best_team_idx
     /\ (best_team_idx = None ->
         forall t, In t ts -> ~ candidate team_types role_var p t))
    \/ (exists j t,
          b = Some (i + j) /\ nth_error ts j = Some t
          /\ candidate team_types role_var p t).
Proof.
  induction ts as [|t0 ts IH]; intros i bi bd b Hinv.
  - simpl. intro H. injection H as <-. left. split; [reflexivity|].
    intros _ t [].
  - cbn [Py3.best_team].
    destruct (lookup (type t0) team_types) as [type_config|] eqn:El;
      [|discriminate].
    pose proof (candidate_tests team_types role_var p t0 type_config El) as Hc.
    cbv zeta in Hc.
    assert (Hskip :
      (bi = None -> ~ candidate team_types role_var p t0) ->
      Py3.best_team team_types (Some role_var) p ts (S i) bi bd = Ret b ->
      (b = bi
       /\ (bi = None ->
           forall t, In t (t0 :: ts) -> ~ candidate team_types role_var p t))
      \/ (exists j t,
            b = Some (i + j) /\ nth_error (t0 :: ts) j = Some t
            /\ candidate team_types role_var p t)).
    { intros Hn H.
      destruct (IH _ _ _ _ Hinv H) as [(-> & Hno)|(j & t & -> & Hj & Hcand)].
      - left. split; [reflexivity|]. intros Hbi t [<-|Hin]; auto.
      - right. exists (S j), t. split; [f_equal; lia|]. auto. }
    destruct (max_members type_config <=? List.length (members t0)) eqn:Em.
    { apply Hskip. intros _ Hcand. apply Hc in Hcand. destruct Hcand.
      discriminate. }
    destruct (_ && _) eqn:Er.
    { apply Hskip. intros _ Hcand. apply Hc in Hcand. destruct Hcand.
      congruence. }
    assert (Hcand0 : candidate team_types role_var p t0) by (apply Hc; auto).
    destruct (Py3.beats _ bd) eqn:Eb.
    + intro H.
      destruct (IH (S i) (Some i) _ b (fun E => ltac:(discriminate E)) H)
        as [(-> & _)|(j & t & -> & Hj & Hcand)].
      * right. exists 0, t0. split; [f_equal; lia|]. auto.
      * right. exists (S j), t. split; [f_equal; lia|]. auto.
    + apply Hskip. intro Hbi. rewrite (Hinv Hbi) in Eb. discriminate.
Qed.

(** X9: for a leftover person, the scan of the teams of [3.py] returns
    a team only if the team passes its two tests (it is below
    [max_members], and its count of the person's role is below the
    maximum found under the variable [role]), and it returns no team
    exactly when no team passes them: a person the loop visits is
    placed whenever some team can take them.  Which of several such
    teams is returned depends on the comparison of the computed
    averages and is not stated. *)
Theorem best_team_picks_a_candidate team_types role_var p ts b :
  Py3.best_team team_types (Some role_var) p ts 0 None None = Ret b ->
  match b with
  | Some k =>
      exists t,
        nth_error ts k = Some t /\ candidate team_types role_var p t
  | None => forall t, In t ts -> ~ candidate team_types role_var p t
  end.
Proof.
  intro H.
  destruct (best_team_candidate _ _ _ _ 0 None None b (fun _ => eq_refl) H)
    as [(-> & Hno)|(j & t & -> & Hj & Hcand)].
  - now apply Hno.
  - simpl. eauto.
Qed.

Lemma best_team_picks_a_candidate_witness :
  exists t,
    nth_error [mkTeam "t" [Scenario.a90]; mkTeam "t" [Scenario.a80]] 1 = Some t
    /\ candidate Scenario.roomy_template "A" Scenario.c50 t.
Proof.
  apply (best_team_picks_a_candidate Scenario.roomy_template "A" Scenario.c50
           [mkTeam "t" [Scenario.a90]; mkTeam "t" [Scenario.a80]] (Some 1)).
  reflexivity.
Defined.

(** ** What the second pass does to the teams and the leftover list *)

Lemma best_team_chosen team_types role_binding p ts k :
  Py3.best_team team_types role_binding p ts 0 None None = Ret (Some k) ->
  exists t type_config,
    nth_error ts k = Some t
    /\ lookup (type t) team_types = Some type_config
    /\ List.length (members t) < max_members type_config.
Proof.
  destruct role_binding as [role_var|].
  - intro H.
    destruct (best_team_candidate _ _ _ _ 0 None None _ (fun _ => eq_refl) H)
      as [(Hb & _)|(j & t & Hb & Hj & Hcand)]; [discriminate|].
    injection Hb as ->. simpl.
    destruct Hcand as (c & Hl & Hsize & _). eauto.
  - intro H. apply best_team_unbound in H. destruct H. discriminate.
Qed.

Lemma within_max_refl team_types ts : Forall2 (within_max team_types) ts ts.
Proof.
  induction ts as [|t ts IH]; constructor; [|assumption].
  split; [reflexivity|]. intros. lia.
Qed.

Lemma within_max_trans team_types ts1 ts2 ts3 :
  Forall2 (within_max team_types) ts1 ts2 ->
  Forall2 (within_max team_types) ts2 ts3 ->
  Forall2 (within_max team_types) ts1 ts3.
Proof.
  intro H. revert ts3.
  induction H as [|t1 t2 ts1 ts2 (Ht & Hm) H IH]; intros ts3 H23;
    inversion H23 as [|? t3 ? ts3' (Ht' & Hm') H']; subst; constructor.
  - split; [congruence|]. intros c Hc.
    specialize (Hm c Hc). rewrite <- Ht in Hc. specialize (Hm' c Hc). lia.
  - now apply IH.
Qed.

Lemma append_member_within team_types k p ts t type_config :
  nth_error ts k = Some t ->
  lookup (type t) team_types = Some type_config ->
  List.length (members t) < max_members type_config ->
  Forall2 (within_max team_types) ts (append_member k p ts).
Proof.
  revert k. induction ts as [|t0 ts IH]; intros [|k] Hk Hl Hsize;
    try discriminate; simpl in *.
  - injection Hk as ->. constructor; [|apply within_max_refl].
    split; [reflexivity|]. simpl. intros c Hc.
    rewrite Hl in Hc. injection Hc as <-. rewrite length_app. simpl. lia.
  - constructor; [|now apply IH]. split; [reflexivity|]. intros. lia.
Qed.

Lemma append_member_headcount k p ts :
  k < List.length ts ->
  List.length (all_members (append_member k p ts))
  = S (List.length (all_members ts)).
Proof.
  revert k. induction ts as [|t0 ts IH]; intros [|k] Hk; simpl in *; try lia.
  - unfold all_members. simpl. rewrite !length_app. simpl. lia.
  - unfold all_members in *. simpl. rewrite !length_app.
    rewrite IH by lia. lia.
Qed.

Lemma distribute_moves team_types role_binding :
  forall fuel i ts remaining ts' leftover,
    Py3.distribute fuel team_types role_binding i ts remaining
    = Ret (ts', leftover) ->
    Forall2 (within_max team_types) ts ts'
    /\ List.length (all_members ts') + List.length leftover
       = List.length (all_members ts) + List.length remaining.
Proof.
  induction fuel as [|fuel IH]; intros i ts remaining ts' leftover; simpl;
    [discriminate|].
  destruct (nth_error remaining i) as [p|] eqn:Ep.
  - destruct (Py3.best_team team_types role_binding p ts 0 None None)
      as [[k|]|e|] eqn:Eb; simpl; try discriminate.
    + intro H. destruct (IH _ _ _ _ _ H) as (Hw & Hc).
      destruct (best_team_chosen _ _ _ _ _ Eb) as (t & c & Hk & Hl & Hsize).
      split.
      * eapply within_max_trans; [|exact Hw].
        eapply append_member_within; eassumption.
      * rewrite Hc, append_member_headcount
          by (apply nth_error_Some; congruence).
        pose proof (remove_length p remaining (nth_error_In _ _ Ep)). lia.
    + apply IH.
  - intro H. injection H as <- <-. split; [apply within_max_refl|reflexivity].
Qed.

(** X10: the second pass of [3.py] gives a person only to a team that
    is below the [max_members] of its template: a team that was within
    that bound stays within it, and a team that was above it (the
    construction loop does not test the bound) does not grow. *)
Theorem second_pass_respects_max_members team_types st ts leftover :
  Py3.second_pass team_types st = Ret (ts, leftover) ->
  Forall2 (within_max team_types) (Py3.teams st) ts.
Proof.
  unfold Py3.second_pass.
  destruct (Py3.remaining_participants st) as [|x pool].
  - intro H. injection H as <- _. apply within_max_refl.
  - intro H. now apply distribute_moves in H.
Qed.

Lemma second_pass_respects_max_members_witness :
  Forall2 (within_max Scenario.two_template)
    [mkTeam "t" [Scenario.a90; Scenario.b70; Scenario.a80]]
    [mkTeam "t" [Scenario.a90; Scenario.b70; Scenario.a80]].
Proof.
  apply (second_pass_respects_max_members Scenario.two_template
           (Py3.mkLocals [mkTeam "t" [Scenario.a90; Scenario.b70; Scenario.a80]]
                         [Scenario.c50] 1 (Some "A"))
           [mkTeam "t" [Scenario.a90; Scenario.b70; Scenario.a80]]
           [Scenario.c50]).
  reflexivity.
Defined.

(** X11: the second pass of [3.py] only moves people from the leftover
    list to the end of teams: every team keeps its type and its
    members, in order, the leftover list returned is the sorted pool
    with people taken out, and the number of people in the teams and
    the leftover list together does not change. *)
Theorem second_pass_moves_people team_types st ts leftover :
  Py3.second_pass team_types st = Ret (ts, leftover) ->
  Forall2 extends (Py3.teams st) ts
  /\ Subseq leftover (sort_by_score (Py3.remaining_participants st))
  /\ List.length (all_members ts) + List.length leftover
     = List.length (all_members (Py3.teams st))
       + List.length (Py3.remaining_participants st).
Proof.
  intro H. destruct (second_pass_extends _ _ _ _ H) as (He & Hs).
  split; [assumption|]. split; [assumption|].
  unfold Py3.second_pass in H.
  destruct (Py3.remaining_participants st) as [|x pool].
  - injection H as <- <-. reflexivity.
  - apply distribute_moves in H. destruct H as (_ & ->).
    now rewrite (Permutation_length (sort_by_score_perm (x :: pool))).
Qed.

Lemma second_pass_moves_people_witness :
  Forall2 extends [mkTeam "t" [Scenario.a90]]
                  [mkTeam "t" [Scenario.a90; Scenario.c50]]
  /\ Subseq [Scenario.d40] (sort_by_score [Scenario.d40; Scenario.c50])
  /\ List.length (all_members [mkTeam "t" [Scenario.a90; Scenario.c50]])
     + List.length [Scenario.d40]
     = List.length (all_members [mkTeam "t" [Scenario.a90]])
       + List.length [Scenario.d40; Scenario.c50].
Proof.
  apply (second_pass_moves_people Scenario.roomy_template
           (Py3.mkLocals [mkTeam "t" [Scenario.a90]]
                         [Scenario.d40; Scenario.c50] 1 (Some "A"))
           [mkTeam "t" [Scenario.a90; Scenario.c50]] [Scenario.d40]).
  reflexivity.
Defined.

(** * The participants by role *)

Lemma lookup_by_role_append r k p d :
  lookup r (by_role_append k p d)
  = if String.eqb k r
    then Some (match lookup r d with Some l => l ++ [p] | None => [p] end)
    else lookup r d.
Proof.
  induction d as [|[k' l] d IH]; simpl.
  - reflexivity.
  - destruct (String.eqb k' k) eqn:Ek; simpl.
    + apply String.eqb_eq in Ek. subst k'.
      destruct (String.eqb k r); reflexivity.
    + destruct (String.eqb k' r) eqn:Er.
      * apply String.eqb_eq in Er. subst k'.
        rewrite String.eqb_sym in Ek. now rewrite Ek.
      * exact IH.
Qed.

Lemma keys_by_role_append k p d :
  NoDup (map fst d) -> NoDup (map fst (by_role_append k p d)).
Proof.
  assert (Hin : forall x d', In x (map fst (by_role_append k p d')) ->
                             x = k \/ In x (map fst d')).
  { intros x d'. induction d' as [|[k' l] d' IH]; simpl.
    - intros [->|[]]. now left.
    - destruct (String.eqb k' k); simpl; tauto. }
  induction d as [|[k' l] d IH]; simpl; intro Hnd.
  - repeat constructor. simpl. tauto.
  - inversion Hnd as [|? ? Hk' Hd]; subst.
    destruct (String.eqb k' k) eqn:Ek; simpl.
    + now constructor.
    + constructor; [|now apply IH].
      intro Hx. apply Hin in Hx. destruct Hx as [->|Hx]; [|contradiction].
      now rewrite String.eqb_refl in Ek.
Qed.

Lemma by_role_fold r participants :
  forall d,
    lookup r (fold_left (fun d p => by_role_append (PyStr.lower (role p)) p d)
                        participants d)
    = match lookup r d, filter (has_role r) participants with
      | Some l0, l => Some (l0 ++ l)
      | None, [] => None
      | None, l => Some l
      end.
Proof.
  induction participants as [|p ps IH]; intro d; simpl.
  - destruct (lookup r d) as [l0|]; [|reflexivity].
    f_equal. symmetry. apply List.app_nil_r.
  - rewrite IH, lookup_by_role_append.
    assert (Hr : has_role r p = String.eqb (PyStr.lower (role p)) r)
      by reflexivity.
    rewrite Hr. destruct (String.eqb (PyStr.lower (role p)) r).
    + destruct (lookup r d) as [l0|]; simpl; [|reflexivity].
      f_equal. symmetry. apply (List.app_assoc l0 [p]).
    + reflexivity.
Qed.

(** X12: [self.by_role] maps every lower-case role that occurs among
    the participants to the participants of that role, in the order of
    the input, and has no entry for any other role; its keys are
    pairwise distinct. *)
Theorem by_role_groups participants r :
  lookup r (by_role participants)
  = match filter (has_role r) participants with
    | [] => None
    | l => Some l
    end
  /\ NoDup (map fst (by_role participants)).
Proof.
  split.
  - unfold by_role. now rewrite by_role_fold.
  - unfold by_role.
    assert (H : forall d : list (string * list Person),
               NoDup (map fst d) ->
               NoDup (map fst (fold_left
                 (fun d p => by_role_append (PyStr.lower (role p)) p d)
                 participants d))).
    { induction participants as [|p ps IH]; intros d Hd; simpl; [assumption|].
      apply IH. now apply keys_by_role_append. }
    apply H. constructor.
Qed.

(** * Whole runs of the balancer of [3.py] *)

Lemma same_shape_refl t : same_shape t t.
Proof. repeat split. Qed.

Lemma same_shape_trans t1 t2 t3 :
  same_shape t1 t2 -> same_shape t2 t3 -> same_shape t1 t3.
Proof.
  intros (Ht & Hl & Hc) (Ht' & Hl' & Hc'). repeat split.
  - now rewrite Ht'.
  - now rewrite Hl'.
  - intro f. now rewrite Hc'.
Qed.

Lemma Forall2_same_shape_refl ts : Forall2 same_shape ts ts.
Proof. induction ts; constructor; auto using same_shape_refl. Qed.

Lemma Forall2_same_shape_trans ts1 ts2 ts3 :
  Forall2 same_shape ts1 ts2 -> Forall2 same_shape ts2 ts3 ->
  Forall2 same_shape ts1 ts3.
Proof.
  intro H. revert ts3. induction H as [|t1 t2 l1 l2 Ht _ IH]; intros ts3 H3.
  - inversion H3. constructor.
  - inversion H3; subst. constructor; eauto using same_shape_trans.
Qed.

(** Two lists of teams of the same length are related when the teams at
    every index are. *)
Lemma Forall2_by_index {A : Type} (R : A -> A -> Prop) (ts ts' : list A) :
  List.length ts' = List.length ts ->
  (forall k t t',
     nth_error ts k = Some t -> nth_error ts' k = Some t' -> R t t') ->
  Forall2 R ts ts'.
Proof.
  revert ts'. induction ts as [|t ts IH]; intros [|t' ts'] Hl H;
    try discriminate; constructor.
  - apply (H 0); reflexivity.
  - apply IH; [simpl in Hl; lia|].
    intros k a b Ha Hb. apply (H (S k)); assumption.
Qed.

Lemma exchanged_same_shape t out inn :
  In out (members t) -> role out = role inn ->
  same_shape t (exchanged t out inn).
Proof.
  intros Hin Hr. unfold exchanged. repeat split; simpl.
  - now apply exchange_length.
  - intro f. now apply exchange_count_role.
Qed.

Lemma accepted_swap_same_shape ts sw ti tj :
  accepted ts sw ti tj -> Forall2 same_shape ts (Py3.perform_swap sw ts).
Proof.
  intro Hacc.
  destruct (accepted_swap_teams ts sw ti tj Hacc) as (Hi & Hj & Hother).
  destruct Hacc as (_ & Hti & Htj & _ & Hm1 & Hm2 & Hr & _).
  apply String.eqb_eq in Hr.
  apply Forall2_by_index; [apply perform_swap_length|].
  intros k t t' Hk Hk'.
  destruct (Nat.eq_dec k (Py3.swap_i sw)) as [->|Hni].
  - rewrite Hti in Hk. rewrite Hi in Hk'.
    injection Hk as <-. injection Hk' as <-.
    now apply exchanged_same_shape.
  - destruct (Nat.eq_dec k (Py3.swap_j sw)) as [->|Hnj].
    + rewrite Htj in Hk. rewrite Hj in Hk'.
      injection Hk as <-. injection Hk' as <-.
      now apply exchanged_same_shape.
    + rewrite (Hother k Hni Hnj), Hk in Hk'. injection Hk' as <-.
      apply same_shape_refl.
Qed.

(** The scores of all the members of all the teams. *)
Lemma total_score_cons (t : Team) (ts : list Team) :
  (sum_score (all_members (t :: ts))
   == sum_score (members t) + sum_score (all_members ts))%Q.
Proof. unfold all_members. simpl. apply sum_score_app. Qed.

Lemma sum_score_remove (p : Person) (l : list Person) :
  In p l -> (sum_score (remove p l) + score p == sum_score l)%Q.
Proof.
  intro Hin. pose proof (sum_score_exchange p p l Hin) as H.
  rewrite sum_score_app, sum_score_cons in H.
  change (sum_score []) with 0%Q in H.
  assert (E : (sum_score (remove p l) + score p
               == sum_score (remove p l) + (score p + 0))%Q) by ring.
  rewrite E, H. ring.
Qed.

Lemma append_member_total i p ts :
  i < List.length ts ->
  (sum_score (all_members (append_member i p ts))
   == sum_score (all_members ts) + score p)%Q.
Proof.
  revert i. induction ts as [|t ts IH]; intros i Hi; simpl in Hi; [lia|].
  destruct i as [|i]; simpl append_member; rewrite !total_score_cons.
  - simpl members. rewrite sum_score_app, sum_score_cons.
    change (sum_score []) with 0%Q. ring.
  - rewrite IH by lia. ring.
Qed.

Lemma remove_member_total i p ts t :
  nth_error ts i = Some t -> In p (members t) ->
  (sum_score (all_members (remove_member i p ts)) + score p
   == sum_score (all_members ts))%Q.
Proof.
  revert i. induction ts as [|t0 ts IH]; intros i Hi Hin.
  - destruct i; discriminate.
  - destruct i as [|i]; simpl remove_member; rewrite !total_score_cons.
    + injection Hi as ->. simpl members.
      rewrite <- (sum_score_remove p (members t) Hin). ring.
    + rewrite <- (IH i Hi Hin). ring.
Qed.

Lemma accepted_swap_total ts sw ti tj :
  accepted ts sw ti tj ->
  (sum_score (all_members (Py3.perform_swap sw ts))
   == sum_score (all_members ts))%Q.
Proof.
  intros (Hlt & Hti & Htj & _ & Hm1 & Hm2 & _).
  assert (Hi : Py3.swap_i sw < List.length ts)
    by (apply nth_error_Some; congruence).
  assert (Hj : Py3.swap_j sw < List.length ts)
    by (apply nth_error_Some; congruence).
  unfold Py3.perform_swap.
  rewrite append_member_total
    by now rewrite append_member_length, !remove_member_length.
  rewrite append_member_total by now rewrite !remove_member_length.
  assert (Htj' : nth_error (remove_member (Py3.swap_i sw) (Py3.swap_m1 sw) ts)
                           (Py3.swap_j sw) = Some tj).
  { rewrite remove_member_nth.
    destruct (Py3.swap_j sw =? Py3.swap_i sw) eqn:E; [|assumption].
    apply Nat.eqb_eq in E. lia. }
  rewrite <- (remove_member_total _ _ ts ti Hti Hm1).
  rewrite <- (remove_member_total _ _ _ tj Htj' Hm2).
  ring.
Qed.

Lemma balance_loop_keeps team_types :
  forall budget r r',
    Py3.balance_loop budget team_types r = Ret r' ->
    Forall2 same_shape (Py3.final_teams r) (Py3.final_teams r')
    /\ (sum_score (all_members (Py3.final_teams r'))
        == sum_score (all_members (Py3.final_teams r)))%Q.
Proof.
  induction budget as [|budget IH]; intros r r'; simpl.
  - intro H. injection H as <-.
    split; [apply Forall2_same_shape_refl|reflexivity].
  - destruct (Py3.find_swap team_types (Py3.final_teams r))
      as [[sw|]| |] eqn:Ef; simpl; try discriminate.
    + intro H. apply IH in H. simpl in H. destruct H as (Hs & Hq).
      destruct (find_swap_accepted _ _ _ Ef) as (ti & tj & Hacc).
      split.
      * eapply Forall2_same_shape_trans; [|exact Hs].
        eapply accepted_swap_same_shape; exact Hacc.
      * rewrite Hq. eapply accepted_swap_total; exact Hacc.
    + intro H. injection H as <-. simpl.
      split; [apply Forall2_same_shape_refl|reflexivity].
Qed.

(** X13: whatever [balance_teams] of [3.py] returns has the same teams
    in the same order, each of its type, its size and its count of every
    role tag, and the scores of all the members of all the teams add up
    to what they did before: the balancer only moves people between
    teams. *)
Theorem balance_teams_keeps_shape ts team_types ts' :
  Py3.balance_teams ts team_types = Ret ts' ->
  Forall2 same_shape ts ts'
  /\ (sum_score (all_members ts') == sum_score (all_members ts))%Q.
Proof.
  unfold Py3.balance_teams, Py3.balance_run.
  destruct (Py3.balance_loop 100 team_types (Py3.mkRun ts 0 []))
    as [r| |] eqn:E; simpl; try discriminate.
  intro H. injection H as <-.
  apply (balance_loop_keeps _ _ _ _ E).
Qed.

Lemma balance_teams_keeps_shape_witness :
  exists ts',
    Py3.balance_teams Scenario.three_teams Scenario.r_template = Ret ts'
    /\ Forall2 same_shape Scenario.three_teams ts'
    /\ (sum_score (all_members ts')
        == sum_score (all_members Scenario.three_teams))%Q.
Proof.
  eexists. split; [vm_compute; reflexivity|].
  apply (balance_teams_keeps_shape Scenario.three_teams Scenario.r_template).
  vm_compute. reflexivity.
Defined.

Lemma balance_run_eq ts team_types :
  Py3.balance_run ts team_types
  = Py3.balance_loop 100 team_types (Py3.mkRun ts 0 []).
Proof. unfold Py3.balance_run. reflexivity. Qed.

Lemma balance_loop_none team_types budget r :
  Py3.find_swap team_types (Py3.final_teams r) = Ret None ->
  Py3.balance_loop (S budget) team_types r
  = Ret (Py3.mkRun (Py3.final_teams r) (S (Py3.iterations r)) (Py3.swaps r)).
Proof. intro H. cbn [Py3.balance_loop]. now rewrite H. Qed.

Lemma balance_loop_below_cap team_types :
  forall budget r r',
    Py3.balance_loop budget team_types r = Ret r' ->
    Py3.iterations r' = Py3.iterations r + budget
    \/ Py3.find_swap team_types (Py3.final_teams r') = Ret None.
Proof.
  induction budget as [|budget IH]; intros r r'; cbn [Py3.balance_loop].
  - intro H. injection H as <-. left. lia.
  - destruct (Py3.find_swap team_types (Py3.final_teams r))
      as [[sw|]| |] eqn:Ef; cbn [bind]; try discriminate.
    + intro H. apply IH in H. cbn [Py3.iterations] in H.
      destruct H as [H|H]; [left; lia|now right].
    + intro H. injection H as <-. now right.
Qed.

(** X14: a run of the balancer that ends before the cap of 100 passes
    leaves teams the balancer has nothing more to do with: called on
    its own result, it returns them unchanged after a single pass. *)
Theorem balance_teams_settles ts team_types r :
  Py3.balance_run ts team_types = Ret r ->
  Py3.iterations r < 100 ->
  Py3.balance_run (Py3.final_teams r) team_types
  = Ret (Py3.mkRun (Py3.final_teams r) 1 [])
  /\ Py3.balance_teams (Py3.final_teams r) team_types
     = Ret (Py3.final_teams r).
Proof.
  intros Hr Hlt. rewrite balance_run_eq in Hr.
  apply balance_loop_below_cap in Hr. cbn [Py3.iterations] in Hr.
  destruct Hr as [Hi|Hf]; [lia|].
  assert (E : Py3.balance_run (Py3.final_teams r) team_types
              = Ret (Py3.mkRun (Py3.final_teams r) 1 [])).
  { unfold Py3.balance_run.
    apply (balance_loop_none team_types 99
             (Py3.mkRun (Py3.final_teams r) 0 [])).
    exact Hf. }
  split; [exact E|]. unfold Py3.balance_teams. now rewrite E.
Qed.

Lemma balance_teams_settles_witness :
  exists r,
    Py3.balance_run Scenario.three_teams Scenario.r_template = Ret r
    /\ Py3.balance_teams (Py3.final_teams r) Scenario.r_template
       = Ret (Py3.final_teams r).
Proof.
  eexists. split; [vm_compute; reflexivity|].
  apply (balance_teams_settles Scenario.three_teams Scenario.r_template).
  - vm_compute. reflexivity.
  - vm_compute. lia.
Defined.

(** X15: the teams [form_teams] of [3.py] returns can always be handed
    to [balance_teams] with the same templates, as the script does:
    every team carries the name of one of the templates, so the
    balancer raises no [KeyError] and returns. *)
Theorem formed_teams_can_be_balanced fuel participants team_types ts
    leftover :
  Py3.form_teams fuel participants team_types = Ret (ts, leftover) ->
  known_types team_types ts
  /\ exists ts', Py3.balance_teams ts team_types = Ret ts'.
Proof.
  intro H.
  assert (Hk : known_types team_types ts).
  { revert H. apply form_teams_Forall.
    - intros st st' team Hp Ht.
      destruct (one_pass_commits _ _ _ Hp)
        as (c & team' & _ & Hl & Ht' & _).
      rewrite Ht in Ht'. apply app_inj_tail in Ht'. destruct Ht' as (_ & ->).
      congruence.
    - intros t t' (Ht & _) Hl. now rewrite Ht. }
  split; [exact Hk|]. now apply balance_teams_returns.
Qed.

Lemma formed_teams_can_be_balanced_witness :
  known_types Scenario.roomy_template [mkTeam "t" [Scenario.a90; Scenario.c50]]
  /\ exists ts',
       Py3.balance_teams [mkTeam "t" [Scenario.a90; Scenario.c50]]
                         Scenario.roomy_template = Ret ts'.
Proof.
  apply (formed_teams_can_be_balanced 3
           [Scenario.a90; Scenario.c50; Scenario.d40] Scenario.roomy_template
           [mkTeam "t" [Scenario.a90; Scenario.c50]] [Scenario.d40]).
  reflexivity.
Defined.

(** * Equal rows *)

Lemma Qeq_bool_sym (x y : Q) : Qeq_bool x y = Qeq_bool y x.
Proof.
  destruct (Qeq_bool x y) eqn:E, (Qeq_bool y x) eqn:E'; try reflexivity.
  - apply Qeq_bool_iff in E. symmetry in E. apply Qeq_bool_iff in E.
    congruence.
  - apply Qeq_bool_iff in E'. symmetry in E'. apply Qeq_bool_iff in E'.
    congruence.
Qed.

Lemma person_eqb_sym (p q : Person) : person_eqb p q = person_eqb q p.
Proof.
  unfold person_eqb.
  rewrite (String.eqb_sym (name p)), (String.eqb_sym (email p)),
    (String.eqb_sym (phone p)), (String.eqb_sym (role p)),
    (Qeq_bool_sym (experience p)), (Qeq_bool_sym (score p)).
  reflexivity.
Qed.

Lemma person_eqb_trans (p q r : Person) :
  person_eqb p q = true -> person_eqb q r = true -> person_eqb p r = true.
Proof.
  unfold person_eqb. intros H1 H2.
  repeat (apply andb_prop in H1; destruct H1 as [H1 ?]).
  repeat (apply andb_prop in H2; destruct H2 as [H2 ?]).
  repeat match goal with
         | E : String.eqb _ _ = true |- _ => apply String.eqb_eq in E
         | E : Qeq_bool _ _ = true |- _ => apply Qeq_bool_iff in E
         end.
  repeat (apply andb_true_intro; split);
    try (apply String.eqb_eq; congruence);
    apply Qeq_bool_iff; etransitivity; eassumption.
Qed.

(** Equal rows are equal to the same rows. *)
Lemma person_eqb_class (p q x : Person) :
  person_eqb p q = true -> person_eqb x p = person_eqb x q.
Proof.
  intro H. destruct (person_eqb x p) eqn:E, (person_eqb x q) eqn:E';
    try reflexivity.
  - rewrite (person_eqb_trans x p q E H) in E'. discriminate.
  - rewrite person_eqb_sym in H.
    rewrite (person_eqb_trans x q p E' H) in E. discriminate.
Qed.

(** ** Counting equal rows *)

Lemma occurrences_cons (x q : Person) (l : list Person) :
  occurrences x (q :: l)
  = (if person_eqb q x then 1 else 0) + occurrences x l.
Proof. unfold occurrences. simpl. now destruct (person_eqb q x). Qed.

Lemma occurrences_remove_same (p x : Person) (l : list Person) :
  person_eqb p x = true ->
  occurrences x (remove p l) = occurrences x l - 1.
Proof.
  intro H. induction l as [|q l IH]; [reflexivity|].
  simpl remove. rewrite occurrences_cons.
  rewrite <- (person_eqb_class p x q H).
  destruct (person_eqb q p) eqn:E; [simpl; lia|].
  rewrite occurrences_cons, <- (person_eqb_class p x q H), E, IH.
  reflexivity.
Qed.

Lemma occurrences_remove_other (p x : Person) (l : list Person) :
  person_eqb p x = false ->
  occurrences x (remove p l) = occurrences x l.
Proof.
  intro H. induction l as [|q l IH]; [reflexivity|].
  simpl remove. rewrite occurrences_cons.
  destruct (person_eqb q p) eqn:E.
  - assert (Hq : person_eqb q x = false).
    { rewrite person_eqb_sym, (person_eqb_class q p x E), person_eqb_sym.
      exact H. }
    now rewrite Hq.
  - rewrite occurrences_cons, IH. reflexivity.
Qed.

Lemma remove_occurring (p : Person) (l : list Person) :
  0 < occurrences p l -> S (List.length (remove p l)) = List.length l.
Proof.
  induction l as [|q l IH]; [unfold occurrences; simpl; lia|].
  rewrite occurrences_cons. simpl remove.
  destruct (person_eqb q p); [reflexivity|].
  simpl. intro H. now rewrite IH.
Qed.

(** Removing rows that the list has, each as often as it is removed,
    shortens the list by their number. *)
Lemma remove_all_length (selected l : list Person) :
  (forall x, occurrences x selected <= occurrences x l) ->
  List.length (remove_all selected l) + List.length selected = List.length l.
Proof.
  revert l. induction selected as [|p selected IH]; intros l H.
  - simpl. lia.
  - change (remove_all (p :: selected) l)
      with (remove_all selected (remove p l)).
    assert (Hp : 0 < occurrences p l).
    { specialize (H p). rewrite occurrences_cons, person_eqb_refl in H. lia. }
    rewrite <- (remove_occurring p l Hp). simpl.
    rewrite <- (IH (remove p l)); [lia|].
    intro x. specialize (H x). rewrite occurrences_cons in H.
    destruct (person_eqb p x) eqn:E.
    + rewrite (occurrences_remove_same p x l E). lia.
    + rewrite (occurrences_remove_other p x l E). lia.
Qed.

Lemma occurrences_perm (x : Person) (l l' : list Person) :
  Permutation l l' -> occurrences x l = occurrences x l'.
Proof.
  induction 1 as [|q l l' _ IH|q q' l|l l' l'' _ IH1 _ IH2].
  - reflexivity.
  - rewrite !occurrences_cons. lia.
  - rewrite !occurrences_cons. lia.
  - congruence.
Qed.

Lemma occurrences_firstn (x : Person) n (l : list Person) :
  occurrences x (firstn n l) <= occurrences x l.
Proof.
  revert n. induction l as [|q l IH]; intros [|n]; simpl firstn;
    try (unfold occurrences; simpl; lia).
  rewrite !occurrences_cons. specialize (IH n). lia.
Qed.

Lemma occurrences_filter (x : Person) (f : Person -> bool) (l : list Person) :
  occurrences x (filter f l) <= occurrences x l.
Proof.
  induction l as [|q l IH]; [reflexivity|]. simpl filter.
  destruct (f q); rewrite !occurrences_cons; lia.
Qed.

(** The [count] best of the rows that satisfy [f], as the scripts
    select them, are taken out of the pool one for one. *)
Lemma top_selection_length (f : Person -> bool) count (pool : list Person) :
  List.length (remove_all (firstn count (sort_by_score (filter f pool))) pool)
  + List.length (firstn count (sort_by_score (filter f pool)))
  = List.length pool.
Proof.
  apply remove_all_length. intro x.
  etransitivity; [apply occurrences_firstn|].
  rewrite (occurrences_perm x _ _ (sort_by_score_perm (filter f pool))).
  apply occurrences_filter.
Qed.

Lemma top_selection_size (f : Person -> bool) count (pool : list Person) :
  count <= List.length (filter f pool) ->
  List.length (firstn count (sort_by_score (filter f pool))) = count.
Proof.
  intro H. apply firstn_length_le.
  now rewrite (Permutation_length (sort_by_score_perm (filter f pool))).
Qed.

Lemma top_selection_satisfy (f : Person -> bool) count (pool : list Person) :
  filter f (firstn count (sort_by_score (filter f pool)))
  = firstn count (sort_by_score (filter f pool)).
Proof.
  apply forallb_filter_id. apply forallb_forall. apply Forall_forall.
  apply (Subseq_Forall _ _ _ (Subseq_firstn count _)).
  apply (Permutation_Forall
           (Permutation_sym (sort_by_score_perm (filter f pool)))).
  apply Forall_forall. intros p Hp. now apply filter_In in Hp.
Qed.

(** * [team-former.py]: teams made to order *)

Lemma headcount_cons (t : list Person) (ts : list (list Person)) :
  headcount (t :: ts) = List.length t + headcount ts.
Proof. unfold headcount. simpl. apply length_app. Qed.

Lemma headcount_app (ts1 ts2 : list (list Person)) :
  headcount (ts1 ++ ts2) = headcount ts1 + headcount ts2.
Proof.
  induction ts1 as [|t ts1 IH]; [reflexivity|].
  change ((t :: ts1) ++ ts2) with (t :: (ts1 ++ ts2)).
  rewrite !headcount_cons, IH. lia.
Qed.

Lemma Subseq_length (l1 l2 : list Person) :
  Subseq l1 l2 -> List.length l1 <= List.length l2.
Proof. induction 1; simpl; lia. Qed.

(** What one composition takes stays in the team and leaves the
    pool. *)
Lemma fill_composition_moves comp :
  forall (team remaining : list Person) possible team' remaining',
    fill_composition comp team remaining = (possible, team', remaining') ->
    List.length team' + List.length remaining'
    = List.length team + List.length remaining
    /\ Subseq remaining' remaining
    /\ exists added : list Person, team' = team ++ added.
Proof.
  induction comp as [|[r count] comp IH];
    intros team remaining possible team' remaining'; simpl.
  - intro H. injection H as <- <- <-.
    split; [reflexivity|]. split; [apply Subseq_refl|].
    exists []. symmetry. apply List.app_nil_r.
  - destruct (_ <? count).
    + intro H. injection H as <- <- <-.
      split; [reflexivity|]. split; [apply Subseq_refl|].
      exists []. symmetry. apply List.app_nil_r.
    + intro H. apply IH in H. destruct H as (Hn & Hs & added & ->).
      split; [|split].
      * rewrite Hn, length_app.
        pose proof (top_selection_length (has_role (PyStr.lower r)) count
                      remaining).
        lia.
      * eapply Subseq_trans; [exact Hs|apply Subseq_remove_all].
      * eexists. symmetry. apply List.app_assoc.
Qed.

(** A composition that is filled gives the team the number of people
    it asks for, and of each of its roles at least the number asked. *)
Lemma fill_composition_made comp :
  forall (team remaining : list Person) team' remaining',
    fill_composition comp team remaining = (true, team', remaining') ->
    List.length team' = List.length team + list_sum (map snd comp)
    /\ Forall (fun kv =>
                 snd kv
                 <= List.length
                      (filter (has_role (PyStr.lower (fst kv))) team'))
              comp.
Proof.
  induction comp as [|[r count] comp IH];
    intros team remaining team' remaining'; simpl.
  - intro H. injection H as <- <-. split; [lia|constructor].
  - destruct (_ <? count) eqn:E; [discriminate|].
    apply Nat.ltb_ge in E. intro H.
    destruct (fill_composition_moves _ _ _ _ _ _ H) as (_ & _ & added & Ht).
    apply IH in H. destruct H as (Hn & Hf).
    pose proof (top_selection_size (has_role (PyStr.lower r)) count
                  remaining E) as Hsize.
    split.
    + rewrite Hn, length_app, Hsize. lia.
    + constructor; [|exact Hf]. simpl.
      rewrite Ht.
      etransitivity; [|apply count_has_role_app].
      rewrite filter_app, length_app, top_selection_satisfy, Hsize. lia.
Qed.

Lemma form_loop_spec team_compositions :
  forall (teams : list (list Person)) (remaining : list Person) teams'
         leftover,
    TeamFormer.form_loop team_compositions teams remaining = (teams', leftover) ->
    exists new : list (list Person),
      teams' = teams ++ new
      /\ Forall (fun team =>
                   exists comp, In comp team_compositions /\ made_to comp team)
                new
      /\ List.length new <= List.length team_compositions
      /\ Subseq leftover remaining
      /\ headcount new + List.length leftover <= List.length remaining
      /\ (List.length new = List.length team_compositions ->
          headcount new + List.length leftover = List.length remaining).
Proof.
  induction team_compositions as [|comp rest IH];
    intros teams remaining teams' leftover; simpl.
  - intro H. injection H as <- <-. exists [].
    split; [symmetry; apply List.app_nil_r|].
    split; [constructor|]. split; [simpl; lia|].
    split; [apply Subseq_refl|]. unfold headcount. simpl. lia.
  - destruct (fill_composition comp [] remaining)
      as [[possible team] remaining1] eqn:Ef.
    destruct (fill_composition_moves _ _ _ _ _ _ Ef) as (Hn & Hs & _).
    simpl in Hn.
    destruct possible; intro H; apply IH in H;
      destruct H as (new & -> & Hmade & Hlen & Hsub & Hle & Heq).
    + exists (team :: new).
      split; [rewrite <- List.app_assoc; reflexivity|].
      split.
      { constructor.
        - exists comp. split; [now left|].
          destruct (fill_composition_made _ _ _ _ _ Ef) as (Hsz & Hroles).
          split; [exact Hsz|exact Hroles].
        - eapply Forall_impl; [|exact Hmade].
          intros t (c & Hc & Hm). exists c. split; [now right|exact Hm]. }
      split; [simpl; lia|].
      split; [eapply Subseq_trans; eassumption|].
      rewrite headcount_cons. split; [lia|].
      simpl. intro Hl. rewrite <- Hn, <- Heq; lia.
    + exists new. split; [reflexivity|].
      split.
      { eapply Forall_impl; [|exact Hmade].
        intros t (c & Hc & Hm). exists c. split; [now right|exact Hm]. }
      split; [lia|].
      split; [eapply Subseq_trans; eassumption|].
      split; [lia|]. intro Hl. lia.
Qed.

(** X16: every team [form_teams] of [team-former.py] returns is made
    to one of the compositions: it has the number of people the
    composition asks for and of each role of the composition at least
    the number asked; there are no more teams than compositions. *)
Theorem team_former_teams_made_to_order participants team_compositions teams
    leftover :
  TeamFormer.form_teams participants team_compositions = (teams, leftover) ->
  Forall (fun team =>
            exists comp, In comp team_compositions /\ made_to comp team)
         teams
  /\ List.length teams <= List.length team_compositions.
Proof.
  unfold TeamFormer.form_teams. intro H. apply form_loop_spec in H.
  destruct H as (new & -> & Hmade & Hlen & _). simpl. auto.
Qed.

Lemma team_former_teams_made_to_order_witness :
  Forall (fun team =>
            exists comp,
              In comp [[("C", 1)]; [("B", 1)]] /\ made_to comp team)
         [[Scenario.b70]]
  /\ List.length [[Scenario.b70]] <= List.length [[("C", 1)]; [("B", 1)]].
Proof.
  apply (team_former_teams_made_to_order [Scenario.a90; Scenario.b70]
           [[("C", 1)]; [("B", 1)]] [[Scenario.b70]] [Scenario.a90]).
  reflexivity.
Defined.

(** X17: [form_teams] of [team-former.py] returns as leftover a
    subsequence of the participants, in their order, and never more
    people than it was given; when every composition gave a team,
    nobody is missing: the people in the teams and the leftover are as
    many as the participants. *)
Theorem team_former_accounts_for_people participants team_compositions teams
    leftover :
  TeamFormer.form_teams participants team_compositions = (teams, leftover) ->
  Subseq leftover participants
  /\ headcount teams + List.length leftover <= List.length participants
  /\ (List.length teams = List.length team_compositions ->
      headcount teams + List.length leftover = List.length participants).
Proof.
  unfold TeamFormer.form_teams. intro H. apply form_loop_spec in H.
  destruct H as (new & -> & _ & _ & Hsub & Hle & Heq). simpl. auto.
Qed.

Lemma team_former_accounts_for_people_witness :
  Subseq [Scenario.b60] [Scenario.a90; Scenario.b70; Scenario.b60]
  /\ headcount [[Scenario.a90; Scenario.b70]] + List.length [Scenario.b60]
     <= List.length [Scenario.a90; Scenario.b70; Scenario.b60]
  /\ (List.length [[Scenario.a90; Scenario.b70]]
      = List.length Scenario.pair_composition ->
      headcount [[Scenario.a90; Scenario.b70]] + List.length [Scenario.b60]
      = List.length [Scenario.a90; Scenario.b70; Scenario.b60]).
Proof.
  apply (team_former_accounts_for_people
           [Scenario.a90; Scenario.b70; Scenario.b60]
           Scenario.pair_composition
           [[Scenario.a90; Scenario.b70]] [Scenario.b60]).
  reflexivity.
Defined.

(** * [team-former1.py]: ideal compositions with a fallback *)

Lemma ideal_pass_spec team_compositions :
  forall (teams : list (list Person)) (remaining : list Person) possible
         teams' remaining',
    TeamFormer1.ideal_pass team_compositions teams remaining
    = (possible, teams', remaining') ->
    possible = true ->
    List.length teams' = List.length teams + List.length team_compositions
    /\ headcount teams' + List.length remaining'
       = headcount teams + List.length remaining.
Proof.
  induction team_compositions as [|comp rest IH];
    intros teams remaining possible teams' remaining'; simpl.
  - intros H _. injection H as _ <- <-. lia.
  - destruct (fill_composition comp [] remaining)
      as [[ok team] remaining1] eqn:Ef.
    destruct (fill_composition_moves _ _ _ _ _ _ Ef) as (Hn & _).
    simpl in Hn.
    destruct ok; [|intros H Hp; injection H as <- _ _; discriminate].
    intros H Hp. destruct (IH _ _ _ _ _ H Hp) as (Hl & Hh).
    rewrite length_app in Hl. rewrite headcount_app in Hh.
    unfold headcount at 3 in Hh. simpl in Hh, Hl.
    rewrite List.app_nil_r in Hh. lia.
Qed.

Lemma take_up_to_moves absolute reqs :
  forall (team remaining team' remaining' : list Person),
    TeamFormer1.take_up_to absolute reqs team remaining = (team', remaining') ->
    List.length team' + List.length remaining'
    = List.length team + List.length remaining.
Proof.
  induction reqs as [|[r bound] reqs IH];
    intros team remaining team' remaining'; simpl.
  - intro H. injection H as <- <-. reflexivity.
  - destruct (_ && _).
    + intro H. apply IH in H. rewrite H, length_app.
      match goal with
      | |- context [firstn ?n (sort_by_score (filter ?f remaining))] =>
          pose proof (top_selection_length f n remaining)
      end.
      lia.
    + apply IH.
Qed.

Lemma minimum_pass_spec min_requirements team_compositions :
  forall (teams : list (list Person)) (remaining : list Person) teams'
         remaining',
    TeamFormer1.minimum_pass min_requirements team_compositions teams
                             remaining = (teams', remaining') ->
    List.length teams' = List.length teams + List.length team_compositions
    /\ headcount teams' + List.length remaining'
       = headcount teams + List.length remaining.
Proof.
  induction team_compositions as [|comp rest IH];
    intros teams remaining teams' remaining'; simpl.
  - intro H. injection H as <- <-. lia.
  - destruct (TeamFormer1.take_up_to true min_requirements [] remaining)
      as [team1 remaining1] eqn:E1.
    destruct (TeamFormer1.take_up_to false comp team1 remaining1)
      as [team2 remaining2] eqn:E2.
    apply take_up_to_moves in E1. apply take_up_to_moves in E2.
    simpl in E1.
    intro H. apply IH in H. destruct H as (Hl & Hh).
    rewrite length_app in Hl. rewrite headcount_app in Hh.
    unfold headcount at 3 in Hh. simpl in Hh, Hl.
    rewrite List.app_nil_r in Hh. lia.
Qed.

(** ** The distribution of the leftover *)

Lemma former1_best_team_bound p ts :
  forall i best_team_idx lowest_avg k,
    TeamFormer1.best_team p ts i best_team_idx lowest_avg = Some k ->
    best_team_idx = Some k \/ (i <= k /\ k < i + List.length ts).
Proof.
  induction ts as [|team ts IH]; intros i b l k; simpl.
  - intro H. now left.
  - destruct team as [|m team].
    + intro H. apply IH in H. destruct H as [H|H]; [now left|right; lia].
    + destruct (_ && _); intro H; apply IH in H;
        destruct H as [H|H]; try (right; lia); try (now left).
      injection H as <-. right. lia.
Qed.

Lemma smallest_from_bound ts :
  forall i best best_len,
    best < i -> TeamFormer1.smallest_from ts i best best_len
                < i + List.length ts.
Proof.
  induction ts as [|t ts IH]; intros i best best_len Hb; simpl; [lia|].
  destruct (_ <? best_len).
  - specialize (IH (S i) i (List.length t)). lia.
  - specialize (IH (S i) best best_len). lia.
Qed.

Lemma smallest_team_idx_returns (ts : list (list Person)) :
  ts <> [] ->
  exists k, TeamFormer1.smallest_team_idx ts = Ret k /\ k < List.length ts.
Proof.
  destruct ts as [|t ts]; [congruence|]. intros _. simpl.
  eexists. split; [reflexivity|].
  pose proof (smallest_from_bound ts 1 0 (List.length t)). lia.
Qed.

Lemma append_to_length k p ts :
  List.length (append_to k p ts) = List.length ts.
Proof.
  revert k. induction ts as [|t ts IH]; intros [|k]; simpl; auto.
Qed.

Lemma append_to_headcount k p ts :
  k < List.length ts -> headcount (append_to k p ts) = S (headcount ts).
Proof.
  revert k. induction ts as [|t ts IH]; intros k Hk; simpl in Hk; [lia|].
  destruct k as [|k]; simpl append_to; rewrite !headcount_cons.
  - rewrite length_app. simpl. lia.
  - rewrite IH by lia. lia.
Qed.

Lemma grown_refl (ts : list (list Person)) : Forall2 grown ts ts.
Proof.
  induction ts; constructor; auto.
  exists []. symmetry. apply List.app_nil_r.
Qed.

Lemma grown_trans (ts1 ts2 ts3 : list (list Person)) :
  Forall2 grown ts1 ts2 -> Forall2 grown ts2 ts3 -> Forall2 grown ts1 ts3.
Proof.
  intro H. revert ts3. induction H as [|t1 t2 l1 l2 Ht _ IH]; intros ts3 H3.
  - inversion H3. constructor.
  - inversion H3 as [|? t3 ? l3 Ht' Hl']; subst. constructor; [|auto].
    destruct Ht as (a & ->). destruct Ht' as (a' & ->).
    exists (a ++ a'). symmetry. apply List.app_assoc.
Qed.

Lemma append_to_grown k p ts : Forall2 grown ts (append_to k p ts).
Proof.
  revert k. induction ts as [|t ts IH]; intros [|k]; simpl;
    try constructor; auto using grown_refl.
  - now exists [p].
  - exists []. symmetry. apply List.app_nil_r.
Qed.

(** The loop over the leftover takes every other person: the list
    shrinks under the iterator, which then steps over the person that
    moved into the place just read. *)
Lemma former1_distribute_spec :
  forall fuel i (ts : list (list Person)) (remaining : list Person),
    ts <> [] ->
    List.length remaining - i < fuel ->
    exists ts' leftover,
      TeamFormer1.distribute fuel i ts remaining = Ret (ts', leftover)
      /\ Forall2 grown ts ts'
      /\ headcount ts' + List.length leftover
         = headcount ts + List.length remaining
      /\ (List.length remaining <= i ->
          List.length leftover = List.length remaining)
      /\ (i <= List.length remaining ->
          2 * List.length leftover <= List.length remaining + i
          /\ List.length remaining + i <= 2 * List.length leftover + 1).
Proof.
  induction fuel as [|fuel IH]; intros i ts remaining Hts Hf; [lia|].
  simpl. destruct (nth_error remaining i) as [p|] eqn:En.
  - assert (Hi : i < List.length remaining)
      by (apply nth_error_Some; congruence).
    assert (Hin : In p remaining) by (eapply nth_error_In; eassumption).
    pose proof (remove_length p remaining Hin) as Hr.
    assert (Hstep : forall k,
               k < List.length ts ->
               exists ts' leftover,
                 TeamFormer1.distribute fuel (S i) (append_to k p ts)
                                        (remove p remaining)
                 = Ret (ts', leftover)
                 /\ Forall2 grown ts ts'
                 /\ headcount ts' + List.length leftover
                    = headcount ts + List.length remaining
                 /\ (List.length remaining <= i ->
                     List.length leftover = List.length remaining)
                 /\ (i <= List.length remaining ->
                     2 * List.length leftover <= List.length remaining + i
                     /\ List.length remaining + i
                        <= 2 * List.length leftover + 1)).
    { intros k Hk.
      destruct (IH (S i) (append_to k p ts) (remove p remaining))
        as (ts' & leftover & -> & Hg & Hh & Hpast & Hhalf).
      - intro E. apply (f_equal (@List.length _)) in E.
        rewrite append_to_length in E. simpl in E. lia.
      - lia.
      - exists ts', leftover. split; [reflexivity|].
        split; [eapply grown_trans; [apply append_to_grown|exact Hg]|].
        rewrite append_to_headcount in Hh by assumption.
        split; [lia|]. split; [lia|]. intros _.
        destruct (Nat.le_gt_cases (S i) (List.length (remove p remaining)))
          as [Hle|Hgt].
        + specialize (Hhalf Hle). lia.
        + assert (Hl : List.length leftover = List.length (remove p remaining))
            by (apply Hpast; lia).
          lia. }
    destruct (TeamFormer1.best_team p ts 0 None None) as [k|] eqn:Eb.
    + apply Hstep. apply former1_best_team_bound in Eb.
      destruct Eb as [Eb|Eb]; [discriminate|lia].
    + destruct (smallest_team_idx_returns ts Hts) as (k & -> & Hk).
      simpl. now apply Hstep.
  - apply nth_error_None in En.
    exists ts, remaining. split; [reflexivity|].
    split; [apply grown_refl|]. split; [reflexivity|]. split; lia.
Qed.

(** X18: with at least one team to give people to, the distribution of
    [team-former1.py] returns, and it does not place everybody: of the
    people of the sorted leftover, half, rounded down, are still left
    when it is done, because the loop removes from the list it goes
    through.  Teams only gain members, at their end, and the people in
    the teams and the people left are together as many as before. *)
Theorem former1_distribution_leaves_half (ts : list (list Person))
    (remaining : list Person) :
  ts <> [] ->
  exists ts' leftover,
    TeamFormer1.distribute (S (List.length remaining)) 0 ts remaining
    = Ret (ts', leftover)
    /\ Forall2 grown ts ts'
    /\ List.length leftover = List.length remaining / 2
    /\ headcount ts' + List.length leftover
       = headcount ts + List.length remaining.
Proof.
  intro Hts.
  destruct (former1_distribute_spec (S (List.length remaining)) 0 ts remaining
              Hts) as (ts' & leftover & E & Hg & Hh & _ & Hhalf); [lia|].
  exists ts', leftover. split; [exact E|]. split; [exact Hg|].
  split; [|exact Hh].
  destruct (Hhalf (Nat.le_0_l _)) as (H1 & H2).
  apply (Nat.div_unique _ 2 _ (List.length remaining
                               - 2 * List.length leftover)); lia.
Qed.

Lemma former1_distribution_leaves_half_witness :
  exists ts' leftover,
    TeamFormer1.distribute 4 0 [[Scenario.a90]]
      [Scenario.a80; Scenario.b70; Scenario.b60]
    = Ret (ts', leftover)
    /\ Forall2 grown [[Scenario.a90]] ts'
    /\ List.length leftover
       = List.length [Scenario.a80; Scenario.b70; Scenario.b60] / 2
    /\ headcount ts' + List.length leftover
       = headcount [[Scenario.a90]]
         + List.length [Scenario.a80; Scenario.b70; Scenario.b60].
Proof.
  apply (former1_distribution_leaves_half [[Scenario.a90]]
           [Scenario.a80; Scenario.b70; Scenario.b60]).
  discriminate.
Defined.

(** ** [form_teams] as a whole *)

Lemma former1_passes participants team_compositions reqs :
  exists (teams : list (list Person)) (remaining : list Person),
    (let '(original_composition_success, teams1, remaining1) :=
       TeamFormer1.ideal_pass team_compositions [] participants in
     if original_composition_success then (teams1, remaining1)
     else TeamFormer1.minimum_pass reqs team_compositions [] participants)
    = (teams, remaining)
    /\ List.length teams = List.length team_compositions
    /\ headcount teams + List.length remaining = List.length participants.
Proof.
  destruct (TeamFormer1.ideal_pass team_compositions [] participants)
    as [[ok teams1] remaining1] eqn:Ei.
  destruct ok.
  - exists teams1, remaining1. split; [reflexivity|].
    destruct (ideal_pass_spec _ _ _ _ _ _ Ei eq_refl) as (Hl & Hh).
    unfold headcount at 2 in Hh. simpl in Hl, Hh. auto.
  - destruct (TeamFormer1.minimum_pass reqs team_compositions [] participants)
      as [teams remaining] eqn:Em.
    exists teams, remaining. split; [reflexivity|].
    destruct (minimum_pass_spec _ _ _ _ _ _ Em) as (Hl & Hh).
    unfold headcount at 2 in Hh. simpl in Hl, Hh. auto.
Qed.

Lemma former1_form_teams_spec participants team_compositions reqs :
  team_compositions <> [] ->
  exists ts leftover,
    (let '(original_composition_success, teams1, remaining1) :=
       TeamFormer1.ideal_pass team_compositions [] participants in
     let '(teams, remaining_participants) :=
       if original_composition_success then (teams1, remaining1)
       else TeamFormer1.minimum_pass reqs team_compositions [] participants in
     match remaining_participants with
     | [] => Ret (teams, [])
     | _ :: _ =>
         let remaining := sort_by_score remaining_participants in
         TeamFormer1.distribute (S (List.length remaining)) 0 teams remaining
     end) = Ret (ts, leftover)
    /\ List.length ts = List.length team_compositions
    /\ headcount ts + List.length leftover = List.length participants.
Proof.
  intro Hne.
  destruct (former1_passes participants team_compositions reqs)
    as (teams & remaining & E & Hl & Hh).
  destruct (TeamFormer1.ideal_pass team_compositions [] participants)
    as [[ok teams1] remaining1].
  rewrite E. destruct remaining as [|x remaining].
  - exists teams, []. auto.
  - set (sorted := sort_by_score (x :: remaining)).
    assert (Hs : List.length sorted = List.length (x :: remaining))
      by apply (Permutation_length (sort_by_score_perm _)).
    assert (Hts : teams <> []).
    { intro Et. subst teams. simpl in Hl.
      destruct team_compositions; [congruence|discriminate]. }
    destruct (former1_distribute_spec (S (List.length sorted)) 0 teams sorted
                Hts) as (ts' & leftover & Ed & Hg & Hh' & _); [lia|].
    exists ts', leftover. split; [exact Ed|].
    split; [|lia].
    rewrite <- (Forall2_length Hg). exact Hl.
Qed.

Lemma former1_form_teams_returns participants team_compositions
    min_requirements :
  team_compositions <> [] ->
  exists ts leftover,
    TeamFormer1.form_teams participants team_compositions min_requirements
    = Ret (ts, leftover)
    /\ List.length ts = List.length team_compositions
    /\ headcount ts + List.length leftover = List.length participants.
Proof.
  intro Hne. unfold TeamFormer1.form_teams.
  destruct team_compositions as [|comp rest]; [congruence|].
  destruct min_requirements as [reqs|]; cbn [bind].
  - exact (former1_form_teams_spec participants (comp :: rest) reqs Hne).
  - exact (former1_form_teams_spec participants (comp :: rest)
             (map (fun kv => (fst kv, 1)) comp) Hne).
Qed.

Lemma former1_form_teams_no_composition participants min_requirements :
  TeamFormer1.form_teams participants [] min_requirements
  = match min_requirements, participants with
    | None, _ => Raise IndexError
    | Some _, [] => Ret ([], [])
    | Some _, _ :: _ => Raise ValueError
    end.
Proof.
  destruct min_requirements as [reqs|]; [|reflexivity].
  destruct participants as [|p participants]; [reflexivity|].
  unfold TeamFormer1.form_teams. cbn [bind TeamFormer1.ideal_pass].
  destruct (sort_by_score (p :: participants)) as [|q l] eqn:Es.
  - apply (f_equal (@List.length _)) in Es.
    rewrite (Permutation_length (sort_by_score_perm _)) in Es.
    discriminate.
  - reflexivity.
Qed.

(** X19: what [form_teams] of [team-former1.py] does on every input.
    Without compositions it raises: [IndexError] when it has to read
    the minimum requirements from the first composition, [ValueError]
    when it looks for the smallest of no teams to place a participant;
    only with no participant either it returns, with nothing.  With at
    least one composition it returns one team per composition. *)
Theorem former1_form_teams_outcome participants team_compositions
    min_requirements :
  match team_compositions, min_requirements, participants with
  | [], None, _ =>
      TeamFormer1.form_teams participants team_compositions min_requirements
      = Raise IndexError
  | [], Some _, [] =>
      TeamFormer1.form_teams participants team_compositions min_requirements
      = Ret ([], [])
  | [], Some _, _ :: _ =>
      TeamFormer1.form_teams participants team_compositions min_requirements
      = Raise ValueError
  | _ :: _, _, _ =>
      exists ts leftover,
        TeamFormer1.form_teams participants team_compositions min_requirements
        = Ret (ts, leftover)
        /\ List.length ts = List.length team_compositions
  end.
Proof.
  destruct team_compositions as [|comp rest].
  - rewrite former1_form_teams_no_composition.
    destruct min_requirements as [reqs|]; [|reflexivity].
    destruct participants; reflexivity.
  - destruct (former1_form_teams_returns participants (comp :: rest)
                min_requirements) as (ts & leftover & E & Hl & _);
      [discriminate|].
    exists ts, leftover. split; [exact E|exact Hl].
Qed.

(** X20: [form_teams] of [team-former1.py] loses nobody: the people in
    the teams it returns and the people it returns as left are as many
    as the participants. *)
Theorem former1_form_teams_keeps_everybody participants team_compositions
    min_requirements ts leftover :
  TeamFormer1.form_teams participants team_compositions min_requirements
  = Ret (ts, leftover) ->
  headcount ts + List.length leftover = List.length participants.
Proof.
  destruct team_compositions as [|comp rest].
  - rewrite former1_form_teams_no_composition.
    destruct min_requirements as [reqs|]; [|discriminate].
    destruct participants as [|p participants]; [|discriminate].
    intro H. injection H as <- <-. reflexivity.
  - destruct (former1_form_teams_returns participants (comp :: rest)
                min_requirements) as (ts0 & leftover0 & E & _ & Hh);
      [discriminate|].
    rewrite E. intro H. injection H as <- <-. exact Hh.
Qed.

Lemma former1_form_teams_keeps_everybody_witness :
  exists ts leftover,
    TeamFormer1.form_teams
      [Scenario.a90; Scenario.b70; Scenario.c50; Scenario.d40]
      Scenario.pair_composition None
    = Ret (ts, leftover)
    /\ headcount ts + List.length leftover
       = List.length [Scenario.a90; Scenario.b70; Scenario.c50; Scenario.d40].
Proof.
  eexists. eexists. split; [vm_compute; reflexivity|].
  apply (former1_form_teams_keeps_everybody
           [Scenario.a90; Scenario.b70; Scenario.c50; Scenario.d40]
           Scenario.pair_composition None).
  vm_compute. reflexivity.
Defined.

(** * The balancer of [team-former1.py] *)

Lemma former1_scan_m2_member ti tj m1 l2 m2 :
  TeamFormer1.scan_m2 ti tj m1 l2 = Some m2 ->
  In m2 l2 /\ role m1 = role m2.
Proof.
  induction l2 as [|x l2 IH]; simpl; [discriminate|].
  destruct (String.eqb (role m1) (role x)) eqn:Er; simpl.
  - destruct (TeamFormer1.improves ti tj m1 x).
    + intro H. injection H as <-. apply String.eqb_eq in Er.
      split; [now left|exact Er].
    + intro H. apply IH in H. tauto.
  - intro H. apply IH in H. tauto.
Qed.

Lemma former1_scan_m1_member ti tj l1 m1 m2 :
  TeamFormer1.scan_m1 ti tj l1 = Some (m1, m2) ->
  In m1 l1 /\ In m2 tj /\ role m1 = role m2.
Proof.
  induction l1 as [|x l1 IH]; simpl; [discriminate|].
  destruct (TeamFormer1.scan_m2 ti tj x tj) as [y|] eqn:E.
  - intro H. injection H as -> ->.
    apply former1_scan_m2_member in E. destruct E as (Hin & Hr).
    split; [now left|]. split; assumption.
  - intro H. apply IH in H. tauto.
Qed.

Lemma former1_scan_j_member i ti j tjs a b m1 m2 :
  TeamFormer1.scan_j i ti j tjs = Some (a, b, m1, m2) ->
  a = i
  /\ exists k tj,
       b = j + k /\ nth_error tjs k = Some tj
       /\ In m1 ti /\ In m2 tj /\ role m1 = role m2.
Proof.
  revert j. induction tjs as [|tj tjs IH]; intro j; simpl; [discriminate|].
  assert (Hnext : TeamFormer1.scan_j i ti (S j) tjs = Some (a, b, m1, m2) ->
                  a = i
                  /\ exists k tj0,
                       b = j + k /\ nth_error (tj :: tjs) k = Some tj0
                       /\ In m1 ti /\ In m2 tj0 /\ role m1 = role m2).
  { intro H. apply IH in H. destruct H as (-> & k & tj0 & -> & Hk & Hm).
    split; [reflexivity|]. exists (S k), tj0.
    split; [lia|]. split; [exact Hk|exact Hm]. }
  destruct ti as [|x ti]; [exact Hnext|].
  destruct tj as [|y tj]; [exact Hnext|].
  destruct (TeamFormer1.scan_m1 (x :: ti) (y :: tj) (x :: ti))
    as [[n1 n2]|] eqn:E; [|exact Hnext].
  intro H. injection H as <- <- <- <-.
  apply former1_scan_m1_member in E.
  split; [reflexivity|]. exists 0, (y :: tj).
  split; [lia|]. split; [reflexivity|exact E].
Qed.

Lemma former1_scan_i_member i tis a b m1 m2 :
  TeamFormer1.scan_i i tis = Some (a, b, m1, m2) ->
  exists x k ti tj,
    a = i + x /\ b = i + x + S k
    /\ nth_error tis x = Some ti /\ nth_error tis (x + S k) = Some tj
    /\ In m1 ti /\ In m2 tj /\ role m1 = role m2.
Proof.
  revert i. induction tis as [|ti tis IH]; intro i; simpl; [discriminate|].
  destruct (TeamFormer1.scan_j i ti (S i) tis) as [[[[a' b'] n1] n2]|] eqn:E.
  - intro H. injection H as -> -> -> ->.
    apply former1_scan_j_member in E.
    destruct E as (-> & k & tj & -> & Hk & Hm).
    exists 0, k, ti, tj.
    split; [lia|]. split; [lia|]. split; [reflexivity|].
    split; [exact Hk|exact Hm].
  - intro H. apply IH in H.
    destruct H as (x & k & ti' & tj & -> & -> & Hx & Hk & Hm).
    exists (S x), k, ti', tj.
    split; [lia|]. split; [lia|]. split; [exact Hx|].
    split; [exact Hk|exact Hm].
Qed.

(** A swap the balancer finds names two different teams and a member
    of each, with the same role tag. *)
Lemma former1_find_swap_sound ts i j m1 m2 :
  TeamFormer1.find_swap ts = Some (i, j, m1, m2) ->
  i < j
  /\ exists ti tj,
       nth_error ts i = Some ti /\ nth_error ts j = Some tj
       /\ In m1 ti /\ In m2 tj /\ role m1 = role m2.
Proof.
  intro H.
  unfold TeamFormer1.find_swap in H. apply former1_scan_i_member in H.
  destruct H as (x & k & ti & tj & -> & -> & Hx & Hk & Hm).
  simpl. split; [lia|]. exists ti, tj. auto.
Qed.

Lemma append_to_nth i p ts k :
  nth_error (append_to i p ts) k
  = if k =? i then option_map (fun t => t ++ [p]) (nth_error ts k)
    else nth_error ts k.
Proof.
  revert i k. induction ts as [|t ts IH]; intros i k; simpl.
  - destruct (k =? i); destruct k; reflexivity.
  - destruct i, k; simpl; try reflexivity. apply IH.
Qed.

Lemma remove_from_nth i p ts k :
  nth_error (remove_from i p ts) k
  = if k =? i then option_map (remove p) (nth_error ts k)
    else nth_error ts k.
Proof.
  revert i k. induction ts as [|t ts IH]; intros i k; simpl.
  - destruct (k =? i); destruct k; reflexivity.
  - destruct i, k; simpl; try reflexivity. apply IH.
Qed.

Lemma remove_from_length i p ts :
  List.length (remove_from i p ts) = List.length ts.
Proof.
  revert i. induction ts as [|t ts IH]; intro i; simpl; [reflexivity|].
  destruct i; simpl; [reflexivity|]. now rewrite IH.
Qed.

Lemma former1_perform_swap_nth i j m1 m2 ts k :
  i <> j ->
  nth_error (TeamFormer1.perform_swap (i, j, m1, m2) ts) k
  = if k =? i then
      option_map (fun t => remove m1 t ++ [m2]) (nth_error ts k)
    else if k =? j then
      option_map (fun t => remove m2 t ++ [m1]) (nth_error ts k)
    else nth_error ts k.
Proof.
  intro Hij. unfold TeamFormer1.perform_swap.
  rewrite !append_to_nth, !remove_from_nth.
  destruct (k =? i) eqn:Ei, (k =? j) eqn:Ej;
    try (apply Nat.eqb_eq in Ei; apply Nat.eqb_eq in Ej; lia);
    destruct (nth_error ts k); reflexivity.
Qed.

Lemma same_counts_refl (ts : list (list Person)) : Forall2 same_counts ts ts.
Proof. induction ts; constructor; auto. split; auto. Qed.

Lemma same_counts_trans (ts1 ts2 ts3 : list (list Person)) :
  Forall2 same_counts ts1 ts2 -> Forall2 same_counts ts2 ts3 ->
  Forall2 same_counts ts1 ts3.
Proof.
  intro H. revert ts3. induction H as [|t1 t2 l1 l2 Ht _ IH]; intros ts3 H3.
  - inversion H3. constructor.
  - inversion H3 as [|? t3 ? l3 Ht' Hl']; subst. constructor; [|auto].
    destruct Ht as (Hl & Hc). destruct Ht' as (Hl2 & Hc2).
    split; [congruence|]. intro f. now rewrite Hc2.
Qed.

Lemma former1_swap_keeps_counts ts sw :
  TeamFormer1.find_swap ts = Some sw ->
  Forall2 same_counts ts (TeamFormer1.perform_swap sw ts).
Proof.
  destruct sw as [[[i j] m1] m2]. intro H.
  apply former1_find_swap_sound in H.
  destruct H as (Hij & ti & tj & Hi & Hj & H1 & H2 & Hr).
  apply Forall2_by_index.
  - unfold TeamFormer1.perform_swap.
    now rewrite !append_to_length, !remove_from_length.
  - intros k t t' Hk. rewrite former1_perform_swap_nth by lia.
    destruct (k =? i) eqn:Ei; [|destruct (k =? j) eqn:Ej].
    + apply Nat.eqb_eq in Ei. subst k. rewrite Hi in Hk. injection Hk as <-.
      rewrite Hi. simpl. intro E. injection E as <-.
      split; [now apply exchange_length|].
      intro f. now apply exchange_count_role.
    + apply Nat.eqb_eq in Ej. subst k. rewrite Hj in Hk. injection Hk as <-.
      rewrite Hj. simpl. intro E. injection E as <-.
      split; [now apply exchange_length|].
      intro f. now apply exchange_count_role.
    + rewrite Hk. intro E. injection E as <-. split; auto.
Qed.

Lemma former1_balance_loop_keeps_counts :
  forall budget ts,
    Forall2 same_counts ts (TeamFormer1.balance_loop budget ts).
Proof.
  induction budget as [|budget IH]; intro ts; simpl;
    [apply same_counts_refl|].
  destruct (TeamFormer1.find_swap ts) as [sw|] eqn:E;
    [|apply same_counts_refl].
  eapply same_counts_trans; [|apply IH].
  now apply former1_swap_keeps_counts.
Qed.

Lemma Forall2_same_counts_headcount (ts ts' : list (list Person)) :
  Forall2 same_counts ts ts' -> headcount ts' = headcount ts.
Proof.
  induction 1 as [|t t' l l' (Hl & _) _ IH]; [reflexivity|].
  rewrite !headcount_cons. lia.
Qed.

(** X21: [balance_teams] of [team-former1.py] returns as many teams as
    it was given, in the same order, each with the size and the count
    of every role tag it had, so with as many people in all: its swaps
    exchange two members of one role tag between two teams. *)
Theorem former1_balance_teams_keeps_counts (ts : list (list Person)) :
  Forall2 same_counts ts (TeamFormer1.balance_teams ts)
  /\ headcount (TeamFormer1.balance_teams ts) = headcount ts.
Proof.
  assert (H : Forall2 same_counts ts (TeamFormer1.balance_teams ts))
    by apply former1_balance_loop_keeps_counts.
  split; [exact H|]. now apply Forall2_same_counts_headcount.
Qed.

(** * The balancer by experience of [team-former.py] *)

Lemma insert_asc_perm p l :
  Permutation (TeamFormerExperience.insert_asc p l) (p :: l).
Proof.
  induction l as [|q l IH]; simpl; [reflexivity|].
  destruct (Qltb _ _); [|reflexivity].
  etransitivity; [apply perm_skip, IH|apply perm_swap].
Qed.

Lemma sort_by_experience_perm l :
  Permutation (TeamFormerExperience.sort_by_experience l) l.
Proof.
  induction l as [|p l IH]; simpl; [reflexivity|].
  etransitivity; [apply insert_asc_perm|now apply perm_skip].
Qed.

Lemma last_of_In l x : TeamFormerExperience.last_of l = Some x -> In x l.
Proof.
  induction l as [|y l IH]; [discriminate|].
  destruct l as [|z l].
  - intro H. injection H as ->. now left.
  - intro H. right. apply IH. exact H.
Qed.

(** Taking out a member and putting in another one that a test [g]
    does not tell from it keeps the number of members that pass [g]. *)
Lemma exchange_filter (g : Person -> bool) (m1 m2 : Person)
    (l : list Person) :
  respects_eq g -> In m1 l -> g m1 = g m2 ->
  List.length (filter g (remove m1 l ++ [m2])) = List.length (filter g l).
Proof.
  intros Hg Hin Hm.
  destruct (remove_split m1 l Hin) as (l1 & q & l2 & -> & Hq & ->).
  apply Hg in Hq.
  rewrite !filter_app, !length_app. simpl.
  rewrite Hq, Hm. destruct (g m2); simpl; lia.
Qed.

Lemma same_roles_refl (ts : list (list Person)) : Forall2 same_roles ts ts.
Proof. induction ts; constructor; auto. split; auto. Qed.

Lemma same_roles_trans (ts1 ts2 ts3 : list (list Person)) :
  Forall2 same_roles ts1 ts2 -> Forall2 same_roles ts2 ts3 ->
  Forall2 same_roles ts1 ts3.
Proof.
  intro H. revert ts3. induction H as [|t1 t2 l1 l2 Ht _ IH]; intros ts3 H3.
  - inversion H3. constructor.
  - inversion H3 as [|? t3 ? l3 Ht' Hl']; subst. constructor; [|auto].
    destruct Ht as (Hl & Hc). destruct Ht' as (Hl2 & Hc2).
    split; [congruence|]. intro r. now rewrite Hc2.
Qed.

(** The members a role step exchanges are of the two teams and of the
    role of the step. *)
Lemma role_step_members r (ti tj : list Person) m1 rest m2 :
  TeamFormerExperience.sort_by_experience (filter (has_role r) ti)
  = m1 :: rest ->
  TeamFormerExperience.last_of
    (TeamFormerExperience.sort_by_experience (filter (has_role r) tj))
  = Some m2 ->
  (In m1 ti /\ has_role r m1 = true) /\ (In m2 tj /\ has_role r m2 = true).
Proof.
  intros H1 H2. split.
  - apply filter_In.
    apply (Permutation_in _ (sort_by_experience_perm _)).
    rewrite H1. now left.
  - apply filter_In.
    apply (Permutation_in _ (sort_by_experience_perm _)).
    now apply last_of_In.
Qed.

Lemma has_role_same_lower r (m1 m2 : Person) r' :
  has_role r m1 = true -> has_role r m2 = true ->
  has_role r' m1 = has_role r' m2.
Proof.
  unfold has_role. intros H1 H2.
  apply String.eqb_eq in H1. apply String.eqb_eq in H2. congruence.
Qed.

Lemma role_step_keeps i j (ts : list (list Person)) r :
  i <> j ->
  Forall2 same_roles ts (TeamFormerExperience.role_step i j ts r).
Proof.
  intro Hij. unfold TeamFormerExperience.role_step.
  destruct (nth_error ts i) as [ti|] eqn:Hi; [|apply same_roles_refl].
  destruct (nth_error ts j) as [tj|] eqn:Hj; [|apply same_roles_refl].
  destruct (TeamFormerExperience.sort_by_experience (filter (has_role r) ti))
    as [|m1 rest] eqn:E1; [apply same_roles_refl|].
  destruct (TeamFormerExperience.last_of _) as [m2|] eqn:E2;
    [|apply same_roles_refl].
  destruct (Qltb _ _); [|apply same_roles_refl].
  destruct (role_step_members r ti tj m1 rest m2 E1 E2)
    as ((Hin1 & Hr1) & (Hin2 & Hr2)).
  apply Forall2_by_index.
  - now rewrite !append_to_length, !remove_from_length.
  - intros k t t' Hk.
    change (append_to j m1 (append_to i m2 (remove_from j m2
              (remove_from i m1 ts))))
      with (TeamFormer1.perform_swap (i, j, m1, m2) ts).
    rewrite former1_perform_swap_nth by assumption.
    destruct (k =? i) eqn:Ei; [|destruct (k =? j) eqn:Ej].
    + apply Nat.eqb_eq in Ei. subst k. rewrite Hi in Hk. injection Hk as <-.
      rewrite Hi. simpl. intro E. injection E as <-.
      split; [now apply exchange_length|].
      intro r'. apply exchange_filter;
        [apply has_role_respects_eq|assumption|].
      now apply (has_role_same_lower r).
    + apply Nat.eqb_eq in Ej. subst k. rewrite Hj in Hk. injection Hk as <-.
      rewrite Hj. simpl. intro E. injection E as <-.
      split; [now apply exchange_length|].
      intro r'. apply exchange_filter;
        [apply has_role_respects_eq|assumption|].
      now apply (has_role_same_lower r).
    + rewrite Hk. intro E. injection E as <-. split; auto.
Qed.

Section Order.

Variable set_order : list string -> list string.

Lemma pair_step_keeps i j (ts : list (list Person)) :
  i <> j ->
  Forall2 same_roles ts (TeamFormerExperience.pair_step set_order i j ts).
Proof.
  intro Hij. unfold TeamFormerExperience.pair_step.
  destruct (nth_error ts i) as [ti|]; [|apply same_roles_refl].
  destruct (nth_error ts j) as [tj|]; [|apply same_roles_refl].
  generalize (set_order (map (fun m => PyStr.lower (role m)) (ti ++ tj))).
  intro rs. revert ts. induction rs as [|r rs IH]; intro ts; simpl.
  - apply same_roles_refl.
  - eapply same_roles_trans; [|apply IH]. now apply role_step_keeps.
Qed.

Lemma loop_j_keeps i :
  forall count j (ts : list (list Person)),
    i < j ->
    Forall2 same_roles ts (TeamFormerExperience.loop_j set_order i j count ts).
Proof.
  induction count as [|count IH]; intros j ts Hij; simpl.
  - apply same_roles_refl.
  - eapply same_roles_trans; [|apply IH; lia].
    apply pair_step_keeps. lia.
Qed.

Lemma loop_i_keeps :
  forall count i (ts : list (list Person)),
    Forall2 same_roles ts (TeamFormerExperience.loop_i set_order i count ts).
Proof.
  induction count as [|count IH]; intros i ts; simpl.
  - apply same_roles_refl.
  - eapply same_roles_trans; [|apply IH].
    apply loop_j_keeps. lia.
Qed.

End Order.

(** X22: in whatever order Python goes through the set of roles,
    [balance_teams_by_experience] of [team-former.py] returns as many
    teams as it was given, in the same order, each with the size it
    had and as many members of every role as before, where roles are
    compared without regard to case. *)
Theorem balance_by_experience_keeps_roles (set_order : list string -> list string)
    (ts : list (list Person)) :
  Forall2 same_roles ts
    (TeamFormerExperience.balance_teams_by_experience set_order ts).
Proof. apply loop_i_keeps. Qed.

(** * The order in which the construction loop of [3.py] takes people *)

(** ** People tied on role and score *)

(** When the people a test [h] picks out all pass [g], taking the
    first [k] people that pass [g] splits the people [h] picks out into
    those taken, who come first, and those left. *)
Lemma filter_taken_within (h g : Person -> bool) k (pool : list Person) :
  (forall x, h x = true -> g x = true) ->
  filter h (firstn k (filter g pool)) ++ filter h (drop_first g k pool)
  = filter h pool.
Proof.
  intro Hhg. revert k. induction pool as [|x pool IH]; intro k.
  - destruct k; reflexivity.
  - destruct k as [|k]; [reflexivity|]. simpl.
    destruct (g x) eqn:Eg; simpl.
    + destruct (h x); simpl; now rewrite IH.
    + destruct (h x) eqn:Eh.
      * apply Hhg in Eh. congruence.
      * apply (IH (S k)).
Qed.

(** When none of them passes [g], none is taken. *)
Lemma filter_taken_apart (h g : Person -> bool) k (pool : list Person) :
  (forall x, h x = true -> g x = false) ->
  filter h (firstn k (filter g pool)) = []
  /\ filter h (drop_first g k pool) = filter h pool.
Proof.
  intro Hhg. split.
  - assert (H : forall l : list Person,
               Forall (fun x => g x = true) l -> filter h l = []).
    { induction 1 as [|x l Hx _ IH]; [reflexivity|]. simpl.
      destruct (h x) eqn:Eh; [|assumption].
      apply Hhg in Eh. congruence. }
    apply H, selected_satisfy.
  - revert k. induction pool as [|x pool IH]; intro k.
    + destruct k; reflexivity.
    + destruct k as [|k]; [reflexivity|]. simpl.
      destruct (g x) eqn:Eg.
      * destruct (h x) eqn:Eh; [apply Hhg in Eh; congruence|].
        apply IH.
      * simpl. destruct (h x); now rewrite (IH (S k)).
Qed.

(** The first [k] people of a role, taken out of a pool: of the people
    tied on a role and a score, those taken are the first of the pool,
    in order, and those left follow them. *)
Lemma role_selection_ties s r r' k (pool : list Person) :
  filter (tied s r) (firstn k (filter (has_role r') pool))
  ++ filter (tied s r)
       (remove_all (firstn k (filter (has_role r') pool)) pool)
  = filter (tied s r) pool.
Proof.
  rewrite remove_all_selected by apply has_role_respects_eq.
  destruct (String.eqb r r') eqn:E.
  - apply String.eqb_eq in E. subst r'. apply filter_taken_within.
    intros x Hx. unfold tied in Hx. now apply andb_prop in Hx.
  - destruct (filter_taken_apart (tied s r) (has_role r') k pool) as (-> & ->);
      [|reflexivity].
    intros x Hx. unfold tied in Hx. apply andb_prop in Hx. destruct Hx as (Hx & _).
    unfold has_role in *. apply String.eqb_eq in Hx. rewrite Hx. exact E.
Qed.

(** The same for the first [k] people of the pool, whatever their
    role. *)
Lemma prefix_selection_ties s r k (pool : list Person) :
  filter (tied s r) (firstn k pool)
  ++ filter (tied s r) (remove_all (firstn k pool) pool)
  = filter (tied s r) pool.
Proof.
  rewrite <- (filter_all pool) at 1 2.
  rewrite remove_all_selected by (intros p q _; reflexivity).
  now apply filter_taken_within.
Qed.

Lemma claim_ties (h : Person -> bool) (team selected pool pool' : list Person) :
  filter h selected ++ filter h pool' = filter h pool ->
  filter h (team ++ selected) ++ filter h pool'
  = filter h team ++ filter h pool.
Proof. intro H. now rewrite filter_app, <- List.app_assoc, H. Qed.

(** ** The three phases of a pass *)

Lemma fill_minimums_ties s r rs a :
  filter (tied s r) (Py3.team_members (Py3.fill_minimums rs a))
  ++ filter (tied s r) (Py3.pool (Py3.fill_minimums rs a))
  = filter (tied s r) (Py3.team_members a) ++ filter (tied s r) (Py3.pool a).
Proof.
  revert a. induction rs as [|[r' q] rs IH]; intro a; simpl; [reflexivity|].
  destruct (_ <? _); [reflexivity|].
  rewrite IH. simpl. apply claim_ties, role_selection_ties.
Qed.

Lemma extend_to_max_ties s r rs a :
  filter (tied s r) (Py3.team_members (Py3.extend_to_max rs a))
  ++ filter (tied s r) (Py3.pool (Py3.extend_to_max rs a))
  = filter (tied s r) (Py3.team_members a) ++ filter (tied s r) (Py3.pool a).
Proof.
  revert a. induction rs as [|[r' q] rs IH]; intro a; simpl; [reflexivity|].
  destruct (_ <? rmax q); [destruct (0 <? _)|]; rewrite IH; simpl;
    try reflexivity.
  apply claim_ties, role_selection_ties.
Qed.

Lemma fill_to_min_members_ties s r type_config a :
  filter (tied s r)
    (Py3.team_members (Py3.fill_to_min_members type_config a))
  ++ filter (tied s r) (Py3.pool (Py3.fill_to_min_members type_config a))
  = filter (tied s r) (Py3.team_members a) ++ filter (tied s r) (Py3.pool a).
Proof.
  unfold Py3.fill_to_min_members.
  destruct (_ <? min_members type_config); [destruct (0 <? _)|];
    simpl; try reflexivity.
  apply claim_ties, prefix_selection_ties.
Qed.

Lemma fill_minimums_pool rs a :
  Subseq (Py3.pool (Py3.fill_minimums rs a)) (Py3.pool a).
Proof.
  revert a. induction rs as [|[r' q] rs IH]; intro a; simpl;
    [apply Subseq_refl|].
  destruct (_ <? _); [apply Subseq_refl|].
  eapply Subseq_trans; [apply IH|]. simpl. apply Subseq_remove_all.
Qed.

Lemma extend_to_max_pool rs a :
  Subseq (Py3.pool (Py3.extend_to_max rs a)) (Py3.pool a).
Proof.
  revert a. induction rs as [|[r' q] rs IH]; intro a; simpl;
    [apply Subseq_refl|].
  destruct (_ <? rmax q); [destruct (0 <? _)|];
    (eapply Subseq_trans; [apply IH|]); simpl;
    try apply Subseq_refl.
  apply Subseq_remove_all.
Qed.

Lemma fill_to_min_members_pool type_config a :
  Subseq (Py3.pool (Py3.fill_to_min_members type_config a)) (Py3.pool a).
Proof.
  unfold Py3.fill_to_min_members.
  destruct (_ <? min_members type_config); [destruct (0 <? _)|];
    simpl; try apply Subseq_refl.
  apply Subseq_remove_all.
Qed.

(** ** A pass that commits a team *)

(** The team a pass commits and the pool it leaves: the team has the
    minimum of every role of its template, and of the people tied on a
    role and a score that the pool held, the team has the first, in
    order, and the pool keeps the others. *)
Lemma committing_pass_ties team_types st st' s r :
  Py3.one_pass team_types st = Ret (Py3.Continue st') ->
  exists type_config team,
    current_config team_types st = Some type_config
    /\ Py3.teams st' = Py3.teams st ++ [team]
    /\ Forall (fun kv =>
                 rmin (snd kv)
                 <= List.length
                      (filter (has_role (PyStr.lower (fst kv)))
                         (members team)))
              (roles type_config)
    /\ filter (tied s r) (members team)
       ++ filter (tied s r) (Py3.remaining_participants st')
       = filter (tied s r) (Py3.remaining_participants st)
    /\ Subseq (Py3.remaining_participants st')
              (Py3.remaining_participants st).
Proof.
  intro Hp.
  destruct (one_pass_commits _ _ _ Hp)
    as (c & team & Hcfg & _ & Ht & Hf & Hm & _).
  exists c, team. split; [exact Hcfg|]. split; [exact Ht|].
  set (a1 := Py3.fill_minimums (roles c) (fresh_attempt st)) in *.
  set (a2 := Py3.extend_to_max (roles c) a1) in *.
  set (a3 := Py3.fill_to_min_members c a2) in *.
  assert (Hpool : Py3.remaining_participants st' = Py3.pool a3).
  { revert Hp. unfold Py3.one_pass. unfold current_config in Hcfg.
    destruct (List.length (map fst team_types) =? 0); [discriminate|].
    rewrite Hcfg. fold (fresh_attempt st). fold a1. rewrite Hf. simpl.
    fold a2. fold a3.
    destruct (min_members c <=? _); [|discriminate].
    intro H. injection H as <-. reflexivity. }
  split; [|split].
  - pose proof (fill_minimums_meets _ _ Hf) as Hmin. fold a1 in Hmin.
    eapply Forall_impl; [|exact Hmin]. intros [r' q] Hr. simpl in *.
    rewrite Hm. unfold a3.
    destruct (fill_to_min_members_grows c a2) as (added2 & ->).
    unfold a2.
    destruct (extend_to_max_grows (roles c) a1) as (added1 & ->).
    etransitivity; [exact Hr|].
    etransitivity; [apply count_has_role_app|apply count_has_role_app].
  - rewrite Hm, Hpool. unfold a3, a2, a1.
    rewrite fill_to_min_members_ties, extend_to_max_ties, fill_minimums_ties.
    reflexivity.
  - rewrite Hpool. unfold a3, a2, a1.
    eapply Subseq_trans; [apply fill_to_min_members_pool|].
    eapply Subseq_trans; [apply extend_to_max_pool|].
    apply fill_minimums_pool.
Qed.

(** ** Every state the loop enters a pass in *)

Lemma reachable_ties team_types participants st s r :
  reachable team_types participants st ->
  filter (tied s r) (all_members (Py3.teams st))
  ++ filter (tied s r) (Py3.remaining_participants st)
  = filter (tied s r) participants
  /\ Subseq (Py3.remaining_participants st) (sort_by_score participants).
Proof.
  induction 1 as [|st st' Hr (IH & IHs) Hstep].
  - simpl. split; [|apply Subseq_refl].
    apply (sort_by_score_stable (tied s r) s). apply tied_score.
  - destruct (committing_pass_ties _ _ _ s r Hstep)
      as (c & team & _ & Ht & _ & Hties & Hsub).
    split; [|eapply Subseq_trans; eassumption].
    rewrite Ht, all_members_snoc, filter_app, <- List.app_assoc, Hties.
    exact IH.
Qed.

Lemma split_firstn_skipn (l1 l2 l : list Person) :
  l1 ++ l2 = l ->
  l1 = firstn (List.length l1) l /\ l2 = skipn (List.length l1) l.
Proof.
  intros <-. induction l1 as [|x l1 (IH1 & IH2)]; [split; reflexivity|].
  simpl. split; [now rewrite <- IH1|exact IH2].
Qed.

(** The teams the loop returns with are the teams of the last state it
    entered a pass in. *)
Lemma allocate_teams_reachable team_types participants :
  forall fuel st st',
    reachable team_types participants st ->
    Py3.allocate fuel team_types st = Ret st' ->
    exists st1,
      reachable team_types participants st1
      /\ Py3.teams st' = Py3.teams st1.
Proof.
  induction fuel as [|fuel IH]; intros st st' Hr; simpl; [discriminate|].
  destruct (Py3.one_pass team_types st) as [[st1|st1]|e'|] eqn:Ep; simpl;
    try discriminate.
  - apply IH. eapply reach_next; eassumption.
  - intro H. injection H as <-. exists st.
    split; [assumption|]. now apply (one_pass_breaks _ _ _ Ep).
Qed.

(** C8: [form_teams] of [3.py] sorts the pool by descending score and
    keeps people of equal score in input order, and every pool a pass
    of the construction loop starts from is that sorted list with
    people taken out.  Of the participants tied on a role and a score,
    the teams committed so far hold the first [n] in input order, one
    after the other in that order, and the pool holds the others, in
    input order: among tied people the earlier in the input is always
    taken first, whether for a role minimum, for the extension to the
    role maximum or to reach [min_members].  A pass that commits a
    team gives it the minimum of every role of its template and takes
    the tied people it takes from the front of those the pool held.
    The same holds of the teams the loop ends with.  Being a function
    of the participants and the templates, the allocation is the same
    on every run. *)
Theorem tie_break_follows_input_order team_types participants st s r :
  reachable team_types participants st ->
  stable_descending_sort_of participants (sort_by_score participants)
  /\ Subseq (Py3.remaining_participants st) (sort_by_score participants)
  /\ (exists n,
        filter (tied s r) (all_members (Py3.teams st))
        = firstn n (filter (tied s r) participants)
        /\ filter (tied s r) (Py3.remaining_participants st)
           = skipn n (filter (tied s r) participants))
  /\ (forall st',
        Py3.one_pass team_types st = Ret (Py3.Continue st') ->
        exists type_config team,
          current_config team_types st = Some type_config
          /\ Py3.teams st' = Py3.teams st ++ [team]
          /\ Forall (fun kv =>
                       rmin (snd kv)
                       <= List.length
                            (filter (has_role (PyStr.lower (fst kv)))
                               (members team)))
                    (roles type_config)
          /\ filter (tied s r) (members team)
             ++ filter (tied s r) (Py3.remaining_participants st')
             = filter (tied s r) (Py3.remaining_participants st))
  /\ (forall fuel st',
        Py3.allocate fuel team_types st = Ret st' ->
        exists n,
          filter (tied s r) (all_members (Py3.teams st'))
          = firstn n (filter (tied s r) participants)).
Proof.
  intro Hr.
  split; [apply sort_by_score_spec|].
  destruct (reachable_ties _ _ _ s r Hr) as (Hties & Hsub).
  split; [exact Hsub|].
  split; [eexists; apply split_firstn_skipn; exact Hties|].
  split.
  - intros st' Hp.
    destruct (committing_pass_ties _ _ _ s r Hp)
      as (c & team & Hcfg & Ht & Hmin & Hsplit & _).
    exists c, team. auto.
  - intros fuel st' Ha.
    destruct (allocate_teams_reachable _ _ _ _ _ Hr Ha) as (st1 & Hr1 & ->).
    destruct (reachable_ties _ _ _ s r Hr1) as (Hties1 & _).
    eexists. apply (split_firstn_skipn _ _ _ Hties1).
Qed.

Lemma tie_break_follows_input_order_witness :
  exists n,
    filter (tied 80 "a")
      (all_members
         [mkTeam "t" [Scenario.row "a1" "A" 80; Scenario.b70]])
    = firstn n
        (filter (tied 80 "a")
           [Scenario.b70; Scenario.row "a1" "A" 80;
            Scenario.row "a2" "A" 80])
    /\ filter (tied 80 "a") [Scenario.row "a2" "A" 80]
       = skipn n
           (filter (tied 80 "a")
              [Scenario.b70; Scenario.row "a1" "A" 80;
               Scenario.row "a2" "A" 80]).
Proof.
  assert (Hr : reachable Scenario.pair_template
                 [Scenario.b70; Scenario.row "a1" "A" 80;
                  Scenario.row "a2" "A" 80]
                 (Py3.mkLocals
                    [mkTeam "t" [Scenario.row "a1" "A" 80; Scenario.b70]]
                    [Scenario.row "a2" "A" 80] 1 (Some "B"))).
  { eapply reach_next; [apply reach_initial|]. reflexivity. }
  destruct (tie_break_follows_input_order _ _ _ 80 "a" Hr)
    as (_ & _ & H & _).
  exact H.
Defined.
